(** * textTR: splitting, merging, paginating and translating text files

    A shallow embedding of the algorithmic core of the repository
    (text_splitter.py, utils.py, translation_manager.py and
    textTR_V3_Full/ai_translator.py) together with the properties its
    specification states about it, and further properties of these
    functions and of the functions around them.

    Conventions of the embedding.
    - A Python [str] is a [list ascii]: the UTF-8 bytes of the text.  The
      operations used by the code ([find], [in], [replace], [startswith],
      concatenation, slicing at indices returned by [find]) commute with the
      UTF-8 encoding, so they are written on bytes.
    - A Python [int] is a [Z]; counters that only count upwards from 0 or 1
      are [nat].
    - A [dict] whose iteration order matters is an association list in
      insertion order.
    - The file system is explicit state: a finite map from paths to file
      contents plus a set of directories, threaded through the functions
      that touch it; exceptions are values of a result type. *)

From Stdlib Require Import ZArith Lia Ascii String DecimalString DecimalNat.
From stdpp Require Import base list gmap strings sorting.

Local Open Scope Z_scope.

(* ===================================================================== *)
(** * Part I: definitions                                                  *)
(* ===================================================================== *)

(** ** Python strings *)

Abbreviation str := (list ascii).

(** [py "abc"] is the Python literal ["abc"]. *)
Definition py (s : string) : str := list_ascii_of_string s.

(** [bool(s)] for a string: true iff non-empty. *)
Definition truthy (s : str) : bool :=
  match s with [] => false | _ :: _ => true end.

Definition str_eqb (a b : str) : bool := bool_decide (a = b).

(** [s.startswith(p)]. *)
Fixpoint startswith (p s : str) : bool :=
  match p, s with
  | [], _ => true
  | _ :: _, [] => false
  | a :: p', b :: s' => bool_decide (a = b) && startswith p' s'
  end.

(** [s.endswith(p)]. *)
Definition endswith (p s : str) : bool := startswith (reverse p) (reverse s).

(** [s.find(sub)], as an offset from the start of [s]; [None] is Python's -1. *)
Fixpoint find_from (sub s : str) (i : nat) : option nat :=
  if startswith sub s then Some i
  else match s with
       | [] => None
       | _ :: s' => find_from sub s' (S i)
       end.

Definition py_find (sub s : str) : Z :=
  match find_from sub s 0 with
  | Some i => Z.of_nat i
  | None => -1
  end.

(** [sub in s]. *)
Definition contains (sub s : str) : bool :=
  match find_from sub s 0 with Some _ => true | None => false end.

(** [s.replace(old, new)]: every non-overlapping occurrence, scanning from
    the left.  [skip] counts the characters of an occurrence that still have
    to be consumed.  With an empty [old] Python inserts [new] before every
    character and at the end. *)
Fixpoint replace_go (old new : str) (skip : nat) (s : str) : str :=
  match s with
  | [] => []
  | c :: s' =>
      match skip with
      | S k => replace_go old new k s'
      | O => if startswith old s
             then new ++ replace_go old new (length old - 1) s'
             else c :: replace_go old new O s'
      end
  end.

Definition py_replace (old new s : str) : str :=
  match old with
  | [] => new ++ flat_map (fun c => c :: new) s
  | _ :: _ => replace_go old new O s
  end.

(** Whitespace, as [str.strip()] sees it.  The ASCII white space characters
    are single bytes; the other Unicode white space characters are the
    byte sequences of their UTF-8 encodings. *)
Definition ascii_space (c : ascii) : bool :=
  let n := nat_of_ascii c in
  ((9 <=? n) && (n <=? 13) || (28 <=? n) && (n <=? 32))%nat.

Definition bytes (l : list nat) : str := map ascii_of_nat l.

Definition unicode_spaces : list str :=
  [ bytes [194; 133]%nat; bytes [194; 160]%nat; bytes [225; 154; 128]%nat;
    bytes [226; 128; 128]%nat; bytes [226; 128; 129]%nat;
    bytes [226; 128; 130]%nat; bytes [226; 128; 131]%nat;
    bytes [226; 128; 132]%nat; bytes [226; 128; 133]%nat;
    bytes [226; 128; 134]%nat; bytes [226; 128; 135]%nat;
    bytes [226; 128; 136]%nat; bytes [226; 128; 137]%nat;
    bytes [226; 128; 138]%nat; bytes [226; 128; 168]%nat;
    bytes [226; 128; 169]%nat; bytes [226; 128; 175]%nat;
    bytes [226; 129; 159]%nat; bytes [227; 128; 128]%nat ].

(** Length in bytes of the white space character [s] starts with, if any. *)
Definition space_prefix (spaces : list str) (s : str) : option nat :=
  match s with
  | [] => None
  | c :: _ =>
      if ascii_space c then Some 1%nat
      else length <$> List.find (fun w => startswith w s) spaces
  end.

Fixpoint lstrip_go (spaces : list str) (fuel : nat) (s : str) : str :=
  match fuel with
  | O => s
  | S fuel' =>
      match space_prefix spaces s with
      | Some n => lstrip_go spaces fuel' (drop n s)
      | None => s
      end
  end.

Definition lstrip (s : str) : str := lstrip_go unicode_spaces (length s) s.

Definition rstrip (s : str) : str :=
  reverse (lstrip_go (reverse <$> unicode_spaces) (length s) (reverse s)).

Definition strip (s : str) : str := rstrip (lstrip s).

(** [str(n)] for a non-negative integer. *)
Definition str_of_nat (n : nat) : str :=
  list_ascii_of_string (NilEmpty.string_of_uint (Nat.to_uint n)).

(** [f"{n:03d}"] for a non-negative integer: at least three digits. *)
Definition format_03d (n : nat) : str :=
  let d := str_of_nat n in
  replicate (3 - length d)%nat "0"%char ++ d.

(** ** utils.py: pagination *)

(** [list(range(a, b))]. *)
Definition py_range (a b : Z) : list Z :=
  (fun i => a + Z.of_nat i) <$> seq 0 (Z.to_nat (b - a)).

(** [l[start:stop]] with Python's treatment of negative and out-of-range
    bounds. *)
Definition py_slice {A} (l : list A) (start stop : Z) : list A :=
  let n := Z.of_nat (length l) in
  let clamp i := if i <? 0 then Z.max 0 (i + n) else Z.min i n in
  let s := clamp start in
  let e := clamp stop in
  take (Z.to_nat (e - s)) (drop (Z.to_nat s) l).

Definition calculate_pagination (total_items items_per_page : Z)
  : Z * list Z :=
  if (total_items <=? 0) || (items_per_page <=? 0) then (0, [])
  else
    let total_pages := (total_items + items_per_page - 1) / items_per_page in
    (total_pages, py_range 1 (total_pages + 1)).

Definition get_page_items {A} (items : list A) (page items_per_page : Z)
  : list A :=
  if (page <=? 0) || (items_per_page <=? 0) then []
  else
    let start_index := (page - 1) * items_per_page in
    let end_index := start_index + items_per_page in
    py_slice items start_index end_index.

(** ** The file system *)

(** Paths are strings.  A regular file has a content: the text Python's
    text-mode I/O reads from it and writes to it. *)
Record world := World {
  files : gmap str str;
  dirs : gset str;
  unreadable : gset str
}.

Definition path_exists (w : world) (p : str) : bool :=
  bool_decide (is_Some (files w !! p)) || bool_decide (p ∈ dirs w).

Definition path_isfile (w : world) (p : str) : bool :=
  bool_decide (is_Some (files w !! p)).

Definition path_isdir (w : world) (p : str) : bool :=
  bool_decide (p ∈ dirs w).

(** [os.access(p, os.R_OK)]. *)
Definition access_read (w : world) (p : str) : bool :=
  path_exists w p && bool_decide (p ∉ unreadable w).

Definition newline : ascii := ascii_of_nat 10.
Definition carriage_return : ascii := ascii_of_nat 13.

(** Iterating over a text file, or [f.readlines()]: the lines of the
    content, each with its terminating newline; the last line has none when
    the content does not end in one.  [cur] is the current line, reversed. *)
Fixpoint readlines_go (cur : str) (s : str) : list str :=
  match s with
  | [] => match cur with [] => [] | _ :: _ => [reverse cur] end
  | c :: s' =>
      if bool_decide (c = newline) then reverse (c :: cur) :: readlines_go [] s'
      else readlines_go (c :: cur) s'
  end.

Definition readlines (content : str) : list str := readlines_go [] content.

Fixpoint drop_while {A} (f : A -> bool) (l : list A) : list A :=
  match l with
  | [] => []
  | x :: l' => if f x then drop_while f l' else l
  end.

(** [s.rstrip(chars)]. *)
Definition rstrip_chars (chars : list ascii) (s : str) : str :=
  reverse (drop_while (fun c => bool_decide (c ∈ chars)) (reverse s)).

(** ** utils.py: reading files *)

(** [file_path and exists and isfile and os.access(R_OK)]. *)
Definition validate_file_path (w : world) (file_path : str) : bool :=
  truthy file_path && path_exists w file_path && path_isfile w file_path
  && access_read w file_path.

(** [read_file_lines(file_path)] with [max_lines = None]; a file that
    cannot be opened raises [OSError], which the function turns into []. *)
Definition read_file_lines (w : world) (file_path : str) : list str :=
  if negb (path_exists w file_path) then []
  else match files w !! file_path with
       | Some content =>
           if bool_decide (file_path ∈ unreadable w) then []
           else readlines content
       | None => []
       end.

(** ** translation_manager.py: TranslationData *)

Inductive line_status := pending | completed | skipped.

(** One entry of [TranslationData.lines]: the dict built by
    [load_from_file]. *)
Record translation_line := TranslationLine {
  line_number : Z;
  original : str;
  translated : str;
  is_translated : bool;
  status : line_status;
  skip_translation : bool
}.

Record translation_data := TranslationData {
  lines : list translation_line;
  file_path : option str
}.

(** [TranslationData.__init__]. *)
Definition translation_data_init : translation_data :=
  TranslationData [] None.

(** [enumerate(lines)] turned into the line dicts. *)
Definition loaded_lines (raw : list str) : list translation_line :=
  imap (fun i line =>
          TranslationLine (Z.of_nat i + 1)
            (rstrip_chars [newline; carriage_return] line)
            [] false pending false) raw.

Definition load_from_file (w : world) (path : str) (d : translation_data)
  : bool * translation_data :=
  if negb (validate_file_path w path) then (false, d)
  else (true, TranslationData (loaded_lines (read_file_lines w path))
                (Some path)).

(** [0 <= line_index < len(self.lines)], giving the list index. *)
Definition valid_index (d : translation_data) (line_index : Z) : option nat :=
  if (0 <=? line_index) && (line_index <? Z.of_nat (length (lines d)))
  then Some (Z.to_nat line_index) else None.

Definition translate_line (line_index : Z) (translated_text : str)
    (d : translation_data) : bool * translation_data :=
  match valid_index d line_index with
  | Some i =>
      let update l :=
        TranslationLine (line_number l) (original l) translated_text
          (truthy (strip translated_text))
          (if truthy (strip translated_text) then completed else pending)
          (skip_translation l) in
      (true, TranslationData (alter update i (lines d)) (file_path d))
  | None => (false, d)
  end.

Definition toggle_skip_translation (line_index : Z) (d : translation_data)
  : bool * translation_data :=
  match valid_index d line_index with
  | Some i =>
      let update l :=
        let skip := negb (skip_translation l) in
        TranslationLine (line_number l) (original l) (translated l)
          (is_translated l)
          (if skip then skipped
           else if is_translated l then completed else pending)
          skip in
      (true, TranslationData (alter update i (lines d)) (file_path d))
  | None => (false, d)
  end.

(** The three mutating operations, and a session as a sequence of them. *)
Inductive data_op :=
  | OpLoad (path : str)
  | OpTranslate (line_index : Z) (translated_text : str)
  | OpToggleSkip (line_index : Z).

Definition run_op (w : world) (d : translation_data) (o : data_op)
  : translation_data :=
  match o with
  | OpLoad path => (load_from_file w path d).2
  | OpTranslate i t => (translate_line i t d).2
  | OpToggleSkip i => (toggle_skip_translation i d).2
  end.

Definition run_ops (w : world) (ops : list data_op) : translation_data :=
  foldl (run_op w) translation_data_init ops.

(** The invariant of the data model: the flag says whether there is a
    translation. *)
Definition flag_consistent (l : translation_line) : Prop :=
  is_translated l = true <-> strip (translated l) <> [].

(** ** Regular expressions: the part of Python's [re] the code uses *)

(** The engine is the backtracking matcher of [re]: alternatives are tried
    from the left, quantifiers are greedy unless marked lazy, and the first
    match found at the leftmost position wins.  Classes are read on bytes:
    [\w] is [[A-Za-z0-9_]], [\d] is [[0-9]] and [\s] is the ASCII white
    space, case folding is that of the ASCII letters, and a negated set
    accepts every other byte, so the bytes of a non-ASCII character are
    matched one by one by it. *)

Inductive char_class :=
  | CChar (c : ascii)
  | CRange (lo hi : ascii)
  | CWord
  | CDigit
  | CSpace.

Inductive regex :=
  | Lit (c : ascii)
  | CharSet (negated : bool) (items : list char_class)
  | Dot
  | Bol
  | WordBoundary
  | Seq (a b : regex)
  | Alt (a b : regex)
  | Repeat (lazy : bool) (lo : nat) (hi : option nat) (body : regex).

Record re_flags := ReFlags { ignorecase : bool; multiline : bool }.

Definition between (lo hi : nat) (c : ascii) : bool :=
  ((lo <=? nat_of_ascii c) && (nat_of_ascii c <=? hi))%nat.

Definition lower (c : ascii) : ascii :=
  if between 65 90 c then ascii_of_nat (nat_of_ascii c + 32) else c.

Definition upper (c : ascii) : ascii :=
  if between 97 122 c then ascii_of_nat (nat_of_ascii c - 32) else c.

Definition is_digit (c : ascii) : bool := between 48 57 c.

Definition is_word (c : ascii) : bool :=
  between 97 122 c || between 65 90 c || is_digit c
  || bool_decide (c = "_"%char).

Definition in_class (c : ascii) (k : char_class) : bool :=
  match k with
  | CChar x => bool_decide (c = x)
  | CRange lo hi => between (nat_of_ascii lo) (nat_of_ascii hi) c
  | CWord => is_word c
  | CDigit => is_digit c
  | CSpace => ascii_space c
  end.

Definition in_set (fl : re_flags) (negated : bool) (items : list char_class)
    (c : ascii) : bool :=
  let hit x := existsb (in_class x) items in
  xorb negated
    (if ignorecase fl then hit c || hit (lower c) || hit (upper c)
     else hit c).

Definition lit_matches (fl : re_flags) (p c : ascii) : bool :=
  if ignorecase fl then bool_decide (lower p = lower c)
  else bool_decide (p = c).

Definition word_before (prev : option ascii) : bool :=
  match prev with Some c => is_word c | None => false end.

Definition word_after (s : str) : bool :=
  match s with c :: _ => is_word c | [] => false end.

Definition at_line_start (fl : re_flags) (prev : option ascii) : bool :=
  match prev with
  | None => true
  | Some c => multiline fl && bool_decide (c = newline)
  end.

(** A matcher works at one position of the subject: [prev] is the character
    before it, [s] the text from it on, and [k] what has to match after it;
    the answer is what [k] answers where the match ends. *)
Definition matcher : Type :=
  option ascii -> str -> (option ascii -> str -> option nat) -> option nat.

(** [body{lo,hi}], greedy or lazy.  Every round of the body has to consume
    something, so the length of the subject bounds the number of rounds. *)
Fixpoint rep_loop (step : matcher) (lazy : bool) (lo : nat) (hi : option nat)
    (fuel : nat) : matcher :=
  fun prev s k =>
    match fuel with
    | O => None
    | S fuel' =>
        let more (_ : unit) :=
          match hi with
          | Some O => None
          | _ =>
              step prev s (fun prev' s' =>
                if (length s' <? length s)%nat
                then rep_loop step lazy (pred lo) (pred <$> hi) fuel' prev' s' k
                else None)
          end in
        let stop (_ : unit) :=
          match lo with O => k prev s | S _ => None end in
        if lazy
        then match stop () with Some r => Some r | None => more () end
        else match more () with Some r => Some r | None => stop () end
    end.

Fixpoint re_match (fl : re_flags) (r : regex) : matcher :=
  match r with
  | Lit p => fun prev s k =>
      match s with
      | c :: s' => if lit_matches fl p c then k (Some c) s' else None
      | [] => None
      end
  | CharSet negated items => fun prev s k =>
      match s with
      | c :: s' => if in_set fl negated items c then k (Some c) s' else None
      | [] => None
      end
  | Dot => fun prev s k =>
      match s with
      | c :: s' => if bool_decide (c = newline) then None else k (Some c) s'
      | [] => None
      end
  | Bol => fun prev s k => if at_line_start fl prev then k prev s else None
  | WordBoundary => fun prev s k =>
      if xorb (word_before prev) (word_after s) then k prev s else None
  | Seq a b => fun prev s k =>
      re_match fl a prev s (fun prev' s' => re_match fl b prev' s' k)
  | Alt a b => fun prev s k =>
      match re_match fl a prev s k with
      | Some r => Some r
      | None => re_match fl b prev s k
      end
  | Repeat lazy lo hi body => fun prev s k =>
      rep_loop (re_match fl body) lazy lo hi (S (length s)) prev s k
  end.

(** Length of the match of [r] that starts at this position, if there is
    one; with [must_advance] an empty match is refused (the position is the
    end of the empty match before it). *)
Definition match_here (fl : re_flags) (r : regex) (must_advance : bool)
    (prev : option ascii) (s : str) : option nat :=
  (fun rest => (length s - rest)%nat) <$>
  re_match fl r prev s (fun _ s' =>
    if must_advance && bool_decide (length s' = length s) then None
    else Some (length s')).

(** [re.sub(r, repl, s, flags=fl)] with a callable [repl] that has a state of
    its own: every match, from the left, is replaced by what [repl] returns
    for it. *)
Fixpoint sub_go {S} (fl : re_flags) (r : regex) (repl : str -> S -> str * S)
    (fuel : nat) (must_advance : bool) (prev : option ascii) (s : str)
    (st : S) : str * S :=
  match fuel with
  | O => (s, st)
  | S fuel' =>
      match match_here fl r must_advance prev s with
      | Some n =>
          let matched := take n s in
          let '(out, st1) := repl matched st in
          let '(rest, st2) :=
            match n with
            | O => sub_go fl r repl fuel' true prev s st1
            | S _ => sub_go fl r repl fuel' false (last matched) (drop n s) st1
            end in
          (out ++ rest, st2)
      | None =>
          match s with
          | [] => ([], st)
          | c :: s' =>
              let '(rest, st1) := sub_go fl r repl fuel' false (Some c) s' st in
              (c :: rest, st1)
          end
      end
  end.

Definition re_sub {S} (fl : re_flags) (r : regex) (repl : str -> S -> str * S)
    (s : str) (st : S) : str * S :=
  sub_go fl r repl (2 * length s + 2) false None s st.

(** Shorthands for writing patterns. *)
Definition star (r : regex) : regex := Repeat false 0 None r.
Definition plus (r : regex) : regex := Repeat false 1 None r.
Definition opt (r : regex) : regex := Repeat false 0 (Some 1%nat) r.
Definition not_char (c : ascii) : regex := CharSet true [CChar c].

Fixpoint lits (s : str) : regex :=
  match s with
  | [] => Repeat false 0 (Some 0%nat) Dot
  | [c] => Lit c
  | c :: s' => Seq (Lit c) (lits s')
  end.

Fixpoint alts (rs : list regex) : regex :=
  match rs with
  | [] => CharSet false []
  | [r] => r
  | r :: rs' => Alt r (alts rs')
  end.

Fixpoint seqs (rs : list regex) : regex :=
  match rs with
  | [] => Repeat false 0 (Some 0%nat) Dot
  | [r] => r
  | r :: rs' => Seq r (seqs rs')
  end.

(** ** ai_translator.py: TextProtector *)

Definition alnum : list char_class :=
  [CRange "A" "Z"; CRange "a" "z"; CRange "0" "9"]%char.

(** [TextProtector.DEFAULT_PATTERNS], in the order of the dict. *)
Definition DEFAULT_PATTERNS : list (str * regex) :=
  [ (* \{[^}]*\} *)
    (py "curly_braces", seqs [Lit "{"; star (not_char "}"); Lit "}"]%char);
    (* \[[^\]]*\] *)
    (py "square_brackets", seqs [Lit "["; star (not_char "]"); Lit "]"]%char);
    (* <[^>]*> *)
    (py "angle_brackets", seqs [Lit "<"; star (not_char ">"); Lit ">"]%char);
    (* \$\w+|\%\w+\% *)
    (py "variables",
     Alt (Seq (Lit "$") (plus (CharSet false [CWord])))
         (seqs [Lit "%"; plus (CharSet false [CWord]); Lit "%"])%char);
    (* https?://[^\s]+ *)
    (py "urls",
     seqs [lits (py "http"); opt (Lit "s"%char); lits (py "://");
           plus (CharSet true [CSpace])]);
    (* \b[A-Za-z0-9._%+-]+@[A-Za-z0-9.-]+\.[A-Z|a-z]{2,}\b *)
    (py "emails",
     seqs [WordBoundary;
           plus (CharSet false
                   (alnum ++ [CChar "."; CChar "_"; CChar "%"; CChar "+";
                              CChar "-"]%char));
           Lit "@"%char;
           plus (CharSet false (alnum ++ [CChar "."; CChar "-"]%char));
           Lit "."%char;
           Repeat false 2 None
             (CharSet false [CRange "A" "Z"; CChar "|"; CRange "a" "z"]%char);
           WordBoundary]);
    (* \b\d+[\.,]?\d*\s*(?:px|em|rem|%|pt|cm|mm|in)\b *)
    (py "numbers_with_units",
     seqs [WordBoundary; plus (CharSet false [CDigit]);
           opt (CharSet false [CChar "."; CChar ","]%char);
           star (CharSet false [CDigit]); star (CharSet false [CSpace]);
           alts [lits (py "px"); lits (py "em"); lits (py "rem");
                 lits (py "%"); lits (py "pt"); lits (py "cm");
                 lits (py "mm"); lits (py "in")];
           WordBoundary]);
    (* #[0-9A-Fa-f]{3,8} *)
    (py "hex_colors",
     Seq (Lit "#"%char)
       (Repeat false 3 (Some 8%nat)
          (CharSet false [CRange "0" "9"; CRange "A" "F"; CRange "a" "f"]%char)));
    (* \b[a-zA-Z_]\w*\s*[=:]\s*[^;,\n]* *)
    (py "programming_vars",
     seqs [WordBoundary;
           CharSet false [CRange "a" "z"; CRange "A" "Z"; CChar "_"]%char;
           star (CharSet false [CWord]); star (CharSet false [CSpace]);
           CharSet false [CChar "="; CChar ":"]%char;
           star (CharSet false [CSpace]);
           star (CharSet true [CChar ";"; CChar ","; CChar newline]%char)]);
    (* ^[^:]*: *)
    (py "prefix_before_colon",
     seqs [Bol; star (not_char ":"%char); Lit ":"%char]) ].

(** A Python dict in insertion order. *)
Fixpoint dict_get {V} (d : list (str * V)) (key : str) : option V :=
  match d with
  | [] => None
  | (k, v) :: d' => if bool_decide (k = key) then Some v else dict_get d' key
  end.

(** [d[key] = v]: an existing key keeps its place. *)
Fixpoint dict_set {V} (d : list (str * V)) (key : str) (v : V)
  : list (str * V) :=
  match d with
  | [] => [(key, v)]
  | (k, v') :: d' =>
      if bool_decide (k = key) then (k, v) :: d'
      else (k, v') :: dict_set d' key v
  end.

(** [d.update(other)]. *)
Definition dict_update {V} (d other : list (str * V)) : list (str * V) :=
  foldl (fun acc kv => dict_set acc kv.1 kv.2) d other.

Record text_protector := TextProtector {
  patterns : list (str * regex);
  enabled_patterns : gset str;
  placeholder_prefix : str;
  placeholder_suffix : str
}.

(** [TextProtector(custom_patterns)]. *)
Definition text_protector_init (custom_patterns : list (str * regex))
  : text_protector :=
  let pats := dict_update DEFAULT_PATTERNS custom_patterns in
  TextProtector pats (list_to_set pats.*1) (py "§PROTECTED_") (py "§").

Definition set_enabled_patterns (pattern_names : list str)
    (tp : text_protector) : text_protector :=
  TextProtector (patterns tp)
    (list_to_set pattern_names ∩ list_to_set (patterns tp).*1)
    (placeholder_prefix tp) (placeholder_suffix tp).

(** The state the closure [replace_match] shares with [protect_text]. *)
Record protect_state := ProtectState {
  placeholders : list (str * str);
  placeholder_counter : nat
}.

Definition replace_match (tp : text_protector) (matched : str)
    (st : protect_state) : str * protect_state :=
  let counter := S (placeholder_counter st) in
  let placeholder :=
    placeholder_prefix tp ++ str_of_nat counter ++ placeholder_suffix tp in
  (placeholder, ProtectState (dict_set (placeholders st) placeholder matched)
                  counter).

Definition protect_flags : re_flags := ReFlags true true.

(** One round of the loop over the enabled patterns. *)
Definition protect_step (tp : text_protector)
    (acc : str * protect_state) (pattern_name : str) : str * protect_state :=
  match dict_get (patterns tp) pattern_name with
  | None => acc
  | Some pattern => re_sub protect_flags pattern (replace_match tp) acc.1 acc.2
  end.

(** [protect_text].  A Python set has no iteration order of its own, so the
    order in which the loop meets the enabled patterns is an argument:
    [order] enumerates [enabled_patterns]. *)
Definition protect_run (tp : text_protector) (order : list str) (text : str)
  : str * protect_state :=
  if negb (truthy text) || bool_decide (enabled_patterns tp = ∅)
  then (text, ProtectState [] 0)
  else foldl (protect_step tp) (text, ProtectState [] 0) order.

Definition protect_text (tp : text_protector) (order : list str) (text : str)
  : str * list (str * str) :=
  let '(protected, st) := protect_run tp order text in
  (protected, placeholders st).

(** [order] is one of the orders in which the set can be iterated. *)
Definition iteration_order (tp : text_protector) (order : list str) : Prop :=
  order ≡ₚ elements (enabled_patterns tp).

Definition restore_text (translated_text : str)
    (placeholders : list (str * str)) : str :=
  if negb (truthy translated_text)
     || match placeholders with [] => true | _ => false end
  then translated_text
  else foldl (fun restored kv => py_replace kv.1 kv.2 restored)
         translated_text placeholders.

(** [text[i:]] and [text[:i]] for an index inside the text. *)
Definition handle_separator_prefix_translation (text separator : str)
  : str * bool :=
  match find_from separator text 0 with
  | None => (text, false)
  | Some separator_index =>
      let suffix := strip (drop (separator_index + length separator) text) in
      if negb (truthy suffix) then (text, false) else (suffix, true)
  end.

Definition restore_separator_prefix_translation
    (original_text translated_suffix separator : str) : str :=
  match find_from separator original_text 0 with
  | None => translated_suffix
  | Some separator_index =>
      let prefix := take (separator_index + length separator) original_text in
      if negb (endswith (py " ") prefix)
      then strip (prefix ++ py " " ++ translated_suffix)
      else strip (prefix ++ translated_suffix)
  end.

(** What [create_gemini_translator] sets up when no patterns are asked for:
    curly braces and square brackets. *)
Definition default_protector : text_protector :=
  set_enabled_patterns [py "curly_braces"; py "square_brackets"]
    (text_protector_init []).

(** ** ai_translator.py: GeminiTranslator *)

(** What a call that may raise gives back. *)
Inductive outcome :=
  | Raises
  | Returns (result : str).

(** What [client.models.generate_content] does with a user message: it
    raises, it gives a response that is falsy or has no [text], or it gives
    a response with a text ([None] is the empty text here: both clean to
    [""]).  The system instruction depends only on arguments that are fixed
    during a call, so the answer is a function of the message. *)
Inductive api_response :=
  | ApiRaises
  | ApiNoText
  | ApiText (text : str).

Record gemini_translator := GeminiTranslator {
  client_ready : bool;
  generate_content : str -> api_response;
  text_protector_of : text_protector;
  pattern_order : list str
}.

(** [s.split(sep)] for a one-character separator. *)
Fixpoint split_go (sep : ascii) (cur : str) (s : str) : list str :=
  match s with
  | [] => [reverse cur]
  | c :: s' =>
      if bool_decide (c = sep) then reverse cur :: split_go sep [] s'
      else split_go sep (c :: cur) s'
  end.

Definition py_split (sep : ascii) (s : str) : list str := split_go sep [] s.

(** [sep.join(l)]. *)
Fixpoint py_join (sep : str) (l : list str) : str :=
  match l with
  | [] => []
  | [x] => x
  | x :: l' => x ++ sep ++ py_join sep l'
  end.

Definition no_flags : re_flags := ReFlags false false.

Definition delete_matches (r : regex) (s : str) : str :=
  (re_sub no_flags r (fun _ (u : unit) => ([], u)) s ()).1.

Definition is_annotation (line : str) : bool :=
  (startswith (py "[") line && endswith (py "]") line)
  || (startswith (py "(") line && endswith (py ")") line)
  || startswith (py "หมายเหตุ:") line
  || startswith (py "คำอธิบาย:") line
  || startswith (py "แปลว่า:") line.

Definition clean_translation_result (result : str) : str :=
  if negb (truthy result) then []
  else
    (* re.sub(r'```.*?\n', '', result) *)
    let result :=
      delete_matches
        (seqs [lits (py "```"); Repeat true 0 None Dot; Lit newline]) result in
    (* re.sub(r'\n```', '', result) *)
    let result := delete_matches (Seq (Lit newline) (lits (py "```"))) result in
    let result := strip result in
    let cleaned_lines :=
      filter (fun line => negb (is_annotation line) && truthy line)
        (strip <$> py_split newline result) in
    match cleaned_lines with
    | [] => result
    | _ :: _ => py_join [newline] cleaned_lines
    end.

Definition build_user_message (text : str) : str :=
  py "กรุณาแปลข้อความต่อไปนี้:" ++ [newline; newline] ++ text.

(** [GeminiTranslator.translate_text]: the outcome and the messages sent to
    the API, in order. *)
Definition translate_text (g : gemini_translator) (text : str)
    (protect_special_text translate_only_after_separator : bool)
    (custom_separator : str) : outcome * list str :=
  if negb (client_ready g) then (Raises, [])
  else if negb (truthy text) || negb (truthy (strip text))
  then (Returns text, [])
  else
    let original_full_text := text in
    let '(text_to_translate, has_separator) :=
      if translate_only_after_separator
      then handle_separator_prefix_translation text custom_separator
      else (text, false) in
    if translate_only_after_separator && negb has_separator
    then (Returns original_full_text, [])
    else
      let text := if has_separator then text_to_translate else text in
      let '(protected_text, placeholders) :=
        if protect_special_text
        then protect_text (text_protector_of g) (pattern_order g) text
        else (text, []) in
      if negb (truthy (strip protected_text))
         || bool_decide (strip protected_text ∈ placeholders.*2)
      then (Returns (if translate_only_after_separator && has_separator
                     then original_full_text else text), [])
      else
        let user_message := build_user_message protected_text in
        match generate_content g user_message with
        | ApiRaises | ApiNoText => (Raises, [user_message])
        | ApiText response_text =>
            let translated_text := clean_translation_result response_text in
            let translated_text :=
              if protect_special_text
                 && match placeholders with [] => false | _ => true end
              then restore_text translated_text placeholders
              else translated_text in
            let translated_text :=
              if translate_only_after_separator && has_separator
              then restore_separator_prefix_translation original_full_text
                     translated_text custom_separator
              else translated_text in
            (Returns translated_text, [user_message])
        end.

(** ** translation_manager.py: TranslationEngine *)

(** A backend of the chain: called with a text and the two language codes,
    it returns a text or raises. *)
Definition backend : Type := str -> str -> str -> outcome.

(** [text.split()]: the maximal runs of characters that are not white
    space. *)
Fixpoint words_go (fuel : nat) (cur : str) (s : str) : list str :=
  let flush := match cur with [] => [] | _ :: _ => [reverse cur] end in
  match fuel with
  | O => flush
  | S fuel' =>
      match s with
      | [] => flush
      | c :: s' =>
          match space_prefix unicode_spaces s with
          | Some n => flush ++ words_go fuel' [] (drop n s)
          | None => words_go fuel' (c :: cur) s'
          end
      end
  end.

Definition py_words (s : str) : list str := words_go (length s) [] s.

Definition basic_dict : list ((str * str) * list (str * str)) :=
  [ ((py "en", py "th"),
     [ (py "hello", py "สวัสดี"); (py "world", py "โลก"); (py "the", []);
       (py "a", []); (py "an", []); (py "and", py "และ"); (py "or", py "หรือ");
       (py "yes", py "ใช่"); (py "no", py "ไม่"); (py "good", py "ดี");
       (py "bad", py "แย่"); (py "big", py "ใหญ่"); (py "small", py "เล็ก");
       (py "new", py "ใหม่"); (py "old", py "เก่า"); (py "hot", py "ร้อน");
       (py "cold", py "เย็น"); (py "water", py "น้ำ"); (py "fire", py "ไฟ");
       (py "earth", py "โลก"); (py "air", py "อากาศ") ]);
    ((py "th", py "en"),
     [ (py "สวัสดี", py "hello"); (py "โลก", py "world"); (py "และ", py "and");
       (py "หรือ", py "or"); (py "ใช่", py "yes"); (py "ไม่", py "no");
       (py "ดี", py "good"); (py "แย่", py "bad"); (py "ใหญ่", py "big");
       (py "เล็ก", py "small"); (py "ใหม่", py "new"); (py "เก่า", py "old");
       (py "ร้อน", py "hot"); (py "เย็น", py "cold"); (py "น้ำ", py "water");
       (py "ไฟ", py "fire"); (py "อากาศ", py "air") ]) ].

(** [_simple_translate]: the built-in word list.  It never raises. *)
Definition simple_translate : backend := fun text source_lang target_lang =>
  let fallback :=
    py "[ต้องติดตั้ง translation library เพื่อแปลจาก " ++ source_lang
    ++ py " เป็น " ++ target_lang ++ py "]: " ++ text in
  match List.find (fun e => bool_decide (e.1 = (source_lang, target_lang)))
          basic_dict with
  | Some (_, word_list) =>
      let translated_words :=
        flat_map (fun word =>
                    match dict_get word_list word with
                    | Some translated =>
                        if truthy translated then [translated] else []
                    | None => [word]
                    end)
          (py_words (lower <$> text)) in
      match translated_words with
      | [] => Returns fallback
      | _ :: _ => Returns (py_join (py " ") translated_words)
      end
  | None => Returns fallback
  end.

(** An entry of [self.engines]: the bound method [_try_gemini], or one of
    the other backends. *)
Inductive engine :=
  | TryGemini
  | Plain (call : backend).

Record translation_engine := TranslationEngine {
  gemini_translator_of : option gemini_translator;
  engines : list engine
}.

(** [TranslationEngine.__init__]: Gemini first when an API key is set
    ([gemini] is then what [_initialize_gemini] left in
    [self.gemini_translator]), then the three library backends and the
    built-in word list. *)
Definition translation_engine_init (gemini_api_key : bool)
    (gemini : option gemini_translator)
    (googletrans deep_translator google_api : backend) : translation_engine :=
  TranslationEngine (if gemini_api_key then gemini else None)
    ((if gemini_api_key then [TryGemini] else [])
     ++ [Plain googletrans; Plain deep_translator; Plain google_api;
         Plain simple_translate]).

(** [_try_gemini]. *)
Definition try_gemini (te : translation_engine) (text : str)
    (translate_only_after_separator : bool) (custom_separator : str)
  : outcome * list str :=
  match gemini_translator_of te with
  | None => (Raises, [])
  | Some g =>
      translate_text g text true translate_only_after_separator
        custom_separator
  end.

(** The body of the [try] for an engine other than Gemini.  The test
    [custom_separator in text] and the [text.find(custom_separator)] after
    it are one search here. *)
Definition try_plain (call : backend) (text source_lang target_lang : str)
    (translate_only_after_separator : bool) (custom_separator : str)
  : outcome * list str :=
  match (if translate_only_after_separator
         then find_from custom_separator text 0 else None) with
  | Some separator_index =>
      let cut := (separator_index + length custom_separator)%nat in
      let prefix := take cut text in
      let suffix := strip (drop cut text) in
      if truthy suffix then
        match call suffix source_lang target_lang with
        | Raises => (Raises, [suffix])
        | Returns translated_suffix =>
            if truthy translated_suffix
               && negb (str_eqb translated_suffix suffix)
            then
              if negb (endswith (py " ") prefix)
              then (Returns (strip (prefix ++ py " " ++ translated_suffix)),
                    [suffix])
              else (Returns (strip (prefix ++ translated_suffix)), [suffix])
            else (Returns text, [suffix])
        end
      else (Returns text, [])
  | None => (call text source_lang target_lang, [text])
  end.

Definition try_engine (te : translation_engine) (e : engine)
    (text source_lang target_lang : str)
    (translate_only_after_separator : bool) (custom_separator : str)
  : outcome * list str :=
  match e with
  | TryGemini =>
      try_gemini te text translate_only_after_separator custom_separator
  | Plain call =>
      try_plain call text source_lang target_lang
        translate_only_after_separator custom_separator
  end.

(** The loop over [self.engines]: the text returned and everything that was
    sent to a backend on the way. *)
Fixpoint translate_loop (te : translation_engine) (todo : list engine)
    (text source_lang target_lang : str)
    (translate_only_after_separator : bool) (custom_separator : str)
  : str * list str :=
  match todo with
  | [] => (text, [])
  | e :: todo' =>
      let '(res, sent) :=
        try_engine te e text source_lang target_lang
          translate_only_after_separator custom_separator in
      let continue :=
        let '(final, sent') :=
          translate_loop te todo' text source_lang target_lang
            translate_only_after_separator custom_separator in
        (final, sent ++ sent') in
      match res with
      | Returns result =>
          if truthy result && negb (str_eqb result text) then (result, sent)
          else continue
      | Raises => continue
      end
  end.

(** [TranslationEngine.translate]. *)
Definition translate (te : translation_engine)
    (text source_lang target_lang : str)
    (translate_only_after_separator : bool) (custom_separator : str)
  : str * list str :=
  if negb (truthy text) || negb (truthy (strip text)) then (text, [])
  else translate_loop te (engines te) text source_lang target_lang
         translate_only_after_separator custom_separator.

(** A backend that is not installed. *)
Definition not_installed : backend := fun _ _ _ => Raises.

(** The chain of a machine without API key and without any translation
    library: only the built-in word list answers. *)
Definition offline : translation_engine :=
  translation_engine_init false None not_installed not_installed not_installed.

(** ** Paths, sorting and I/O for text_splitter.py *)

Definition slash : ascii := "/"%char.

(** Index of the last occurrence of a character. *)
Fixpoint rfind_char (c : ascii) (s : str) : option nat :=
  match s with
  | [] => None
  | x :: s' =>
      match rfind_char c s' with
      | Some i => Some (S i)
      | None => if bool_decide (x = c) then Some 0%nat else None
      end
  end.

(** [os.path.basename] and [os.path.dirname] (POSIX). *)
Definition os_path_basename (p : str) : str :=
  match rfind_char slash p with
  | Some i => drop (S i) p
  | None => p
  end.

Definition os_path_dirname (p : str) : str :=
  match rfind_char slash p with
  | Some O => [slash]
  | Some i => take i p
  | None => []
  end.

(** [os.path.join(a, b)]. *)
Definition os_path_join (a b : str) : str :=
  if startswith [slash] b then b
  else if negb (truthy a) || endswith [slash] a then a ++ b
  else a ++ [slash] ++ b.

(** [Path(p).parent], [Path(p).stem] and [d / name] of pathlib, on paths in
    the normal form pathlib keeps them in. *)
Definition path_parent (p : str) : str :=
  match os_path_dirname p with
  | [] => py "."
  | d => d
  end.

Definition path_stem (p : str) : str :=
  let name := os_path_basename p in
  match rfind_char "."%char name with
  | Some i =>
      if ((0 <? i) && (i <? length name - 1))%nat then take i name else name
  | None => name
  end.

Definition path_div (d name : str) : str :=
  if bool_decide (d = py ".") then name else os_path_join d name.

(** The order of [sorted] on strings: lexicographic on code points, which
    on UTF-8 is lexicographic on bytes. *)
Fixpoint str_leb (a b : str) : bool :=
  match a, b with
  | [], _ => true
  | _ :: _, [] => false
  | x :: a', y :: b' =>
      if (nat_of_ascii x <? nat_of_ascii y)%nat then true
      else if (nat_of_ascii y <? nat_of_ascii x)%nat then false
      else str_leb a' b'
  end.

Definition str_le (a b : str) : Prop := str_leb a b = true.

Global Instance str_le_dec (a b : str) : Decision (str_le a b).
Proof. unfold str_le. apply _. Defined.

Definition py_sorted (l : list str) : list str := merge_sort str_le l.

(** The state of the outside world during a call: the file system, and how
    many output operations (opening a file for writing, writing to it) still
    succeed before one raises; [None] when none raises. *)
Record io_state := IO {
  disk : world;
  budget : option nat
}.

Definition set_files (f : gmap str str) (w : world) : world :=
  World f (dirs w) (unreadable w).

Definition add_dir (d : str) (w : world) : world :=
  World (files w) ({[d]} ∪ dirs w) (unreadable w).

(** One output operation: [None] when it raises. *)
Definition spend (s : io_state) : option io_state :=
  match budget s with
  | Some O => None
  | Some (S n) => Some (IO (disk s) (Some n))
  | None => Some s
  end.

(** [open(path, 'w')]: the file is created or emptied. *)
Definition open_write (s : io_state) (path : str) : option io_state :=
  match spend s with
  | Some s' =>
      if path_isdir (disk s') path then None
      else Some (IO (set_files (<[path := []]> (files (disk s'))) (disk s'))
                   (budget s'))
  | None => None
  end.

(** [outfile.write(data)] on the file opened at [path]. *)
Definition write_text (s : io_state) (path data : str) : option io_state :=
  match spend s with
  | Some s' =>
      let old := default [] (files (disk s') !! path) in
      Some (IO (set_files (<[path := old ++ data]> (files (disk s'))) (disk s'))
              (budget s'))
  | None => None
  end.

(** [open(path, 'r')] and reading: the content, or [None] when opening
    raises (a directory, a file that may not be read). *)
Definition open_read (w : world) (path : str) : option str :=
  if bool_decide (path ∈ unreadable w) then None else files w !! path.

(** [Path.mkdir(exist_ok=True)]: [None] when a regular file is in the way
    ([FileExistsError]). *)
Definition mkdir_exist_ok (w : world) (d : str) : option world :=
  if path_isdir w d then Some w
  else if path_isfile w d then None
  else Some (add_dir d w).

(** ** text_splitter.py *)

Inductive exn := FileNotFoundError | FileExistsError.

Inductive result (A : Type) :=
  | Raise (e : exn)
  | Return (v : A).
Arguments Raise {A} e.
Arguments Return {A} v.

(** What [split_text_file] returns: the bare [[]] of the [except] branch,
    or the pair of the list of output files and the folder. *)
Inductive split_result :=
  | SplitFailed
  | SplitOk (output_files : list str) (folder : option str).


Record loop_state := LoopState {
  file_number : nat;
  current_lines : nat;
  outfile : option str;
  output_files : list str
}.

Definition part_name (output_prefix : str) (file_number : nat) : str :=
  output_prefix ++ py "_part_" ++ format_03d file_number ++ py ".txt".

(** The [for line in infile] loop; [None] when an exception left it, with
    the world as it was at that moment. *)
Fixpoint split_loop (output_prefix output_dir : str) (lines_per_file : Z)
    (todo : list str) (st : loop_state) (s : io_state)
  : option loop_state * io_state :=
  match todo with
  | [] => (Some st, s)
  | line :: todo' =>
      let opened :=
        if (current_lines st =? 0)%nat then
          let output_path :=
            path_div output_dir (part_name output_prefix (file_number st)) in
          (* the path joins [output_files] before the file is opened; an
             exception then discards the list *)
          match open_write s output_path with
          | Some s1 =>
              Some (LoopState (file_number st) (current_lines st)
                      (Some output_path) (output_files st ++ [output_path]),
                    s1)
          | None => None
          end
        else Some (st, s) in
      match opened with
      | None => (None, s)
      | Some (st1, s1) =>
          match outfile st1 with
          | None => (None, s1)
          | Some handle =>
              match write_text s1 handle line with
              | None => (None, s1)
              | Some s2 =>
                  let count := S (current_lines st1) in
                  let st2 :=
                    if Z.of_nat count >=? lines_per_file
                    then LoopState (S (file_number st1)) 0 (outfile st1)
                           (output_files st1)
                    else LoopState (file_number st1) count (outfile st1)
                           (output_files st1) in
                  split_loop output_prefix output_dir lines_per_file todo'
                    st2 s2
              end
          end
      end
  end.

Definition split_folder (input_file output_prefix timestamp : str) : str :=
  path_div (path_parent input_file) (output_prefix ++ py "_split_" ++ timestamp).

(** [split_text_file]; [timestamp] is what the clock gives for
    [datetime.now().strftime("%Y%m%d_%H%M%S")].  The lines are those the
    input holds when it is opened. *)
Definition split_text_file (timestamp : str) (s : io_state) (input_file : str)
    (lines_per_file : Z) (output_prefix : option str) (create_folder : bool)
  : result split_result * io_state :=
  if negb (path_exists (disk s) input_file) then (Raise FileNotFoundError, s)
  else
    let output_prefix := default (path_stem input_file) output_prefix in
    let folder := split_folder input_file output_prefix timestamp in
    match (if create_folder then mkdir_exist_ok (disk s) folder
           else Some (disk s)) with
    | None => (Raise FileExistsError, s)
    | Some w1 =>
        let output_dir :=
          if create_folder then folder else path_parent input_file in
        let s1 := IO w1 (budget s) in
        match open_read w1 input_file with
        | None => (Return SplitFailed, s1)
        | Some content =>
            match split_loop output_prefix output_dir lines_per_file
                    (readlines content) (LoopState 1 0 None []) s1 with
            | (None, s2) => (Return SplitFailed, s2)
            | (Some st, s2) =>
                (Return (SplitOk (output_files st)
                           (if create_folder then Some output_dir else None)),
                 s2)
            end
        end
    end.

(** The body of [with open(output_file, 'w')] in [merge_text_files]: every
    file is read whole and written to the output.  [false] when an
    exception left the loop, with the world as it was at that moment. *)
Fixpoint merge_loop (output_file : str) (todo : list str) (s : io_state)
  : bool * io_state :=
  match todo with
  | [] => (true, s)
  | file_path :: todo' =>
      match open_read (disk s) file_path with
      | None => (false, s)
      | Some content =>
          match write_text s output_file content with
          | None => (false, s)
          | Some s1 => merge_loop output_file todo' s1
          end
      end
  end.

(** The name used when no output file is given. *)
Definition default_merged_name (file_pattern : str) : str :=
  py_replace (py "*") (py "merged")
    (py_replace (py "_part_*.txt") [] file_pattern)
  ++ py "_merged.txt".

(** The name used inside [output_file] when that is a directory. *)
Definition merged_name_in_dir (file_pattern : str) : str :=
  py_replace (py ".txt") []
    (py_replace (py "*") (py "merged") (os_path_basename file_pattern))
  ++ py "_merged.txt".

(** Where [merge_text_files] writes. *)
Definition merge_output_path (w : world) (file_pattern : str)
    (output_file : option str) : str :=
  let output_file := default (default_merged_name file_pattern) output_file in
  if path_isdir w output_file
  then os_path_join output_file (merged_name_in_dir file_pattern)
  else output_file.

(** [merge_text_files]; [glob] is [glob.glob] of the standard library seen
    as a function of the file system.  The value is the output path, or
    [None] for the [return None] of the [except] branch. *)
Definition merge_text_files (glob : world -> str -> list str) (s : io_state)
    (file_pattern : str) (output_file source_folder : option str)
  : result (option str) * io_state :=
  let search_pattern :=
    match source_folder with
    | Some folder =>
        if truthy folder then os_path_join folder file_pattern
        else file_pattern
    | None => file_pattern
    end in
  let found := py_sorted (glob (disk s) search_pattern) in
  match found with
  | [] => (Raise FileNotFoundError, s)
  | _ :: _ =>
      let output_file := merge_output_path (disk s) file_pattern output_file in
      let output_dir :=
        match os_path_dirname output_file with
        | [] => py "."
        | d => d
        end in
      let w1 :=
        if negb (path_exists (disk s) output_dir)
        then add_dir output_dir (disk s) else disk s in
      let s1 := IO w1 (budget s) in
      match open_write s1 output_file with
      | None => (Return None, s1)
      | Some s2 =>
          match merge_loop output_file found s2 with
          | (false, s3) => (Return None, s3)
          | (true, s3) => (Return (Some output_file), s3)
          end
      end
  end.

(** A stand-in for [glob.glob] that knows [*] and [?] in the last component
    of the pattern: the paths of the world in the directory of the pattern
    whose name matches. *)
Fixpoint wildcard (pattern : str) : str -> bool :=
  match pattern with
  | [] => fun name => negb (truthy name)
  | c :: pattern' =>
      if bool_decide (c = "*"%char) then
        fix any_tail (name : str) : bool :=
          wildcard pattern' name
          || match name with
             | [] => false
             | _ :: name' => any_tail name'
             end
      else fun name =>
        match name with
        | [] => false
        | x :: name' =>
            (bool_decide (c = "?"%char) || bool_decide (c = x))
            && wildcard pattern' name'
        end
  end.

Definition star_glob (w : world) (pattern : str) : list str :=
  filter (fun p =>
            bool_decide (os_path_dirname p = os_path_dirname pattern)
            && wildcard (os_path_basename pattern) (os_path_basename p))
    (elements (dom (files w) ∪ dirs w)).

(** A world that holds one readable file. *)
Definition one_file (path content : str) : world :=
  World {[path := content]} ∅ ∅.

(** The text of the lines ["1"], ["2"], ... up to [n]. *)
Definition numbered_lines (n : nat) : str :=
  flat_map (fun i => str_of_nat i ++ [newline]) (seq 1 n).

(** ** Vocabulary of the properties *)




(** The placeholder made for the [n]-th match of a call. *)
Definition token (tp : text_protector) (n : nat) : str :=
  placeholder_prefix tp ++ str_of_nat n ++ placeholder_suffix tp.

(** The text [re.sub] runs over, cut the way it was matched: characters
    that are kept, and matches that are swapped for a placeholder. *)
Inductive piece :=
  | Keep (c : ascii)
  | Swap (matched : str).

Fixpoint source (items : list piece) : str :=
  match items with
  | [] => []
  | Keep c :: items' => c :: source items'
  | Swap m :: items' => m ++ source items'
  end.

(** The same text with the matches replaced by the placeholders after the
    [counter]-th. *)
Fixpoint rendered (tp : text_protector) (counter : nat) (items : list piece)
  : str :=
  match items with
  | [] => []
  | Keep c :: items' => c :: rendered tp counter items'
  | Swap m :: items' => token tp (S counter) ++ rendered tp (S counter) items'
  end.

(** The entries these placeholders add to the dict. *)
Fixpoint entries (tp : text_protector) (counter : nat) (items : list piece)
  : list (str * str) :=
  match items with
  | [] => []
  | Keep c :: items' => entries tp counter items'
  | Swap m :: items' =>
      (token tp (S counter), m) :: entries tp (S counter) items'
  end.

(** The tokens are those of [TextProtector.__init__]. *)
Definition standard_tokens (tp : text_protector) : Prop :=
  placeholder_prefix tp = py "§PROTECTED_" /\ placeholder_suffix tp = py "§".

(** The keys of the dict are the tokens made so far, in order. *)
Definition keys_in_order (tp : text_protector) (st : protect_state) : Prop :=
  (placeholders st).*1 = token tp <$> seq 1 (placeholder_counter st).

(** The two ends of a token and the word inside it. *)
Definition section_sign : str := py "§".
Definition sign_byte : ascii := ascii_of_nat 194.
Definition token_body : str := py "PROTECTED_".

(** The path of the [k]-th part and the lines the [j]-th part (from 0)
    receives when [n] lines go to a part. *)
Definition part_path (output_dir output_prefix : str) (k : nat) : str :=
  path_div output_dir (part_name output_prefix k).



(** A line as iterating over a file gives it: ended by its only newline,
    or, for the last line of a file without final newline, not ended. *)
Definition terminated (l : str) : Prop :=
  exists body, l = body ++ [newline] /\ newline ∉ body.

Definition unterminated (l : str) : Prop := l <> [] /\ newline ∉ l.

Inductive lines_ok : list str -> Prop :=
  | lines_ok_nil : lines_ok []
  | lines_ok_last (l : str) : unterminated l -> lines_ok [l]
  | lines_ok_cons (l : str) (ls : list str) :
      terminated l -> lines_ok ls -> lines_ok (l :: ls).



(** ** Worlds and translators of the examples *)



(** Two parts of [doc] next to a directory [out]. *)
Definition doc_parts : world :=
  World {[ py "doc_part_001.txt" := numbered_lines 2;
           py "doc_part_002.txt" := numbered_lines 3 ]}
    {[ py "out" ]} ∅.

(** A file of a thousand lines, split one line per part into a new folder,
    and the parts merged again from that folder. *)
Definition thousand_parts : io_state :=
  (split_text_file (py "20240101_120000")
     (IO (one_file (py "big.txt") (numbered_lines 1000)) None)
     (py "big.txt") 1 None true).2.

Definition thousand_merged : result (option str) * io_state :=
  merge_text_files star_glob thousand_parts (py "big_part_*.txt")
    (Some (py "merged.txt")) (Some (py "big_split_20240101_120000")).

(** ** utils.py: texts and file names *)

(** [truncate_text] counts characters, so its text is the list of the code
    points of the string; ["..."] is three times the code point 46. *)
Definition ellipsis : list N := [46; 46; 46]%N.

Definition truncate_text (text : list N) (max_length : Z) : list N :=
  if Z.of_nat (length text) <=? max_length then text
  else py_slice text 0 (max_length - 3) ++ ellipsis.

(** The characters [sanitize_filename] does not allow: [<>:], the double
    quote and [/\|?*]. *)
Definition invalid_chars : str :=
  py "<>:" ++ [ascii_of_nat 34] ++ py "/\|?*".

Definition sanitize_filename (filename : str) : str :=
  let filename :=
    foldl (fun name char => py_replace [char] (py "_") name)
      filename invalid_chars in
  let filename := strip filename in
  if negb (truthy filename) then py "untitled" else filename.

(** [os.path.splitext] (POSIX): the extension starts at the last dot of the
    last component, unless only dots come before it there. *)
Definition os_path_splitext (p : str) : str * str :=
  let filenameIndex :=
    match rfind_char slash p with
    | Some sepIndex => S sepIndex
    | None => 0%nat
    end in
  match rfind_char "."%char p with
  | Some extIndex =>
      if (filenameIndex <=? extIndex)%nat
         && existsb (fun c => negb (bool_decide (c = "."%char)))
              (take (extIndex - filenameIndex) (drop filenameIndex p))
      then (take extIndex p, drop extIndex p)
      else (p, [])
  | None => (p, [])
  end.

(** The candidate [f"{base}_{counter}{ext}"]. *)
Definition numbered_path (base ext : str) (counter : nat) : str :=
  base ++ py "_" ++ str_of_nat counter ++ ext.

(** The [while True] loop of [get_unique_filename]; [fuel] bounds the
    number of candidates tried. *)
Fixpoint unique_filename_loop (w : world) (base ext : str) (fuel : nat)
    (counter : nat) : option str :=
  match fuel with
  | O => None
  | S fuel' =>
      let new_path := numbered_path base ext counter in
      if negb (path_exists w new_path) then Some new_path
      else unique_filename_loop w base ext fuel' (S counter)
  end.

Definition get_unique_filename (fuel : nat) (w : world) (file_path : str)
  : option str :=
  if negb (path_exists w file_path) then Some file_path
  else
    let '(base, ext) := os_path_splitext file_path in
    unique_filename_loop w base ext fuel 1.

(** ** utils.py: reading and writing lines *)

Definition count_lines_in_file (w : world) (file_path : str) : Z :=
  if negb (path_exists w file_path) then 0
  else match open_read w file_path with
       | Some content => Z.of_nat (length (readlines content))
       | None => 0
       end.

(** The loop of [read_file_lines] for a given [max_lines]: [i] is the index
    [enumerate] gives to the next line, [lines] what has been read. *)
Fixpoint read_lines_loop (max_lines : Z) (todo : list str) (i : Z)
    (lines : list str) : list str :=
  match todo with
  | [] => lines
  | line :: todo' =>
      if i >=? max_lines then lines
      else read_lines_loop max_lines todo' (i + 1) (lines ++ [line])
  end.

(** [read_file_lines(file_path, max_lines)] with [max_lines] given or
    [None]. *)
Definition read_file_lines_max (w : world) (file_path : str)
    (max_lines : option Z) : list str :=
  if negb (path_exists w file_path) then []
  else match open_read w file_path with
       | Some content =>
           match max_lines with
           | None => readlines content
           | Some max_lines => read_lines_loop max_lines (readlines content) 0 []
           end
       | None => []
       end.

(** [os.makedirs(d, exist_ok=True)]: the empty path raises
    [FileNotFoundError], a regular file in the way raises [FileExistsError];
    an existing directory is left alone; making a new one is an output
    operation. *)
Definition makedirs_exist_ok (s : io_state) (d : str) : option io_state :=
  if negb (truthy d) then None
  else if path_isdir (disk s) d then Some s
  else if path_isfile (disk s) d then None
  else match spend s with
       | Some s' => Some (IO (add_dir d (disk s')) (budget s'))
       | None => None
       end.

(** [f.writelines(lines)]: [false] when a write raised, with the world as
    it was at that moment. *)
Fixpoint writelines (s : io_state) (path : str) (lines : list str)
  : bool * io_state :=
  match lines with
  | [] => (true, s)
  | line :: lines' =>
      match write_text s path line with
      | Some s1 => writelines s1 path lines'
      | None => (false, s)
      end
  end.

Definition write_file_lines (s : io_state) (file_path : str)
    (lines : list str) : bool * io_state :=
  match makedirs_exist_ok s (os_path_dirname file_path) with
  | None => (false, s)
  | Some s1 =>
      match open_write s1 file_path with
      | None => (false, s1)
      | Some s2 => writelines s2 file_path lines
      end
  end.

(** [shutil.copy2(src, dst)]: into the directory [dst] when it is one; a
    file is not copied onto itself.  [false] when it raised. *)
Definition shutil_copy2 (s : io_state) (src dst : str) : bool * io_state :=
  let dst :=
    if path_isdir (disk s) dst then os_path_join dst (os_path_basename src)
    else dst in
  if bool_decide (src = dst) then (false, s)
  else match open_read (disk s) src with
       | None => (false, s)
       | Some content =>
           match open_write s dst with
           | None => (false, s)
           | Some s1 =>
               match write_text s1 dst content with
               | Some s2 => (true, s2)
               | None => (false, s1)
               end
           end
       end.

(** [create_backup_file]; [timestamp] is what the clock gives for
    [datetime.now().strftime("%Y%m%d_%H%M%S")]. *)
Definition create_backup_file (timestamp : str) (s : io_state)
    (file_path : str) : option str * io_state :=
  if negb (validate_file_path (disk s) file_path) then (None, s)
  else
    let backup_path := file_path ++ py ".backup_" ++ timestamp in
    match shutil_copy2 s file_path backup_path with
    | (true, s1) => (Some backup_path, s1)
    | (false, s1) => (None, s1)
    end.

(** ** translation_manager.py: counting and saving *)

Definition get_line_count (d : translation_data) : Z :=
  Z.of_nat (length (lines d)).

Definition get_translated_count (d : translation_data) : Z :=
  Z.of_nat (length (filter (fun l => is_translated l) (lines d))).

Definition get_skipped_count (d : translation_data) : Z :=
  Z.of_nat (length (filter (fun l => skip_translation l) (lines d))).

(** The test of the comprehension in [get_lines_to_translate]. *)
Definition to_translate (l : translation_line) : bool :=
  negb (skip_translation l) && negb (is_translated l)
  && truthy (strip (original l)).

Definition get_lines_to_translate (d : translation_data) : list Z :=
  (fun il => Z.of_nat il.1)
    <$> filter (fun il => to_translate il.2) (imap pair (lines d)).

(** The text [save_to_file] writes for an entry, and the line made of
    it. *)
Definition saved_text (l : translation_line) : str :=
  if is_translated l && truthy (strip (translated l))
  then translated l else original l.

Definition output_line (l : translation_line) : str :=
  saved_text l ++ [newline].

(** [file_path or self.file_path]. *)
Definition save_target (path : option str) (d : translation_data)
  : option str :=
  match path with
  | Some p => if truthy p then Some p else file_path d
  | None => file_path d
  end.

(** [save_to_file(file_path)]; the backup made when the data goes back to
    the file it came from is stamped with [timestamp]. *)
Definition save_to_file (timestamp : str) (s : io_state)
    (path : option str) (d : translation_data) : bool * io_state :=
  match save_target path d with
  | None => (false, s)
  | Some target_file =>
      if negb (truthy target_file) then (false, s)
      else
        let s1 :=
          if bool_decide (Some target_file = file_path d)
          then (create_backup_file timestamp s target_file).2 else s in
        write_file_lines s1 target_file (output_line <$> lines d)
  end.

(** A text that is one line of a file: no newline in it and no line end
    left at its end. *)
Definition single_line (t : str) : Prop :=
  (newline ∉ t) /\ rstrip_chars [newline; carriage_return] t = t.

(** A text without line ends of either kind.  Reading in text mode turns
    a carriage return into a newline, so only such texts are read back as
    they were written. *)
Definition plain_line (t : str) : Prop :=
  (newline ∉ t) /\ carriage_return ∉ t.

(** The status that agrees with the two flags of a line. *)
Definition status_of_flags (l : translation_line) : line_status :=
  if skip_translation l then skipped
  else if is_translated l then completed else pending.

(** What the operations keep true of the status: it agrees with the flags,
    or the line is skipped and its status is the one [translate_line]
    gave it. *)
Definition status_sound (l : translation_line) : Prop :=
  status l = status_of_flags l
  \/ (skip_translation l = true
      /\ status l = if is_translated l then completed else pending).

(** The same line with the status of its flags. *)
Definition with_status_of_flags (l : translation_line) : translation_line :=
  TranslationLine (line_number l) (original l) (translated l)
    (is_translated l) (status_of_flags l) (skip_translation l).

(** The entry [load_from_file] makes of line [i] (from 0) with text
    [original]. *)
Definition fresh_line (i : nat) (original : str) : translation_line :=
  TranslationLine (Z.of_nat i + 1) original [] false pending false.

(** ** translation_manager.py: the notice of the built-in word list *)


(** ** Texts as bytes *)

(** The text starts at a character: its first byte is not one of the
    bytes that continue a character of UTF-8.  Every Python string does. *)
Definition starts_character (s : str) : Prop :=
  match s with
  | [] => True
  | c :: _ => (nat_of_ascii c < 128 \/ 192 <= nat_of_ascii c)%nat
  end.

(** ** ai_translator.py: the answer of the model, cleaned *)

(** The answer without the two kinds of code-fence markers
    [_clean_translation_result] deletes, stripped. *)
Definition without_fences (result : str) : str :=
  strip
    (delete_matches (Seq (Lit newline) (lits (py "```")))
       (delete_matches
          (seqs [lits (py "```"); Repeat true 0 None Dot; Lit newline])
          result)).

(** The lines [_clean_translation_result] keeps of it. *)
Definition kept_lines (result : str) : list str :=
  filter (fun line => negb (is_annotation line) && truthy line)
    (strip <$> py_split newline (without_fences result)).

(** ** ai_translator.py: translating a list of lines *)



(** ** translation_manager.py: the pages of the translation tab *)

(** What the tab keeps about the page it shows: the three [IntVar]s, and
    the entries whose rows are in the tree, in order. *)
Record page_view := PageView {
  lines_per_page : Z;
  current_page : Z;
  total_pages : Z;
  tree : list translation_line
}.

(** The tab before a file is loaded: [DEFAULT_LINES_PER_PAGE] is 10. *)
Definition page_view_init : page_view := PageView 10 1 0 [].

Definition set_current_page (page : Z) (v : page_view) : page_view :=
  PageView (lines_per_page v) page (total_pages v) (tree v).

(** [update_grid_display] for the data [d]. *)
Definition update_grid_display (d : translation_data) (v : page_view)
  : page_view :=
  match lines d with
  | [] => v
  | _ :: _ =>
      let total :=
        (calculate_pagination (Z.of_nat (length (lines d)))
           (lines_per_page v)).1 in
      let current :=
        if (current_page v >? total) && (total >? 0) then total
        else current_page v in
      PageView (lines_per_page v) current total
        (get_page_items (lines d) current (lines_per_page v))
  end.

Definition set_page_size (d : translation_data) (size : Z) (v : page_view)
  : page_view :=
  update_grid_display d
    (PageView size (current_page v) (total_pages v) (tree v)).

Definition goto_first_page (d : translation_data) (v : page_view)
  : page_view :=
  update_grid_display d (set_current_page 1 v).

Definition goto_last_page (d : translation_data) (v : page_view)
  : page_view :=
  if total_pages v >? 0
  then update_grid_display d (set_current_page (total_pages v) v) else v.

Definition goto_prev_page (d : translation_data) (v : page_view)
  : page_view :=
  if current_page v >? 1
  then update_grid_display d (set_current_page (current_page v - 1) v)
  else v.

Definition goto_next_page (d : translation_data) (v : page_view)
  : page_view :=
  if current_page v <? total_pages v
  then update_grid_display d (set_current_page (current_page v + 1) v)
  else v.

(** [jump_to_page]; [entry] is what [int] makes of the text typed, [None]
    when it raises [ValueError]. *)
Definition jump_to_page (d : translation_data) (entry : option Z)
    (v : page_view) : page_view :=
  match entry with
  | Some page =>
      if (1 <=? page) && (page <=? total_pages v)
      then update_grid_display d (set_current_page page v) else v
  | None => v
  end.

(** The buttons of the page bar. *)
Inductive page_op :=
  | GotoFirst
  | GotoLast
  | GotoPrev
  | GotoNext
  | JumpTo (entry : option Z)
  | SetPageSize (size : Z).

Definition run_page_op (d : translation_data) (v : page_view) (o : page_op)
  : page_view :=
  match o with
  | GotoFirst => goto_first_page d v
  | GotoLast => goto_last_page d v
  | GotoPrev => goto_prev_page d v
  | GotoNext => goto_next_page d v
  | JumpTo entry => jump_to_page d entry v
  | SetPageSize size => set_page_size d size v
  end.

(** The page sizes a sequence of operations asks for are positive. *)
Definition positive_sizes (ops : list page_op) : Prop :=
  Forall (fun o => match o with SetPageSize size => 0 < size | _ => True end)
    ops.

(** The page shown is a page of the data. *)
Definition shows_a_page (d : translation_data) (v : page_view) : Prop :=
  0 < lines_per_page v
  /\ total_pages v
     = (calculate_pagination (Z.of_nat (length (lines d)))
          (lines_per_page v)).1
  /\ 1 <= current_page v <= total_pages v
  /\ tree v = get_page_items (lines d) (current_page v) (lines_per_page v)
  /\ tree v <> [].

(** ** translation_manager.py: the lines of the current page *)

(** [l[i]] of Python: a negative index counts from the end; [None] is
    [IndexError]. *)
Definition py_index {A} (l : list A) (i : Z) : option A :=
  let n := Z.of_nat (length l) in
  if 0 <=? i then l !! Z.to_nat i
  else if - n <=? i then l !! Z.to_nat (n + i) else None.

(** [start_index] and [end_index] of the current page. *)
Definition page_bounds (d : translation_data) (v : page_view) : Z * Z :=
  let start_index := (current_page v - 1) * lines_per_page v in
  (start_index,
   Z.min (start_index + lines_per_page v) (Z.of_nat (length (lines d)))).

(** What a button of the tab does in the end: an exception leaves it, it
    starts no translation, or it hands lines to [_translate_lines_batch]. *)
Inductive page_action :=
  | PageRaises
  | NoBatch
  | Batch (line_indices : list Z).

(** The loop of [translate_current_page] over the lines of the page. *)
Fixpoint page_selection_loop (ls : list translation_line) (todo : list Z)
    (lines_to_translate : list Z) (skipped_lines : Z)
  : option (list Z * Z) :=
  match todo with
  | [] => Some (lines_to_translate, skipped_lines)
  | i :: todo' =>
      match py_index ls i with
      | None => None
      | Some line_data =>
          if skip_translation line_data
          then page_selection_loop ls todo' lines_to_translate
                 (skipped_lines + 1)
          else if negb (is_translated line_data)
                  && truthy (strip (original line_data))
          then page_selection_loop ls todo' (lines_to_translate ++ [i])
                 skipped_lines
          else page_selection_loop ls todo' lines_to_translate skipped_lines
      end
  end.

(** [translate_current_page]; [confirmed] is the answer to the question it
    asks before it starts. *)
Definition translate_current_page (d : translation_data) (v : page_view)
    (confirmed : bool) : page_action :=
  match lines d with
  | [] => NoBatch
  | _ :: _ =>
      let '(start_index, end_index) := page_bounds d v in
      match page_selection_loop (lines d) (py_range start_index end_index)
              [] 0 with
      | None => PageRaises
      | Some (lines_to_translate, _) =>
          match lines_to_translate with
          | [] => NoBatch
          | _ :: _ => if confirmed then Batch lines_to_translate else NoBatch
          end
      end
  end.

(** [translate_all_file]. *)
Definition translate_all_file (d : translation_data) (confirmed : bool)
  : page_action :=
  match lines d with
  | [] => NoBatch
  | _ :: _ =>
      match get_lines_to_translate d with
      | [] => NoBatch
      | lines_to_translate =>
          if confirmed then Batch lines_to_translate else NoBatch
      end
  end.

(** The loops of [skip_current_page] ([target] is [true]) and
    [unskip_current_page] ([target] is [false]): every line of the page
    whose flag is not [target] is toggled.  The count is [None] when
    [IndexError] left the loop. *)
Fixpoint set_skip_loop (target : bool) (todo : list Z)
    (d : translation_data) (changed_count : Z)
  : option Z * translation_data :=
  match todo with
  | [] => (Some changed_count, d)
  | i :: todo' =>
      match py_index (lines d) i with
      | None => (None, d)
      | Some line_data =>
          if bool_decide (skip_translation line_data = target)
          then set_skip_loop target todo' d changed_count
          else set_skip_loop target todo' (toggle_skip_translation i d).2
                 (changed_count + 1)
      end
  end.

(** [skip_current_page] and [unskip_current_page]: the number of lines
    changed and the data; the grid is refreshed when the number is not 0. *)
Definition set_skip_current_page (target : bool) (d : translation_data)
    (v : page_view) : option Z * translation_data * page_view :=
  match lines d with
  | [] => (Some 0, d, v)
  | _ :: _ =>
      let '(start_index, end_index) := page_bounds d v in
      let '(changed_count, d') :=
        set_skip_loop target (py_range start_index end_index) d 0 in
      match changed_count with
      | Some changed_count =>
          (Some changed_count, d',
           if changed_count >? 0 then update_grid_display d' v else v)
      | None => (None, d', v)
      end
  end.

Definition skip_current_page : translation_data -> page_view ->
    option Z * translation_data * page_view :=
  set_skip_current_page true.

Definition unskip_current_page : translation_data -> page_view ->
    option Z * translation_data * page_view :=
  set_skip_current_page false.

(** The place [i] is on the page shown. *)
Definition on_page (d : translation_data) (v : page_view) (i : Z) : bool :=
  ((page_bounds d v).1 <=? i) && (i <? (page_bounds d v).2).

(** The entry with its skip flag set to [target]: as it is when the flag
    is set already, and as toggled otherwise. *)
Definition with_skip (target : bool) (l : translation_line)
  : translation_line :=
  if bool_decide (skip_translation l = target) then l
  else TranslationLine (line_number l) (original l) (translated l)
         (is_translated l)
         (if target then skipped
          else if is_translated l then completed else pending)
         target.

(** The comprehension of [get_lines_to_translate] over entries at the
    places [first], [first + 1], ... *)
Definition lines_to_translate_from (first : nat) (ls : list translation_line)
  : list Z :=
  (fun il => Z.of_nat il.1)
    <$> filter (fun il => to_translate il.2)
          (imap (fun i l => ((first + i)%nat, l)) ls).

(* ===================================================================== *)
(** * Part II: properties                                                  *)
(* ===================================================================== *)

(** ** Pagination (utils.py) *)

Section pagination.
Context {A : Type}.
Implicit Types (items : list A) (p q ipp : Z).

Lemma py_slice_nonneg items (a b : Z) :
  0 <= a -> a <= b ->
  py_slice items a b = take (Z.to_nat (b - a)) (drop (Z.to_nat a) items).
Proof.
  intros Ha Hb. unfold py_slice.
  assert ((a <? 0) = false) as -> by lia.
  assert ((b <? 0) = false) as -> by lia.
  destruct (decide (Z.of_nat (length items) <= a)) as [Hge|Hlt].
  - rewrite !drop_ge by lia. by rewrite !take_nil.
  - replace (Z.to_nat (a `min` Z.of_nat (length items))) with (Z.to_nat a)
      by lia.
    destruct (decide (b <= Z.of_nat (length items))).
    + f_equal. lia.
    + rewrite !take_ge; [done| |]; rewrite length_drop; lia.
Qed.

Lemma get_page_items_window items p ipp :
  0 < p -> 0 < ipp ->
  get_page_items items p ipp
  = take (Z.to_nat ipp) (drop (Z.to_nat (p - 1) * Z.to_nat ipp) items).
Proof.
  intros Hp Hi. unfold get_page_items.
  assert ((p <=? 0) || (ipp <=? 0) = false) as -> by lia.
  rewrite py_slice_nonneg by nia. f_equal; [f_equal; lia|f_equal; nia].
Qed.

Lemma get_page_items_nonpositive items p ipp :
  p <= 0 \/ ipp <= 0 -> get_page_items items p ipp = [].
Proof.
  intros H. unfold get_page_items.
  assert ((p <=? 0) || (ipp <=? 0) = true) as -> by lia. done.
Qed.

Lemma get_page_items_beyond items p ipp :
  0 < ipp -> Z.of_nat (length items) <= (p - 1) * ipp ->
  get_page_items items p ipp = [].
Proof.
  intros Hi Hlen. destruct (decide (p <= 0)).
  - apply get_page_items_nonpositive; auto.
  - rewrite get_page_items_window by lia.
    rewrite drop_ge by nia. apply take_nil.
Qed.

(** Consecutive windows of width [m] tile a prefix of the list. *)
Lemma windows_concat items (m c : nat) :
  concat ((fun k => take m (drop (k * m) items)) <$> seq 0 c)
  = take (c * m) items.
Proof.
  induction c as [|c IH]; [done|].
  rewrite seq_S, fmap_app, concat_app, IH. simpl.
  rewrite app_nil_r, (Nat.add_comm m). apply take_take_drop.
Qed.

Lemma total_pages_ceiling (n ipp : Z) :
  0 <= n -> 0 < ipp ->
  n <= (calculate_pagination n ipp).1 * ipp < n + ipp.
Proof.
  intros Hn Hi. unfold calculate_pagination.
  destruct (decide (n = 0)) as [->|]; [simpl; lia|].
  assert ((n <=? 0) || (ipp <=? 0) = false) as -> by lia. simpl.
  pose proof (Z.div_mod (n + ipp - 1) ipp ltac:(lia)).
  pose proof (Z.mod_pos_bound (n + ipp - 1) ipp Hi). nia.
Qed.

Lemma page_numbers_range (n ipp : Z) :
  (calculate_pagination n ipp).2
  = py_range 1 ((calculate_pagination n ipp).1 + 1).
Proof.
  unfold calculate_pagination.
  destruct ((n <=? 0) || (ipp <=? 0)); done.
Qed.

Lemma elem_of_py_range (a b x : Z) : x ∈ py_range a b <-> a <= x < b.
Proof.
  unfold py_range. rewrite list_elem_of_fmap. split.
  - intros (i & -> & Hi). apply elem_of_seq in Hi. lia.
  - intros H. exists (Z.to_nat (x - a)). split; [lia|].
    apply elem_of_seq. lia.
Qed.

Lemma py_range_1 (t : Z) :
  py_range 1 (t + 1) = (fun k => Z.of_nat (S k)) <$> seq 0 (Z.to_nat t).
Proof.
  unfold py_range. replace (t + 1 - 1) with t by lia.
  apply list_fmap_ext. intros _ k _. lia.
Qed.

Lemma get_page_items_fmap {B} (f : A -> B) items p ipp :
  get_page_items (f <$> items) p ipp = f <$> get_page_items items p ipp.
Proof.
  unfold get_page_items, py_slice.
  destruct ((p <=? 0) || (ipp <=? 0)); [done|].
  by rewrite length_fmap, fmap_take, fmap_drop.
Qed.
End pagination.

Lemma elem_of_page_positions (n : nat) (p ipp : Z) (i : nat) :
  0 < p -> 0 < ipp ->
  i ∈ get_page_items (seq 0 n) p ipp ->
  (p - 1) * ipp <= Z.of_nat i < p * ipp /\ (i < n)%nat.
Proof.
  intros Hp Hi Hin. rewrite get_page_items_window in Hin by done.
  apply list_elem_of_lookup in Hin as [j Hj].
  pose proof (lookup_lt_Some _ _ _ Hj) as Hlt.
  rewrite length_take in Hlt.
  rewrite lookup_take_lt, lookup_drop in Hj by lia.
  apply lookup_seq in Hj as [-> ?]. nia.
Qed.

(** C8.  Pagination partitions the item list.  With [total_items] the number
    of items and a positive page size, [calculate_pagination] returns the
    ceiling of [total_items / items_per_page] and the page numbers
    1..total_pages; the slices [get_page_items] returns for these pages have
    lengths summing to [total_items], laid end to end they are the item list
    again, and two different pages never cover a common position of the
    list.  Outside this range (page or page size non-positive, or page
    beyond the last one) [get_page_items] returns the empty list. *)
Theorem pagination_partition {A} (items : list A)
    (total_items items_per_page : Z) :
  total_items = Z.of_nat (length items) ->
  0 < items_per_page ->
  let total_pages := (calculate_pagination total_items items_per_page).1 in
  let page_numbers := (calculate_pagination total_items items_per_page).2 in
  let page p := get_page_items items p items_per_page in
  let positions p :=
    get_page_items (seq 0 (length items)) p items_per_page in
  (total_items <= total_pages * items_per_page < total_items + items_per_page)
  /\ page_numbers = py_range 1 (total_pages + 1)
  /\ Z.of_nat (sum_list ((fun p => length (page p)) <$> page_numbers))
     = total_items
  /\ concat (page <$> page_numbers) = items
  /\ (forall p, Some <$> page p = (fun i => items !! i) <$> positions p)
  /\ (forall p q, p ∈ page_numbers -> q ∈ page_numbers -> p <> q ->
        positions p ## positions q)
  /\ (forall p ipp, p <= 0 \/ ipp <= 0 -> get_page_items items p ipp = [])
  /\ (forall p, total_pages < p -> page p = []).
Proof.
  intros Hn Hipp total_pages page_numbers page positions.
  pose proof (total_pages_ceiling total_items items_per_page
                ltac:(lia) Hipp) as Hceil.
  fold total_pages in Hceil.
  assert (Hnum : page_numbers = py_range 1 (total_pages + 1))
    by apply page_numbers_range.
  assert (Htp : 0 <= total_pages) by nia.
  assert (Hcat : concat (page <$> page_numbers) = items).
  { rewrite Hnum, py_range_1, <- list_fmap_compose.
    rewrite (list_fmap_ext _
      (fun k => take (Z.to_nat items_per_page)
                  (drop (k * Z.to_nat items_per_page) items))).
    - rewrite windows_concat. apply take_ge, Nat2Z.inj_le.
      rewrite Nat2Z.inj_mul, !Z2Nat.id by lia. lia.
    - intros _ k _. simpl. unfold page.
      rewrite get_page_items_window by lia.
      f_equal. f_equal. lia. }
  split; [exact Hceil|]. split; [exact Hnum|].
  split; [|split; [exact Hcat|]; split; [|split; [|split]]].
  - rewrite Hn. f_equal.
    transitivity (length (concat (page <$> page_numbers)));
      [|by rewrite Hcat].
    by rewrite length_concat, <- list_fmap_compose.
  - intros p. unfold page, positions.
    rewrite <- !get_page_items_fmap. f_equal.
    apply list_eq. intros i. rewrite !list_lookup_fmap.
    destruct (items !! i) eqn:E; simpl.
    + rewrite lookup_seq_lt by eauto using lookup_lt_Some. simpl. by rewrite E.
    + rewrite lookup_seq_ge by (by apply lookup_ge_None). done.
  - intros p q Hp Hq Hne i Hip Hiq.
    rewrite Hnum in Hp, Hq. apply elem_of_py_range in Hp, Hq.
    apply elem_of_page_positions in Hip, Hiq; try lia. nia.
  - intros p ipp. apply get_page_items_nonpositive.
  - intros p Hp. apply get_page_items_beyond; [done|]. nia.
Qed.

(** The theorem at five items and pages of two. *)
Lemma pagination_partition_witness :
  let items := [10; 20; 30; 40; 50] in
  (calculate_pagination 5 2).1 = 3
  /\ concat ((fun p => get_page_items items p 2)
               <$> (calculate_pagination 5 2).2) = items.
Proof.
  intros items.
  destruct (pagination_partition items 5 2 eq_refl ltac:(lia))
    as (_ & _ & _ & Hcat & _).
  split; [reflexivity|exact Hcat].
Defined.

(** ** TranslationData keeps its flag consistent *)

Lemma truthy_nonempty (s : str) : truthy s = true <-> s <> [].
Proof. by destruct s. Qed.

Lemma loaded_lines_consistent (raw : list str) :
  Forall flag_consistent (loaded_lines raw).
Proof.
  apply Forall_lookup. intros i l. unfold loaded_lines.
  rewrite list_lookup_imap. destruct (raw !! i); [|done].
  intros [= <-]. unfold flag_consistent. simpl. split; [done|]. by intros [].
Qed.

Lemma load_from_file_consistent w path d :
  Forall flag_consistent (lines d) ->
  Forall flag_consistent (lines (load_from_file w path d).2).
Proof.
  intros Hd. unfold load_from_file.
  destruct (validate_file_path w path); simpl; [|done].
  apply loaded_lines_consistent.
Qed.

Lemma translate_line_consistent i t d :
  Forall flag_consistent (lines d) ->
  Forall flag_consistent (lines (translate_line i t d).2).
Proof.
  intros Hd. unfold translate_line.
  destruct (valid_index d i) as [k|]; simpl; [|done].
  apply Forall_alter; [done|]. intros l _ _.
  unfold flag_consistent. simpl. apply truthy_nonempty.
Qed.

Lemma toggle_skip_translation_consistent i d :
  Forall flag_consistent (lines d) ->
  Forall flag_consistent (lines (toggle_skip_translation i d).2).
Proof.
  intros Hd. unfold toggle_skip_translation.
  destruct (valid_index d i) as [k|]; simpl; [|done].
  apply Forall_alter; [done|]. intros l Hl _.
  rewrite Forall_lookup in Hd. by apply Hd in Hl.
Qed.

Lemma run_op_consistent w d o :
  Forall flag_consistent (lines d) ->
  Forall flag_consistent (lines (run_op w d o)).
Proof.
  destruct o; simpl;
    auto using load_from_file_consistent, translate_line_consistent,
      toggle_skip_translation_consistent.
Qed.

(** C9.  After any sequence of [load_from_file], [translate_line] and
    [toggle_skip_translation] calls on a fresh [TranslationData], in any file
    system, every line's [is_translated] flag is true exactly when its
    [translated] text is non-empty after stripping white space. *)
Theorem translation_flag_invariant (w : world) (ops : list data_op) :
  Forall (fun l => is_translated l = true <-> strip (translated l) <> [])
    (lines (run_ops w ops)).
Proof.
  unfold run_ops.
  assert (H0 : Forall flag_consistent (lines translation_data_init))
    by constructor.
  revert H0. generalize translation_data_init.
  induction ops as [|o ops IH]; intros d Hd; simpl; [exact Hd|].
  apply IH. by apply run_op_consistent.
Qed.

(** ** The fallback chain (translation_manager.py) *)

Section chain.
Variables (te : translation_engine) (text source_lang target_lang : str).
Variables (mode : bool) (separator : str).

Let answer (e : engine) : outcome :=
  (try_engine te e text source_lang target_lang mode separator).1.





End chain.






(** ** Translating only after the separator *)










(** C5 at the failing input: the line ["  name: Hello"] has the prefix
    ["  name"], the separator [":"] and the non-empty suffix [" Hello"]; the
    offline chain returns ["name: สวัสดี"], which does not start with
    ["  name:"]: the final [strip()] removed the indentation of the prefix.
    The Gemini path joins prefix and translation with the same
    [strip()]. *)
Lemma separator_prefix_loses_indentation :
  let text := py "  name: Hello" in
  let result := (translate offline text (py "en") (py "th") true (py ":")).1 in
  text = py "  name" ++ py ":" ++ py " Hello"
  /\ find_from (py ":") text 0 = Some 6%nat
  /\ result = py "name: สวัสดี"
  /\ startswith (py "  name" ++ py ":") result = false
  /\ restore_separator_prefix_translation text (py "สวัสดี") (py ":")
     = py "name: สวัสดี".
Proof. repeat split; by vm_compute. Qed.

(** ** Splitting: the parts (text_splitter.py) *)


Section split_parts.
Variables (output_prefix output_dir : str) (lines_per_file : Z).
Hypothesis HL : 0 < lines_per_file.

Let n : nat := Z.to_nat lines_per_file.
Let path (k : nat) : str := part_path output_dir output_prefix k.



Lemma open_write_free (f : gmap str str) (d u : gset str) (p : str) :
  p ∉ d ->
  open_write (IO (World f d u) None) p
  = Some (IO (World (<[p := []]> f) d u) None).
Proof.
  intros Hp. unfold open_write, spend, path_isdir. simpl.
  by rewrite bool_decide_eq_false_2.
Qed.

Lemma write_text_free (f : gmap str str) (d u : gset str) (p data : str) :
  write_text (IO (World f d u) None) p data
  = Some (IO (World (<[p := default [] (f !! p) ++ data]> f) d u) None).
Proof. reflexivity. Qed.





End split_parts.

(** *** The names of the parts *)








(** *** What the parts hold *)





(** *** The lines of a file *)



Lemma readlines_go_ok (cur s : str) :
  newline ∉ cur -> lines_ok (readlines_go cur s).
Proof.
  revert cur. induction s as [|c s IH]; intros cur Hcur; simpl.
  - destruct cur as [|x cur]; [constructor|].
    apply lines_ok_last. split.
    + intros H. apply (f_equal length) in H.
      rewrite length_reverse in H. done.
    + by rewrite elem_of_reverse.
  - case_bool_decide as Hc.
    + apply lines_ok_cons; [|apply IH; set_solver].
      exists (reverse cur). split; [by rewrite reverse_cons, Hc|].
      by rewrite elem_of_reverse.
    + apply IH. by apply not_elem_of_cons.
Qed.

Lemma readlines_ok (content : str) : lines_ok (readlines content).
Proof. apply readlines_go_ok. apply not_elem_of_nil. Qed.

Lemma readlines_go_body (cur body rest : str) :
  newline ∉ body ->
  readlines_go cur (body ++ newline :: rest)
  = (reverse cur ++ body ++ [newline]) :: readlines_go [] rest.
Proof.
  revert cur. induction body as [|c body IH]; intros cur Hb; simpl.
  - by rewrite reverse_cons.
  - apply not_elem_of_cons in Hb as [Hc Hb].
    rewrite bool_decide_eq_false_2 by done.
    rewrite IH by done. by rewrite reverse_cons, <- app_assoc.
Qed.

Lemma readlines_go_open (cur body : str) :
  newline ∉ body -> body <> [] ->
  readlines_go cur body = [reverse cur ++ body].
Proof.
  revert cur. induction body as [|c body IH]; intros cur Hb Hne; [done|].
  simpl. apply not_elem_of_cons in Hb as [Hc Hb].
  rewrite bool_decide_eq_false_2 by done.
  destruct body as [|c' body].
  - simpl. by rewrite reverse_cons.
  - rewrite IH by done. by rewrite reverse_cons, <- app_assoc.
Qed.

(** Lines written one after the other are read back as they were. *)
Lemma readlines_of_lines (ls : list str) :
  lines_ok ls -> readlines (concat ls) = ls.
Proof.
  induction 1 as [|l [Hne Hl]|l ls (body & -> & Hb) _ IH]; simpl.
  - done.
  - rewrite app_nil_r. unfold readlines. by rewrite readlines_go_open.
  - unfold readlines in *. rewrite <- app_assoc. simpl.
    rewrite readlines_go_body by done. by rewrite IH.
Qed.










(** ** Merging what was split (text_splitter.py) *)

Lemma str_leb_refl (a : str) : str_leb a a = true.
Proof.
  induction a as [|x a IH]; [done|]. simpl.
  by rewrite Nat.ltb_irrefl.
Qed.

Lemma str_leb_cons (x y : ascii) (a b : str) :
  str_leb (x :: a) (y :: b) = true
  <-> (nat_of_ascii x < nat_of_ascii y)%nat
      \/ nat_of_ascii x = nat_of_ascii y /\ str_leb a b = true.
Proof.
  simpl. destruct (nat_of_ascii x <? nat_of_ascii y)%nat eqn:E1.
  { apply Nat.ltb_lt in E1. split; [by left|done]. }
  apply Nat.ltb_ge in E1.
  destruct (nat_of_ascii y <? nat_of_ascii x)%nat eqn:E2.
  { apply Nat.ltb_lt in E2. split; [done|]. intros [?|[? _]]; lia. }
  apply Nat.ltb_ge in E2. split.
  - intros H. right. split; [lia|done].
  - intros [?|[_ H]]; [lia|done].
Qed.

Global Instance str_le_total : Total str_le.
Proof.
  intros a. unfold str_le. induction a as [|x a IH]; intros b; [by left|].
  destruct b as [|y b]; [by right|]. rewrite !str_leb_cons.
  destruct (IH b) as [H|H];
    destruct (Nat.lt_trichotomy (nat_of_ascii x) (nat_of_ascii y))
      as [?|[?|?]]; auto.
Qed.

Global Instance str_le_trans : Transitive str_le.
Proof.
  intros a. unfold str_le. induction a as [|x a IH]; intros b c; [done|].
  destruct b as [|y b]; [done|]. destruct c as [|z c]; [done|].
  rewrite !str_leb_cons. intros [H1|[H1 H1']] [H2|[H2 H2']].
  - left. lia.
  - left. lia.
  - left. lia.
  - right. split; [lia|]. by apply (IH b c).
Qed.

Global Instance str_le_antisymm : AntiSymm (=) str_le.
Proof.
  intros a. unfold str_le. induction a as [|x a IH]; intros b.
  - by destruct b.
  - destruct b as [|y b]; [done|]. rewrite !str_leb_cons.
    intros [H1|[H1 H1']] [H2|[H2 H2']]; try lia.
    assert (x = y) as ->.
    { rewrite <- (ascii_nat_embedding x), <- (ascii_nat_embedding y).
      by f_equal. }
    f_equal. by apply IH.
Qed.










(** ** Splitting: failures (text_splitter.py) *)









(** ** Facts about [startswith], [find] and [replace] *)

Lemma startswith_prefix (p s : str) : startswith p s = true <-> p `prefix_of` s.
Proof.
  revert s. induction p as [|a p IH]; intros s; simpl.
  - split; [intros _; apply prefix_nil|done].
  - destruct s as [|b s]; simpl.
    + split; [done|]. intros [r Hr]. done.
    + rewrite andb_true_iff, bool_decide_eq_true, IH. split.
      * intros [-> Hp]. by apply prefix_cons.
      * intros [r [= -> ->]]. split; [done|]. by exists r.
Qed.

Lemma startswith_app (p r : str) : startswith p (p ++ r) = true.
Proof. apply startswith_prefix. by exists r. Qed.

Lemma startswith_lookup (p s : str) (i : nat) (c : ascii) :
  startswith p s = true -> p !! i = Some c -> s !! i = Some c.
Proof.
  rewrite startswith_prefix. intros [r ->] Hi. by apply lookup_app_l_Some.
Qed.

Lemma find_from_shift (sub s : str) (i : nat) :
  find_from sub s i = (fun k => (i + k)%nat) <$> find_from sub s 0.
Proof.
  revert i. induction s as [|c s IH]; intros i; simpl.
  - destruct (startswith sub []); simpl; [f_equal; lia|done].
  - destruct (startswith sub (c :: s)); simpl; [f_equal; lia|].
    rewrite (IH (S i)), (IH 1%nat). destruct (find_from sub s 0); simpl;
      [f_equal; lia|done].
Qed.

Lemma contains_cons (sub : str) (c : ascii) (s : str) :
  contains sub (c :: s) = startswith sub (c :: s) || contains sub s.
Proof.
  unfold contains. simpl. destruct (startswith sub (c :: s)); [done|].
  rewrite find_from_shift. by destruct (find_from sub s 0).
Qed.

(** A text without [sub] has no suffix that starts with it. *)
Lemma contains_false_suffix (sub a1 a2 : str) :
  contains sub (a1 ++ a2) = false -> startswith sub a2 = false.
Proof.
  induction a1 as [|c a1 IH]; simpl.
  - unfold contains. destruct a2; simpl; by destruct (startswith sub _).
  - rewrite contains_cons, orb_false_iff. intros [_ H]. by apply IH.
Qed.



(** Where no occurrence starts, the text is copied. *)
Lemma replace_go_miss (old new a rest : str) :
  (forall a1 a2, a = a1 ++ a2 -> a2 <> [] ->
                 startswith old (a2 ++ rest) = false) ->
  replace_go old new 0 (a ++ rest) = a ++ replace_go old new 0 rest.
Proof.
  induction a as [|c a IH]; intros Hno; [done|].
  cbn [app replace_go].
  change (c :: a ++ rest) with ((c :: a) ++ rest).
  rewrite (Hno [] (c :: a)) by done. f_equal. apply IH.
  intros a1 a2 -> Ha2. by apply (Hno (c :: a1) a2).
Qed.

(** A suffix of [a], followed by [rest], starts with [old] only if the
    suffix does, or if [old] runs into [rest]. *)
Lemma startswith_app_cases (old a rest : str) :
  startswith old (a ++ rest) = true ->
  startswith old a = true
  \/ exists c, old !! length a = Some c /\ head rest = Some c.
Proof.
  rewrite !startswith_prefix. intros [r Hr].
  destruct (decide (length old <= length a)%nat) as [Hle|Hgt].
  - left. exists (take (length a - length old) r).
    apply (f_equal (take (length a))) in Hr.
    rewrite take_app_length, take_app in Hr.
    rewrite (take_ge old) in Hr by lia. exact Hr.
  - right. destruct rest as [|c rest].
    + rewrite app_nil_r in Hr. apply (f_equal length) in Hr.
      rewrite length_app in Hr. lia.
    + exists c. split; [|done].
      assert (H : (a ++ c :: rest) !! length a = Some c)
        by (by rewrite list_lookup_middle).
      rewrite Hr in H. rewrite lookup_app_l in H by lia. done.
Qed.

Lemma startswith_char_false (x c : ascii) (a rest : str) :
  c <> x -> startswith [x] ((c :: a) ++ rest) = false.
Proof. intros Hne. simpl. by rewrite bool_decide_eq_false_2. Qed.

(** Replacing a character that does not occur. *)
Lemma replace_char_absent (x : ascii) (new a rest : str) :
  x ∉ a ->
  replace_go [x] new 0 (a ++ rest) = a ++ replace_go [x] new 0 rest.
Proof.
  intros Hx. apply replace_go_miss. intros a1 a2 -> Ha2.
  destruct a2 as [|c a2]; [done|]. apply startswith_char_false.
  intros ->. apply Hx. set_solver.
Qed.

Lemma rfind_char_lt (c : ascii) (s : str) (i : nat) :
  rfind_char c s = Some i -> (i < length s)%nat.
Proof.
  revert i. induction s as [|x s IH]; intros i; simpl; [done|].
  destruct (rfind_char c s) as [j|].
  - intros [= <-]. specialize (IH j eq_refl). lia.
  - case_bool_decide; [|done]. intros [= <-]. lia.
Qed.

Lemma rfind_char_absent (c : ascii) (s : str) :
  c ∉ s -> rfind_char c s = None.
Proof.
  induction s as [|x s IH]; intros Hc; simpl; [done|].
  rewrite IH by set_solver. rewrite bool_decide_eq_false_2; [done|].
  intros ->. set_solver.
Qed.

Lemma rfind_char_app (c : ascii) (a rest : str) :
  c ∉ rest -> rfind_char c (a ++ rest) = rfind_char c a.
Proof.
  intros Hc. induction a as [|x a IH]; simpl.
  - by apply rfind_char_absent.
  - by rewrite IH.
Qed.

Lemma os_path_basename_app (p rest : str) :
  slash ∉ rest -> os_path_basename (p ++ rest) = os_path_basename p ++ rest.
Proof.
  intros Hc. unfold os_path_basename. rewrite rfind_char_app by done.
  destruct (rfind_char slash p) as [i|] eqn:Hi; [|done].
  apply rfind_char_lt in Hi. rewrite drop_app_le by lia. done.
Qed.

(** ** Merging: when it raises and how it names its output *)

Lemma py_sorted_nil (l : list str) : py_sorted l = [] <-> l = [].
Proof.
  unfold py_sorted. split; [|by intros ->].
  intros H. pose proof (merge_sort_Permutation str_le l) as Hp.
  rewrite H in Hp. by apply Permutation_nil_l in Hp.
Qed.

Lemma default_merged_name_parts (base : str) :
  "*"%char ∉ base ->
  default_merged_name (base ++ py "_part_*.txt") = base ++ py "_merged.txt".
Proof.
  intros Hstar. unfold default_merged_name. f_equal.
  assert (Hinner : py_replace (py "_part_*.txt") [] (base ++ py "_part_*.txt")
                   = base).
  { change (py_replace (py "_part_*.txt") [] (base ++ py "_part_*.txt"))
      with (replace_go (py "_part_*.txt") [] 0 (base ++ py "_part_*.txt")).
    rewrite replace_go_miss.
    - change (replace_go (py "_part_*.txt") [] 0 (py "_part_*.txt"))
        with (@nil ascii). apply app_nil_r.
    - intros a1 a2 -> Ha2.
      destruct (startswith (py "_part_*.txt") (a2 ++ py "_part_*.txt"))
        eqn:Hs; [|done]. exfalso.
      pose proof (startswith_lookup _ _ 6%nat "*"%char Hs eq_refl) as Hl.
      destruct (decide (6 < length a2)%nat).
      + rewrite lookup_app_l in Hl by done.
        apply Hstar. apply list_elem_of_lookup_2 in Hl. set_solver.
      + rewrite lookup_app_r in Hl by lia.
        assert (length a2 <> 0)%nat by (by destruct a2).
        destruct (6 - length a2)%nat as [|[|[|[|[|[|k]]]]]] eqn:Hk;
          try done; lia. }
  rewrite Hinner.
  change (py_replace (py "*") (py "merged") base)
    with (replace_go (py "*") (py "merged") 0 base).
  rewrite <- (app_nil_r base) at 1.
  rewrite (replace_char_absent "*"%char) by done. apply app_nil_r.
Qed.

Lemma merged_name_in_dir_parts (base : str) :
  "*"%char ∉ os_path_basename base ->
  contains (py ".txt") (os_path_basename base) = false ->
  merged_name_in_dir (base ++ py "_part_*.txt")
  = os_path_basename base ++ py "_part_merged_merged.txt".
Proof.
  intros Hstar Htxt. unfold merged_name_in_dir.
  rewrite os_path_basename_app
    by (apply (bool_decide_unpack _); by vm_compute).
  set (b := os_path_basename base) in *.
  change (py_replace (py "*") (py "merged") (b ++ py "_part_*.txt"))
    with (replace_go (py "*") (py "merged") 0 (b ++ py "_part_*.txt")).
  rewrite (replace_char_absent "*"%char) by done.
  change (replace_go [ "*"%char ] (py "merged") 0 (py "_part_*.txt"))
    with (py "_part_merged.txt").
  change (py_replace (py ".txt") [] (b ++ py "_part_merged.txt"))
    with (replace_go (py ".txt") [] 0 (b ++ py "_part_merged.txt")).
  rewrite replace_go_miss.
  - change (replace_go (py ".txt") [] 0 (py "_part_merged.txt"))
      with (py "_part_merged").
    by rewrite <- app_assoc.
  - intros a1 a2 -> Ha2.
    destruct (startswith (py ".txt") (a2 ++ py "_part_merged.txt")) eqn:Hs;
      [|done]. exfalso.
    apply startswith_app_cases in Hs as [Hs|(c & Hc & Hh)].
    + by rewrite (contains_false_suffix _ _ _ Htxt) in Hs.
    + injection Hh as <-.
      destruct (length a2) as [|[|[|[|k]]]]; done.
Qed.

(** C7, as amended.  [merge_text_files] raises [FileNotFoundError]
    exactly when the glob finds nothing, and then touches nothing.  The path
    it returns after a merge is [merge_output_path]: the output path given,
    or without one the pattern with [_part_*.txt] stripped (and any other
    [*] replaced by [merged]) followed by [_merged.txt], so that
    [base_part_*.txt] gives [base_merged.txt]; when that path is an existing
    directory, a file inside it named by another rule: the last component of
    the pattern with every [*] replaced by [merged] and every [.txt]
    removed, followed by [_merged.txt], so that [base_part_*.txt] gives
    [base_part_merged_merged.txt]. *)
Theorem merge_output_rules (glob : world -> str -> list str) (s : io_state)
    (file_pattern : str) (output_file source_folder : option str) :
  let search_pattern :=
    match source_folder with
    | Some folder =>
        if truthy folder then os_path_join folder file_pattern
        else file_pattern
    | None => file_pattern
    end in
  let run := merge_text_files glob s file_pattern output_file source_folder in
  let chosen := default (default_merged_name file_pattern) output_file in
  (run.1 = Raise FileNotFoundError <-> glob (disk s) search_pattern = [])
  /\ (glob (disk s) search_pattern = [] -> run.2 = s)
  /\ (forall out, run.1 = Return (Some out) ->
        out = merge_output_path (disk s) file_pattern output_file)
  /\ (path_isdir (disk s) chosen = false ->
      merge_output_path (disk s) file_pattern output_file = chosen)
  /\ (path_isdir (disk s) chosen = true ->
      merge_output_path (disk s) file_pattern output_file
      = os_path_join chosen (merged_name_in_dir file_pattern))
  /\ (forall base, "*"%char ∉ base ->
        default_merged_name (base ++ py "_part_*.txt")
        = base ++ py "_merged.txt")
  /\ (forall base,
        "*"%char ∉ os_path_basename base ->
        contains (py ".txt") (os_path_basename base) = false ->
        merged_name_in_dir (base ++ py "_part_*.txt")
        = os_path_basename base ++ py "_part_merged_merged.txt").
Proof.
  intros search_pattern run chosen.
  assert (Hfile : path_isdir (disk s) chosen = false ->
                  merge_output_path (disk s) file_pattern output_file = chosen).
  { intros Hd. unfold merge_output_path. fold chosen. by rewrite Hd. }
  assert (Hdir : path_isdir (disk s) chosen = true ->
                 merge_output_path (disk s) file_pattern output_file
                 = os_path_join chosen (merged_name_in_dir file_pattern)).
  { intros Hd. unfold merge_output_path. fold chosen. by rewrite Hd. }
  assert (Hrun : (run.1 = Raise FileNotFoundError
                  <-> glob (disk s) search_pattern = [])
                 /\ (glob (disk s) search_pattern = [] -> run.2 = s)
                 /\ (forall out, run.1 = Return (Some out) ->
                       out = merge_output_path (disk s) file_pattern
                               output_file)).
  { subst run. unfold merge_text_files. fold search_pattern.
    destruct (py_sorted (glob (disk s) search_pattern)) as [|f found] eqn:Hs.
    - apply (proj1 (py_sorted_nil _)) in Hs. simpl.
      split; [by split|]. split; done.
    - assert (Hne : glob (disk s) search_pattern <> []).
      { intros H. apply (proj2 (py_sorted_nil _)) in H. by rewrite H in Hs. }
      destruct (open_write _ _) as [s2|].
      + match goal with
        | |- context [merge_loop ?o ?l ?st] =>
            destruct (merge_loop o l st) as [[] s3]
        end; simpl.
        * split; [by split|]. split; [done|]. by intros out [= <-].
        * split; [by split|]. split; done.
      + simpl. split; [by split|]. split; done. }
  destruct Hrun as (H1 & H2 & H3).
  split; [exact H1|]. split; [exact H2|]. split; [exact H3|].
  split; [exact Hfile|]. split; [exact Hdir|].
  split; [apply default_merged_name_parts|apply merged_name_in_dir_parts].
Qed.

(** The amended property on [doc_parts]: no match raises, the default name
    is [doc_merged.txt], and inside a directory the name is
    [doc_part_merged_merged.txt]. *)
Lemma merge_output_rules_witness :
  (merge_text_files star_glob (IO doc_parts None) (py "nothing_*.txt") None
     None).1 = Raise FileNotFoundError
  /\ default_merged_name (py "doc" ++ py "_part_*.txt")
     = py "doc" ++ py "_merged.txt"
  /\ merged_name_in_dir (py "doc" ++ py "_part_*.txt")
     = py "doc" ++ py "_part_merged_merged.txt".
Proof.
  destruct (merge_output_rules star_glob (IO doc_parts None)
              (py "nothing_*.txt") None None)
    as (Hraise & _ & _ & _ & _ & Hdefault & Hdir).
  split; [apply Hraise; by vm_compute|]. split.
  - apply Hdefault. apply (bool_decide_unpack _). by vm_compute.
  - apply (Hdir (py "doc")); [|by vm_compute].
    apply (bool_decide_unpack _). by vm_compute.
Defined.

(** C7 fails as stated in its last part: asked to write into the directory
    [out], the merge of [doc_part_*.txt] names its file
    [doc_part_merged_merged.txt], not by the rule of the default name, which
    gives [doc_merged.txt]. *)
Lemma merge_into_directory_other_rule :
  let pattern := py "doc_part_*.txt" in
  let run :=
    merge_text_files star_glob (IO doc_parts None) pattern (Some (py "out"))
      None in
  default_merged_name pattern = py "doc_merged.txt"
  /\ run.1 = Return (Some (py "out/doc_part_merged_merged.txt"))
  /\ run.1 <> Return (Some (os_path_join (py "out")
                              (default_merged_name pattern)))
  /\ files (disk run.2) !! py "out/doc_part_merged_merged.txt"
     = Some (numbered_lines 2 ++ numbered_lines 3).
Proof. repeat split; by vm_compute. Qed.

(** ** Splitting into a thousand parts and merging them *)

(** C1 at the failing input.  The thousand-line file is split into a
    thousand parts, [big_part_001.txt] to [big_part_1000.txt]; the merge
    succeeds, but in the order of the names [big_part_1000.txt] comes between
    [big_part_100.txt] and [big_part_101.txt], so line 1000 of the original
    is line 101 of the merged file: the merged file is not the original. *)
Lemma split_merge_thousand_parts :
  let original := numbered_lines 1000 in
  let merged := default [] (files (disk thousand_merged.2) !! py "merged.txt") in
  length (readlines original) = 1000%nat
  /\ length (filter (fun p => startswith (py "big_split_20240101_120000/big_part_") p)
               (elements (dom (files (disk thousand_parts))))) = 1000%nat
  /\ thousand_merged.1 = Return (Some (py "merged.txt"))
  /\ take 3 (drop 99 (readlines original))
     = [py "100" ++ [newline]; py "101" ++ [newline]; py "102" ++ [newline]]
  /\ take 3 (drop 99 (readlines merged))
     = [py "100" ++ [newline]; py "1000" ++ [newline]; py "101" ++ [newline]]
  /\ bool_decide (merged = original) = false.
Proof. vm_compute. repeat split; reflexivity. Qed.

(** ** Protecting and restoring (ai_translator.py) *)

Lemma str_of_nat_inj (n m : nat) : str_of_nat n = str_of_nat m -> n = m.
Proof.
  unfold str_of_nat. intros H.
  apply (f_equal string_of_list_ascii) in H.
  rewrite !string_of_list_ascii_of_string in H.
  apply (f_equal NilEmpty.uint_of_string) in H.
  rewrite !NilEmpty.usu in H. injection H as H.
  apply (f_equal Nat.of_uint) in H. by rewrite !Unsigned.of_to in H.
Qed.

Lemma token_inj (tp : text_protector) (n m : nat) :
  token tp n = token tp m -> n = m.
Proof.
  unfold token. intros H. apply app_inv_head, app_inv_tail in H.
  by apply str_of_nat_inj.
Qed.

(** In a dict whose keys are the first tokens, the next token is new and its
    entry goes to the end. *)
Lemma dict_set_fresh {V} (d : list (str * V)) (key : str) (v : V) :
  key ∉ d.*1 -> dict_set d key v = d ++ [(key, v)].
Proof.
  induction d as [|[k v'] d IH]; simpl; [done|]. intros Hk.
  apply not_elem_of_cons in Hk as [Hne Hk].
  rewrite bool_decide_eq_false_2 by done. f_equal. by apply IH.
Qed.

Lemma token_fresh (tp : text_protector) (st : protect_state) :
  keys_in_order tp st ->
  token tp (S (placeholder_counter st)) ∉ (placeholders st).*1.
Proof.
  intros ->. rewrite list_elem_of_fmap. intros (n & Hn & Hin).
  apply token_inj in Hn. subst n. apply elem_of_seq in Hin. lia.
Qed.

Lemma replace_match_keys (tp : text_protector) (m : str) (st : protect_state) :
  keys_in_order tp st ->
  replace_match tp m st
  = (token tp (S (placeholder_counter st)),
     ProtectState
       (placeholders st ++ [(token tp (S (placeholder_counter st)), m)])
       (S (placeholder_counter st)))
  /\ keys_in_order tp (replace_match tp m st).2.
Proof.
  intros Hk. unfold replace_match. fold (token tp (S (placeholder_counter st))).
  rewrite dict_set_fresh by (by apply token_fresh). split; [done|].
  unfold keys_in_order. cbn [snd placeholders placeholder_counter].
  by rewrite fmap_app, Hk, seq_S, fmap_app.
Qed.


Lemma source_keep (s : str) : source (Keep <$> s) = s.
Proof.
  induction s as [|x s IH]; [done|]. rewrite fmap_cons. cbn [source].
  f_equal. exact IH.
Qed.

Lemma rendered_keep (tp : text_protector) (c : nat) (s : str) :
  rendered tp c (Keep <$> s) = s.
Proof.
  induction s as [|x s IH]; [done|]. rewrite fmap_cons. cbn [rendered].
  f_equal. exact IH.
Qed.

Lemma entries_keep (tp : text_protector) (c : nat) (s : str) :
  entries tp c (Keep <$> s) = [].
Proof.
  induction s as [|x s IH]; [done|]. rewrite fmap_cons. cbn [entries].
  exact IH.
Qed.

(** What [re.sub] with [replace_match] does: it cuts the text into kept
    characters and matches, puts the next placeholders in the place of the
    matches and adds their entries to the dict, in order. *)
Lemma sub_go_pieces (tp : text_protector) (fl : re_flags) (r : regex)
    (fuel : nat) (must_advance : bool) (prev : option ascii) (s : str)
    (st : protect_state) :
  keys_in_order tp st ->
  exists items,
    source items = s
    /\ sub_go fl r (replace_match tp) fuel must_advance prev s st
       = (rendered tp (placeholder_counter st) items,
          ProtectState
            (placeholders st ++ entries tp (placeholder_counter st) items)
            (placeholder_counter st
             + length (entries tp (placeholder_counter st) items))).
Proof.
  revert must_advance prev s st.
  induction fuel as [|fuel IH]; intros must_advance prev s st Hk.
  - exists (Keep <$> s). cbn [sub_go].
    rewrite source_keep, rendered_keep, entries_keep.
    split; [done|]. rewrite app_nil_r, Nat.add_0_r. by destruct st.
  - cbn [sub_go].
    destruct (match_here fl r must_advance prev s) as [n|].
    + destruct (replace_match_keys tp (take n s) st Hk) as [-> Hk1].
      set (st1 := ProtectState _ _) in *.
      assert (Hnext : forall ma p s',
                 take n s ++ s' = s ->
                 exists items,
                   source items = s
                   /\ (let '(rest, st2) :=
                         sub_go fl r (replace_match tp) fuel ma p s' st1 in
                       (token tp (S (placeholder_counter st)) ++ rest, st2))
                      = (rendered tp (placeholder_counter st) items,
                         ProtectState
                           (placeholders st
                            ++ entries tp (placeholder_counter st) items)
                           (placeholder_counter st
                            + length (entries tp (placeholder_counter st)
                                        items)))).
      { intros ma p s' Hs'.
        destruct (IH ma p s' st1 Hk1) as (items & Hsrc & ->).
        exists (Swap (take n s) :: items). simpl. rewrite Hsrc.
        split; [done|]. f_equal. f_equal; [by rewrite <- app_assoc|lia]. }
      destruct n as [|n].
      * apply Hnext. by rewrite take_0.
      * apply Hnext. apply take_drop.
    + destruct s as [|c s].
      * exists []. simpl. rewrite app_nil_r, Nat.add_0_r. by destruct st.
      * destruct (IH false (Some c) s st Hk) as (items & Hsrc & ->).
        exists (Keep c :: items). simpl. by rewrite Hsrc.
Qed.




Lemma token_standard (tp : text_protector) (n : nat) :
  standard_tokens tp ->
  token tp n = section_sign ++ token_body ++ str_of_nat n ++ section_sign.
Proof. intros [Hp Hs]. unfold token. rewrite Hp, Hs. reflexivity. Qed.

Lemma contains_true (sub s : str) :
  contains sub s = true
  <-> exists a1 a2, s = a1 ++ a2 /\ startswith sub a2 = true.
Proof.
  induction s as [|c s IH].
  - unfold contains. simpl. destruct (startswith sub []) eqn:E.
    + split; [|done]. intros _. by exists [], [].
    + split; [done|]. intros (a1 & a2 & H & Hs).
      symmetry in H. apply app_eq_nil in H as [-> ->]. congruence.
  - rewrite contains_cons, orb_true_iff, IH. split.
    + intros [H|(a1 & a2 & -> & H)].
      * by exists [], (c :: s).
      * by exists (c :: a1), a2.
    + intros (a1 & a2 & H & Hs). destruct a1 as [|x a1].
      * left. simpl in H. by rewrite H.
      * right. injection H as -> ->. by exists a1, a2.
Qed.

Lemma contains_false_app_r (sub a b : str) :
  contains sub (a ++ b) = false -> contains sub b = false.
Proof.
  intros H. destruct (contains sub b) eqn:E; [|done].
  apply contains_true in E as (b1 & b2 & -> & Hs).
  assert (contains sub (a ++ b1 ++ b2) = true); [|congruence].
  apply contains_true. exists (a ++ b1), b2. by rewrite app_assoc.
Qed.

Lemma contains_false_app_l (sub a b : str) :
  contains sub (a ++ b) = false -> contains sub a = false.
Proof.
  intros H. destruct (contains sub a) eqn:E; [|done].
  apply contains_true in E as (a1 & a2 & -> & Hs).
  assert (contains sub ((a1 ++ a2) ++ b) = true); [|congruence].
  apply contains_true. exists a1, (a2 ++ b). split; [by rewrite app_assoc|].
  apply startswith_prefix. apply startswith_prefix in Hs.
  by apply prefix_app_r.
Qed.






Section restore.
Variable tp : text_protector.
Hypothesis Hstd : standard_tokens tp.

Lemma token_cons (n : nat) :
  token tp n
  = sign_byte :: ascii_of_nat 167
      :: "P"%char :: py "ROTECTED_" ++ str_of_nat n ++ section_sign.
Proof. by rewrite token_standard. Qed.







Lemma entries_nil_rendered (c : nat) (items : list piece) :
  entries tp c items = [] -> rendered tp c items = source items.
Proof.
  induction items as [|[ch|m] items IH]; [done| |done].
  cbn [entries rendered source]. intros H. f_equal. by apply IH.
Qed.


End restore.

Lemma iteration_order_small (tp : text_protector) (order : list str) :
  iteration_order tp order -> (size (enabled_patterns tp) <= 1)%nat ->
  order = [] \/ exists name, order = [name].
Proof.
  unfold iteration_order, size, set_size. simpl. intros Hp Hsz.
  apply Permutation_length in Hp. rewrite <- Hp in Hsz.
  destruct order as [|name [|name' order]]; simpl in Hsz; [by left| |lia].
  right. by exists name.
Qed.




(** ** White space at the ends of a text *)

Lemma space_prefix_bounds (spaces : list str) (s : str) (n : nat) :
  Forall (fun w => w <> []) spaces ->
  space_prefix spaces s = Some n -> (1 <= n <= length s)%nat.
Proof.
  intros Hne. unfold space_prefix. destruct s as [|c s]; [done|].
  destruct (ascii_space c).
  { intros [= <-]. simpl. lia. }
  destruct (List.find _ spaces) as [w|] eqn:E; [|done].
  intros [= <-]. apply List.find_some in E as [Hin Hw].
  apply startswith_prefix in Hw. apply prefix_length in Hw.
  assert (w <> []) as Hw'.
  { rewrite Forall_forall in Hne. apply Hne. by apply list_elem_of_In. }
  destruct w; [done|]. simpl in *. lia.
Qed.

Lemma lstrip_go_none (spaces : list str) (fuel : nat) (s : str) :
  space_prefix spaces s = None -> lstrip_go spaces fuel s = s.
Proof. intros H. destruct fuel; [done|]. simpl. by rewrite H. Qed.

Lemma lstrip_go_drop (spaces : list str) (fuel : nat) (s : str) :
  exists k, lstrip_go spaces fuel s = drop k s.
Proof.
  revert s. induction fuel as [|fuel IH]; intros s.
  { by exists 0%nat. }
  simpl. destruct (space_prefix spaces s) as [n|]; [|by exists 0%nat].
  destruct (IH (drop n s)) as [k ->]. exists (n + k)%nat.
  by rewrite drop_drop.
Qed.

Lemma lstrip_go_done (spaces : list str) (fuel : nat) (s : str) :
  Forall (fun w => w <> []) spaces -> (length s <= fuel)%nat ->
  space_prefix spaces (lstrip_go spaces fuel s) = None.
Proof.
  intros Hne. revert s. induction fuel as [|fuel IH]; intros s Hlen.
  { destruct s; [done|]. simpl in Hlen. lia. }
  simpl. destruct (space_prefix spaces s) as [n|] eqn:E; [|done].
  apply IH. apply space_prefix_bounds in E; [|done].
  rewrite length_drop. lia.
Qed.

Lemma space_prefix_prefix (spaces : list str) (a s : str) :
  a `prefix_of` s -> space_prefix spaces s = None ->
  space_prefix spaces a = None.
Proof.
  intros [r ->]. unfold space_prefix. destruct a as [|c a]; [done|].
  simpl. destruct (ascii_space c); [done|].
  destruct (List.find _ spaces) as [w|] eqn:E; [done|]. intros _.
  destruct (List.find (fun w => startswith w (c :: a)) spaces) as [w|] eqn:E';
    [|done].
  apply List.find_some in E' as [Hin Hw].
  apply (List.find_none _ _ E) in Hin.
  apply startswith_prefix in Hw.
  assert (startswith w (c :: a ++ r) = true); [|congruence].
  apply startswith_prefix. etrans; [exact Hw|].
  by apply (prefix_app_r (c :: a) (c :: a) r).
Qed.

Lemma unicode_spaces_nonempty : Forall (fun w : str => w <> []) unicode_spaces.
Proof. repeat constructor; discriminate. Qed.

Lemma unicode_spaces_rev_nonempty :
  Forall (fun w : str => w <> []) (reverse <$> unicode_spaces).
Proof. repeat constructor; discriminate. Qed.

(** What [strip] returns has no white space at either end, and is a piece
    of the text. *)
Lemma lstrip_done (s : str) : space_prefix unicode_spaces (lstrip s) = None.
Proof. apply lstrip_go_done; [apply unicode_spaces_nonempty|done]. Qed.

Lemma rstrip_done (s : str) :
  space_prefix (reverse <$> unicode_spaces) (reverse (rstrip s)) = None.
Proof.
  unfold rstrip. rewrite reverse_involutive.
  apply lstrip_go_done; [apply unicode_spaces_rev_nonempty|].
  by rewrite length_reverse.
Qed.

Lemma rstrip_prefix (s : str) : rstrip s `prefix_of` s.
Proof.
  unfold rstrip.
  destruct (lstrip_go_drop (reverse <$> unicode_spaces) (length s) (reverse s))
    as [k ->].
  rewrite <- (reverse_involutive s) at 2.
  rewrite <- (take_drop k (reverse s)) at 2.
  rewrite reverse_app. by apply prefix_app_r.
Qed.

Lemma lstrip_suffix (s : str) : lstrip s `suffix_of` s.
Proof.
  unfold lstrip.
  destruct (lstrip_go_drop unicode_spaces (length s) s) as [k ->].
  apply suffix_drop.
Qed.

Lemma lstrip_fixed (s : str) :
  space_prefix unicode_spaces s = None -> lstrip s = s.
Proof. apply lstrip_go_none. Qed.

Lemma rstrip_fixed (s : str) :
  space_prefix (reverse <$> unicode_spaces) (reverse s) = None -> rstrip s = s.
Proof.
  intros H. unfold rstrip. rewrite lstrip_go_none by done.
  apply reverse_involutive.
Qed.

Lemma strip_done_left (s : str) :
  space_prefix unicode_spaces (strip s) = None.
Proof.
  unfold strip. eapply space_prefix_prefix; [apply rstrip_prefix|].
  apply lstrip_done.
Qed.

Lemma strip_fixed (s : str) :
  space_prefix unicode_spaces s = None ->
  space_prefix (reverse <$> unicode_spaces) (reverse s) = None ->
  strip s = s.
Proof. intros Hl Hr. unfold strip. rewrite lstrip_fixed by done. by apply rstrip_fixed. Qed.

Lemma strip_idemp (s : str) : strip (strip s) = strip s.
Proof. apply strip_fixed; [apply strip_done_left|apply rstrip_done]. Qed.

Lemma strip_sublist (s : str) (c : ascii) : c ∈ strip s -> c ∈ s.
Proof.
  intros H. unfold strip in H.
  destruct (rstrip_prefix (lstrip s)) as [r Hr].
  destruct (lstrip_suffix s) as [l Hl].
  rewrite Hl, Hr. set_solver.
Qed.

(** ** File names (utils.py) *)

Lemma replace_char_spec (c : ascii) (new s : str) :
  py_replace [c] new s
  = flat_map (fun x => if bool_decide (c = x) then new else [x]) s.
Proof.
  unfold py_replace. induction s as [|x s IH]; [done|].
  cbn [replace_go startswith length flat_map]. rewrite andb_true_r.
  destruct (bool_decide (c = x)); simpl; by rewrite IH.
Qed.

Lemma replace_chars_clean (cs : list ascii) (s : str) :
  "_"%char ∉ cs ->
  Forall (fun x => x ∉ cs)
    (foldl (fun name char => py_replace [char] (py "_") name) s cs).
Proof.
  induction cs as [|c cs IH] using rev_ind; intros Hu.
  { simpl. apply Forall_forall. intros x _. apply not_elem_of_nil. }
  rewrite foldl_app. cbn [foldl]. rewrite replace_char_spec.
  assert (Hcs : "_"%char ∉ cs) by set_solver.
  specialize (IH Hcs). revert IH.
  generalize (foldl (fun name char => py_replace [char] (py "_") name) s cs).
  intros t Ht. induction Ht as [|x t Hx Ht IHt]; [constructor|].
  cbn [flat_map]. apply Forall_app. split; [|done].
  destruct (bool_decide (c = x)) eqn:E.
  - repeat constructor. exact Hu.
  - apply bool_decide_eq_false in E. repeat constructor.
    rewrite elem_of_app, list_elem_of_singleton. intros [?|?]; [done|].
    by subst.
Qed.

Lemma replace_chars_absent (cs : list ascii) (s : str) :
  Forall (fun x => x ∉ cs) s ->
  foldl (fun name char => py_replace [char] (py "_") name) s cs = s.
Proof.
  revert s. induction cs as [|c cs IH]; intros s Hs; [done|].
  cbn [foldl].
  assert (py_replace [c] (py "_") s = s) as ->.
  { rewrite replace_char_spec. induction Hs as [|x t Hx Ht IHt]; [done|].
    cbn [flat_map]. rewrite bool_decide_eq_false_2 by set_solver.
    cbn [app]. by rewrite IHt. }
  apply IH. eapply Forall_impl; [exact Hs|]. set_solver.
Qed.

(** [sanitize_filename] gives a name that is not empty, holds none of the
    characters it forbids and has no white space at its ends; a name it
    made is left as it is. *)
Theorem sanitize_filename_safe (filename : str) :
  let name := sanitize_filename filename in
  name <> []
  /\ (forall c, c ∈ invalid_chars -> c ∉ name)
  /\ strip name = name
  /\ sanitize_filename name = name.
Proof.
  assert (Hu : "_"%char ∉ invalid_chars).
  { apply (bool_decide_unpack _). by vm_compute. }
  assert (Hclean : forall s, Forall (fun x => x ∉ invalid_chars) s ->
                             strip s = s -> s <> [] ->
                             sanitize_filename s = s).
  { intros s Hs Hst Hne. unfold sanitize_filename.
    rewrite replace_chars_absent by done. rewrite Hst.
    by destruct s. }
  assert (Hprops : let name := sanitize_filename filename in
                   name <> [] /\ Forall (fun x => x ∉ invalid_chars) name
                   /\ strip name = name).
  { unfold sanitize_filename.
    set (t := foldl _ filename invalid_chars).
    destruct (strip t) as [|c r] eqn:E; cbn [truthy negb].
    - split; [done|]. split; [|by vm_compute].
      apply (bool_decide_unpack _). by vm_compute.
    - split; [done|]. split; [|rewrite <- E; apply strip_idemp].
      apply Forall_forall. intros x Hx. rewrite <- E in Hx.
      apply strip_sublist in Hx.
      pose proof (replace_chars_clean invalid_chars filename Hu) as Hall.
      rewrite Forall_forall in Hall. by apply Hall. }
  destruct Hprops as (Hne & Hall & Hst).
  split; [done|]. split; [|split; [done|by apply Hclean]].
  intros c Hc Hin. rewrite Forall_forall in Hall. by apply (Hall c).
Qed.

Lemma sanitize_filename_safe_witness :
  let name := sanitize_filename (py " re:port?.txt ") in
  name = py "re_port_.txt" /\ sanitize_filename name = name.
Proof.
  intros name. split; [by vm_compute|].
  by destruct (sanitize_filename_safe (py " re:port?.txt "))
    as (_ & _ & _ & H).
Defined.

(** ** Cutting a text short (utils.py) *)

Lemma py_slice_prefix {A} (l : list A) (stop : Z) :
  py_slice l 0 stop
  = take (Z.to_nat (if stop <? 0 then Z.max 0 (stop + Z.of_nat (length l))
                    else Z.min stop (Z.of_nat (length l)))) l.
Proof.
  unfold py_slice. change (0 <? 0) with false. cbv iota.
  rewrite (Z.min_l 0) by lia. cbn [Z.to_nat drop]. by rewrite Z.sub_0_r.
Qed.

(** A text that fits is returned as it is; a longer one is cut to exactly
    [max_length] characters, the last three of them dots, when
    [max_length] is at least 3.  Below 3 the result of cutting is longer
    than [max_length]: the bound holds if and only if the text fits or
    [max_length] is at least 3. *)
Theorem truncate_text_length (text : list N) (max_length : Z) :
  let result := truncate_text text max_length in
  (Z.of_nat (length text) <= max_length -> result = text)
  /\ (max_length < Z.of_nat (length text) -> 3 <= max_length ->
      result = take (Z.to_nat (max_length - 3)) text ++ ellipsis
      /\ Z.of_nat (length result) = max_length)
  /\ (Z.of_nat (length result) <= max_length
      <-> Z.of_nat (length text) <= max_length \/ 3 <= max_length).
Proof.
  unfold truncate_text.
  destruct (Z.of_nat (length text) <=? max_length) eqn:E.
  { apply Z.leb_le in E. split; [done|]. split; [lia|]. split; [by left|done]. }
  apply Z.leb_gt in E. split; [lia|].
  rewrite py_slice_prefix.
  assert (Hcut : 3 <= max_length ->
                 take (Z.to_nat (if max_length - 3 <? 0
                                 then Z.max 0 (max_length - 3
                                               + Z.of_nat (length text))
                                 else Z.min (max_length - 3)
                                        (Z.of_nat (length text)))) text
                 = take (Z.to_nat (max_length - 3)) text).
  { intros H3. destruct (max_length - 3 <? 0) eqn:E3;
      [apply Z.ltb_lt in E3; lia|].
    by rewrite Z.min_l by lia. }
  split.
  - intros _ H3. rewrite Hcut by done. split; [done|].
    rewrite length_app, length_take. cbn [length ellipsis]. lia.
  - rewrite length_app, length_take. cbn [length ellipsis]. split.
    + intros Hle. right.
      destruct (max_length - 3 <? 0) eqn:E3; [lia|].
      apply Z.ltb_ge in E3. lia.
    + intros [Hfit|H3]; [lia|].
      destruct (max_length - 3 <? 0) eqn:E3;
        [apply Z.ltb_lt in E3; lia|]. lia.
Qed.

Lemma truncate_text_length_witness :
  Z.of_nat (length (truncate_text (N.of_nat <$> seq 0 10) 5)) = 5.
Proof.
  destruct (truncate_text_length (N.of_nat <$> seq 0 10) 5) as (_ & H & _).
  apply H; [by vm_compute|lia].
Defined.

(** ** A file name that is not taken (utils.py) *)

Lemma numbered_path_inj (base ext : str) (j k : nat) :
  numbered_path base ext j = numbered_path base ext k -> j = k.
Proof.
  unfold numbered_path. intros H.
  apply app_inv_head, app_inv_head, app_inv_tail in H.
  by apply str_of_nat_inj.
Qed.

Lemma path_exists_elem (w : world) (p : str) :
  path_exists w p = true <-> p ∈ dom (files w) ∪ dirs w.
Proof.
  unfold path_exists. rewrite orb_true_iff, !bool_decide_eq_true.
  rewrite elem_of_union, elem_of_dom. tauto.
Qed.

Lemma unique_filename_loop_spec (w : world) (base ext : str) (fuel c : nat) :
  (exists k, (c <= k < c + fuel)%nat
             /\ path_exists w (numbered_path base ext k) = false) ->
  exists k, (c <= k)%nat
    /\ unique_filename_loop w base ext fuel c = Some (numbered_path base ext k)
    /\ path_exists w (numbered_path base ext k) = false
    /\ forall j, (c <= j < k)%nat ->
                 path_exists w (numbered_path base ext j) = true.
Proof.
  revert c. induction fuel as [|fuel IH]; intros c (k & Hk & Hfree); [lia|].
  cbn [unique_filename_loop].
  destruct (path_exists w (numbered_path base ext c)) eqn:E; cbn [negb].
  - destruct (IH (S c)) as (k' & Hk' & Hloop & Hfree' & Hbelow).
    { exists k. split; [|done]. destruct (decide (k = c)) as [->|]; [|lia].
      congruence. }
    exists k'. split; [lia|]. split; [done|]. split; [done|].
    intros j Hj. destruct (decide (j = c)) as [->|]; [done|].
    apply Hbelow. lia.
  - exists c. split; [lia|]. split; [done|]. split; [done|]. intros j Hj. lia.
Qed.

(** Among more candidates than there are paths, one is not taken. *)
Lemma numbered_path_free (w : world) (base ext : str) (fuel c : nat) :
  (size (dom (files w) ∪ dirs w) < fuel)%nat ->
  exists k, (c <= k < c + fuel)%nat
            /\ path_exists w (numbered_path base ext k) = false.
Proof.
  intros Hsize.
  destruct (decide (Forall (fun k => path_exists w (numbered_path base ext k)
                                     = true) (seq c fuel))) as [Hall|Hnot].
  - exfalso.
    assert (Hnd : NoDup (numbered_path base ext <$> seq c fuel)).
    { apply NoDup_fmap_2; [|apply NoDup_seq].
      intros j k. apply numbered_path_inj. }
    assert (Hsub : list_to_set (C := gset str)
                     (numbered_path base ext <$> seq c fuel)
                   ⊆ dom (files w) ∪ dirs w).
    { intros p Hp. apply elem_of_list_to_set, list_elem_of_fmap in Hp
        as (k & -> & Hk).
      apply path_exists_elem. rewrite Forall_forall in Hall. by apply Hall. }
    apply subseteq_size in Hsub.
    rewrite size_list_to_set in Hsub by done.
    rewrite length_fmap, length_seq in Hsub. lia.
  - apply (not_Forall_Exists _) in Hnot.
    apply Exists_exists in Hnot as (k & Hk & Hfree).
    apply elem_of_seq in Hk. exists k. split; [lia|].
    by apply not_true_is_false.
Qed.

(** [get_unique_filename] returns a path that does not exist: the path
    asked for when that is free, and otherwise the first of
    [base_1.ext], [base_2.ext], ... that is free.  The loop ends: with
    more rounds than there are paths in the file system it finds one. *)
Theorem get_unique_filename_fresh (fuel : nat) (w : world) (file_path : str) :
  (size (dom (files w) ∪ dirs w) < fuel)%nat ->
  let base := (os_path_splitext file_path).1 in
  let ext := (os_path_splitext file_path).2 in
  exists p,
    get_unique_filename fuel w file_path = Some p
    /\ path_exists w p = false
    /\ (path_exists w file_path = false -> p = file_path)
    /\ (path_exists w file_path = true ->
        exists k, (1 <= k)%nat
          /\ p = numbered_path base ext k
          /\ forall j, (1 <= j < k)%nat ->
                       path_exists w (numbered_path base ext j) = true).
Proof.
  intros Hsize base ext. unfold get_unique_filename.
  destruct (path_exists w file_path) eqn:E; cbn [negb].
  - destruct (os_path_splitext file_path) as [b e] eqn:Es.
    cbn [fst snd] in *. subst base ext.
    destruct (unique_filename_loop_spec w b e fuel 1
                (numbered_path_free w b e fuel 1 Hsize))
      as (k & Hk & Hloop & Hfree & Hbelow).
    exists (numbered_path b e k). split; [done|]. split; [done|].
    split; [done|]. intros _. by exists k.
  - exists file_path. split; [done|]. split; [done|]. split; [done|]. done.
Qed.

Lemma get_unique_filename_fresh_witness :
  let w := World {[ py "out/doc.txt" := py "a"; py "out/doc_1.txt" := py "b" ]}
             {[ py "out" ]} ∅ in
  get_unique_filename 4 w (py "out/doc.txt") = Some (py "out/doc_2.txt")
  /\ exists p, get_unique_filename 4 w (py "out/doc.txt") = Some p
               /\ path_exists w p = false.
Proof.
  intros w. split; [by vm_compute|].
  destruct (get_unique_filename_fresh 4 w (py "out/doc.txt"))
    as (p & Hp & Hfree & _).
  { by vm_compute. }
  by exists p.
Defined.

(** ** Reading and writing lines (utils.py) *)

Lemma write_text_inv (s s1 : io_state) (p data : str) :
  write_text s p data = Some s1 ->
  files (disk s1)
  = <[p := default [] (files (disk s) !! p) ++ data]> (files (disk s))
  /\ dirs (disk s1) = dirs (disk s)
  /\ unreadable (disk s1) = unreadable (disk s).
Proof.
  unfold write_text, spend. destruct s as [w [[|n]|]]; simpl; [done|..];
    by intros [= <-].
Qed.

Lemma open_write_inv (s s1 : io_state) (p : str) :
  open_write s p = Some s1 ->
  files (disk s1) = <[p := []]> (files (disk s))
  /\ dirs (disk s1) = dirs (disk s)
  /\ unreadable (disk s1) = unreadable (disk s)
  /\ p ∉ dirs (disk s).
Proof.
  unfold open_write, spend, path_isdir.
  destruct s as [w [[|n]|]]; simpl; [done|..];
    case_bool_decide; try done; by intros [= <-].
Qed.

Lemma makedirs_exist_ok_inv (s s1 : io_state) (d : str) :
  makedirs_exist_ok s d = Some s1 ->
  d <> []
  /\ files (disk s1) = files (disk s)
  /\ unreadable (disk s1) = unreadable (disk s)
  /\ dirs (disk s1) = {[d]} ∪ dirs (disk s).
Proof.
  unfold makedirs_exist_ok, path_isdir, path_isfile, spend.
  destruct d as [|c d]; [done|]. cbn [truthy negb].
  case_bool_decide as Hd.
  { intros [= <-]. repeat split; try done. set_solver. }
  case_bool_decide; [done|].
  destruct s as [w [[|n]|]]; simpl; [done|..]; by intros [= <-].
Qed.

Lemma writelines_inv (lines : list str) (s s' : io_state) (p old : str) :
  writelines s p lines = (true, s') ->
  files (disk s) !! p = Some old ->
  files (disk s') = <[p := old ++ concat lines]> (files (disk s))
  /\ dirs (disk s') = dirs (disk s)
  /\ unreadable (disk s') = unreadable (disk s).
Proof.
  revert s old. induction lines as [|l lines IH]; intros s old; simpl.
  { intros [= <-] Hold. rewrite app_nil_r. by rewrite insert_id. }
  destruct (write_text s p l) as [s1|] eqn:E; [|done]. intros Hw Hold.
  apply write_text_inv in E as (Hf & Hd & Hu).
  destruct (IH s1 (old ++ l) Hw) as (Hf' & Hd' & Hu').
  { by rewrite Hf, Hold, lookup_insert_eq. }
  rewrite Hf', Hf, insert_insert_eq, <- app_assoc.
  split; [done|]. split; congruence.
Qed.

(** [os.makedirs] is given the directory part of the path, also when
    that part is empty. *)
Lemma write_file_lines_no_directory (s : io_state) (file_path : str)
    (lines : list str) :
  slash ∉ file_path -> write_file_lines s file_path lines = (false, s).
Proof.
  intros H. unfold write_file_lines, os_path_dirname.
  by rewrite rfind_char_absent.
Qed.

(** [write_file_lines] makes the directory of the path first, and
    [os.makedirs] raises on the empty path: a path without a directory in
    front of the file name is never written. *)
Theorem write_file_lines_bare_name (s : io_state) (file_path : str)
    (lines : list str) :
  slash ∉ file_path -> write_file_lines s file_path lines = (false, s).
Proof. exact (write_file_lines_no_directory s file_path lines). Qed.

Lemma write_file_lines_bare_name_witness :
  let s := IO (one_file (py "old.txt") (py "x")) None in
  write_file_lines s (py "doc.txt") [py "a"] = (false, s).
Proof.
  intros s. apply write_file_lines_bare_name.
  apply (bool_decide_unpack _). by vm_compute.
Defined.

Lemma write_file_lines_inv (s s' : io_state) (file_path : str)
    (lines : list str) :
  write_file_lines s file_path lines = (true, s') ->
  files (disk s') = <[file_path := concat lines]> (files (disk s))
  /\ unreadable (disk s') = unreadable (disk s)
  /\ dirs (disk s') = {[os_path_dirname file_path]} ∪ dirs (disk s)
  /\ os_path_dirname file_path <> []
  /\ file_path ∉ dirs (disk s).
Proof.
  unfold write_file_lines.
  destruct (makedirs_exist_ok s _) as [s1|] eqn:E1; [|done].
  destruct (open_write s1 file_path) as [s2|] eqn:E2; [|done].
  intros Hw.
  apply makedirs_exist_ok_inv in E1 as (Hne & Hf1 & Hu1 & Hd1).
  apply open_write_inv in E2 as (Hf2 & Hd2 & Hu2 & Hnd).
  destruct (writelines_inv lines s2 s' file_path [] Hw) as (Hf & Hd & Hu).
  { by rewrite Hf2, lookup_insert_eq. }
  rewrite Hf, Hf2, insert_insert_eq, Hf1. cbn [app].
  split; [done|]. split; [congruence|]. split; [congruence|].
  split; [done|]. set_solver.
Qed.

(** What [write_file_lines] wrote, [read_file_lines] reads: the file holds
    the lines one after the other and nothing else changed; lines that each
    end in their only newline (the last one may have none) and hold no
    carriage return come back as they were, and [count_lines_in_file]
    counts them. *)
Theorem write_read_file_lines (s s' : io_state) (file_path : str)
    (lines : list str) :
  write_file_lines s file_path lines = (true, s') ->
  files (disk s') !! file_path = Some (concat lines)
  /\ (forall q, q <> file_path -> files (disk s') !! q = files (disk s) !! q)
  /\ ((file_path ∉ unreadable (disk s)) ->
      (carriage_return ∉ concat lines) ->
      lines_ok lines ->
      read_file_lines (disk s') file_path = lines
      /\ count_lines_in_file (disk s') file_path = Z.of_nat (length lines)).
Proof.
  intros Hw.
  apply write_file_lines_inv in Hw as (Hf & Hu & _).
  assert (Hlook : files (disk s') !! file_path = Some (concat lines)).
  { by rewrite Hf, lookup_insert_eq. }
  split; [done|]. split.
  { intros q Hq. by rewrite Hf, lookup_insert_ne. }
  intros Hr _ Hok.
  assert (Hread : read_file_lines (disk s') file_path
                  = readlines (concat lines)).
  { unfold read_file_lines, path_exists. rewrite Hlook, Hu.
    rewrite bool_decide_eq_true_2 by done. cbn [orb negb].
    by rewrite bool_decide_eq_false_2. }
  rewrite Hread, readlines_of_lines by done. split; [done|].
  unfold count_lines_in_file, path_exists, open_read. rewrite Hlook, Hu.
  rewrite bool_decide_eq_true_2 by done. cbn [orb negb].
  rewrite bool_decide_eq_false_2 by done.
  by rewrite readlines_of_lines.
Qed.

Lemma write_read_file_lines_witness :
  let s := IO (one_file (py "old.txt") (py "x")) None in
  let lines := [py "a" ++ [newline]; py "b"] in
  exists s',
    write_file_lines s (py "out/doc.txt") lines = (true, s')
    /\ read_file_lines (disk s') (py "out/doc.txt") = lines.
Proof.
  intros s lines. eexists. split; [by vm_compute|].
  refine (proj1 (proj2 (proj2
            (write_read_file_lines s _ (py "out/doc.txt") lines _)) _ _ _)).
  - by vm_compute.
  - apply not_elem_of_empty.
  - apply (bool_decide_unpack _). by vm_compute.
  - apply lines_ok_cons.
    + exists (py "a"). split; [done|].
      apply (bool_decide_unpack _). by vm_compute.
    + apply lines_ok_last. split; [done|].
      apply (bool_decide_unpack _). by vm_compute.
Defined.

Lemma read_lines_loop_take (max_lines : Z) (todo : list str) (i : Z)
    (lines : list str) :
  0 <= i ->
  read_lines_loop max_lines todo i lines
  = lines ++ take (Z.to_nat (max_lines - i)) todo.
Proof.
  revert i lines. induction todo as [|line todo IH]; intros i lines Hi; simpl.
  { by rewrite take_nil, app_nil_r. }
  rewrite Z.geb_leb. destruct (max_lines <=? i) eqn:E.
  - apply Z.leb_le in E. replace (Z.to_nat (max_lines - i)) with 0%nat by lia.
    by rewrite app_nil_r.
  - apply Z.leb_gt in E. rewrite IH by lia. rewrite <- app_assoc.
    replace (Z.to_nat (max_lines - i)) with (S (Z.to_nat (max_lines - (i + 1))))
      by lia.
    done.
Qed.

(** With [max_lines] given, [read_file_lines] returns the first
    [max_lines] lines of what it returns without (none when [max_lines] is
    zero or negative); [count_lines_in_file] is the number of lines
    [read_file_lines] returns, 0 for a path that cannot be read. *)
Theorem read_file_lines_max_take (w : world) (file_path : str) :
  read_file_lines_max w file_path None = read_file_lines w file_path
  /\ (forall max_lines,
        read_file_lines_max w file_path (Some max_lines)
        = take (Z.to_nat max_lines) (read_file_lines w file_path))
  /\ count_lines_in_file w file_path
     = Z.of_nat (length (read_file_lines w file_path)).
Proof.
  unfold read_file_lines_max, read_file_lines, count_lines_in_file, open_read.
  destruct (path_exists w file_path); cbn [negb].
  2:{ split; [done|]. split; [|done]. intros m. by rewrite take_nil. }
  case_bool_decide.
  { destruct (files w !! file_path); (split; [done|]); (split; [|done]);
      intros m; by rewrite take_nil. }
  destruct (files w !! file_path) as [content|].
  2:{ split; [done|]. split; [|done]. intros m. by rewrite take_nil. }
  split; [done|]. split; [|done]. intros m.
  rewrite read_lines_loop_take by done. by rewrite Z.sub_0_r.
Qed.

Lemma read_file_lines_max_take_witness :
  read_file_lines_max (one_file (py "doc.txt") (numbered_lines 5))
    (py "doc.txt") (Some 2)
  = [py "1" ++ [newline]; py "2" ++ [newline]].
Proof.
  destruct (read_file_lines_max_take
              (one_file (py "doc.txt") (numbered_lines 5)) (py "doc.txt"))
    as (_ & H & _).
  rewrite H. by vm_compute.
Defined.

(** ** Backups (utils.py) *)

(** [create_backup_file] returns [None] and touches nothing for a path that
    is not a readable file.  When it returns a path, that is
    [file_path.backup_<timestamp>]; the copy holds the content of the file
    (inside that path when the path is a directory), and no other file
    changed: the original is still there. *)
Theorem create_backup_file_copy (timestamp : str) (s : io_state)
    (file_path : str) :
  let backup_path := file_path ++ py ".backup_" ++ timestamp in
  let copy :=
    if path_isdir (disk s) backup_path
    then os_path_join backup_path (os_path_basename file_path)
    else backup_path in
  (validate_file_path (disk s) file_path = false ->
   create_backup_file timestamp s file_path = (None, s))
  /\ (forall b s',
        create_backup_file timestamp s file_path = (Some b, s') ->
        b = backup_path
        /\ copy <> file_path
        /\ exists content,
            files (disk s) !! file_path = Some content
            /\ files (disk s') !! copy = Some content
            /\ files (disk s') !! file_path = Some content
            /\ forall q, q <> copy ->
                         files (disk s') !! q = files (disk s) !! q).
Proof.
  intros backup_path copy. unfold create_backup_file.
  split; [by intros ->|]. intros b s'.
  destruct (validate_file_path (disk s) file_path); [|done]. cbn [negb].
  unfold shutil_copy2. fold backup_path. fold copy.
  case_bool_decide as Hsame; [done|].
  unfold open_read. case_bool_decide; [done|].
  destruct (files (disk s) !! file_path) as [content|] eqn:Hc; [|done].
  destruct (open_write s copy) as [s1|] eqn:E1; [|done].
  destruct (write_text s1 copy content) as [s2|] eqn:E2; [|done].
  intros [= <- <-].
  apply open_write_inv in E1 as (Hf1 & _).
  apply write_text_inv in E2 as (Hf2 & _).
  split; [done|]. split; [done|]. exists content.
  assert (Hfiles : files (disk s2) = <[copy := content]> (files (disk s))).
  { rewrite Hf2, Hf1, lookup_insert_eq, insert_insert_eq. done. }
  rewrite Hfiles. split; [done|]. split; [by rewrite lookup_insert_eq|].
  split; [by rewrite lookup_insert_ne|].
  intros q Hq. by rewrite lookup_insert_ne.
Qed.

Lemma create_backup_file_copy_witness :
  let s := IO (one_file (py "in/doc.txt") (py "Hello")) None in
  let run := create_backup_file (py "20240101_120000") s (py "in/doc.txt") in
  files (disk run.2) !! py "in/doc.txt.backup_20240101_120000"
  = Some (py "Hello")
  /\ files (disk run.2) !! py "in/doc.txt" = Some (py "Hello").
Proof.
  intros s run.
  destruct (create_backup_file_copy (py "20240101_120000") s
              (py "in/doc.txt")) as [_ H].
  destruct (H (py "in/doc.txt.backup_20240101_120000") run.2)
    as (_ & _ & content & Hc & Hcopy & Hsame & _); [by vm_compute|].
  assert (content = py "Hello") as ->.
  { vm_compute in Hc. by injection Hc. }
  split; [exact Hcopy|exact Hsame].
Defined.

(** ** Loading a file to translate (translation_manager.py) *)

Lemma drop_while_suffix {A} (f : A -> bool) (l : list A) :
  drop_while f l `suffix_of` l.
Proof.
  induction l as [|x l IH]; simpl; [done|].
  destruct (f x); [by apply suffix_cons_r|done].
Qed.

Lemma drop_while_fixed {A} (f : A -> bool) (l : list A) :
  drop_while f (drop_while f l) = drop_while f l.
Proof.
  induction l as [|x l IH]; simpl; [done|].
  destruct (f x) eqn:E; [done|]. simpl. by rewrite E.
Qed.

Lemma rstrip_chars_prefix (chars : list ascii) (s : str) :
  rstrip_chars chars s `prefix_of` s.
Proof.
  unfold rstrip_chars.
  destruct (drop_while_suffix (fun c => bool_decide (c ∈ chars)) (reverse s))
    as [k Hk].
  rewrite <- (reverse_involutive s) at 2. rewrite Hk at 2.
  rewrite reverse_app. by apply prefix_app_r.
Qed.

Lemma rstrip_chars_idemp (chars : list ascii) (s : str) :
  rstrip_chars chars (rstrip_chars chars s) = rstrip_chars chars s.
Proof.
  unfold rstrip_chars. by rewrite reverse_involutive, drop_while_fixed.
Qed.

Lemma rstrip_chars_snoc (chars : list ascii) (s : str) (c : ascii) :
  c ∈ chars -> rstrip_chars chars (s ++ [c]) = rstrip_chars chars s.
Proof.
  intros Hc. unfold rstrip_chars. rewrite reverse_app. simpl.
  by rewrite bool_decide_eq_true_2.
Qed.

(** A line of a file without its line end is a single line. *)
Lemma rstrip_line_single (l : str) :
  terminated l \/ unterminated l ->
  single_line (rstrip_chars [newline; carriage_return] l).
Proof.
  intros Hl. split; [|apply rstrip_chars_idemp].
  destruct Hl as [(body & -> & Hb)|[_ Hl]].
  - rewrite rstrip_chars_snoc by set_solver.
    intros Hin. apply Hb.
    destruct (rstrip_chars_prefix [newline; carriage_return] body) as [r Hr].
    rewrite Hr. set_solver.
  - intros Hin. apply Hl.
    destruct (rstrip_chars_prefix [newline; carriage_return] l) as [r Hr].
    rewrite Hr. set_solver.
Qed.

Lemma lines_ok_each (ls : list str) :
  lines_ok ls -> Forall (fun l => terminated l \/ unterminated l) ls.
Proof.
  induction 1 as [|l Hl|l ls Hl _ IH].
  - constructor.
  - constructor; [by right|constructor].
  - constructor; [by left|done].
Qed.

Lemma loaded_lines_spec (raw : list str) :
  loaded_lines raw
  = imap (fun i line =>
            fresh_line i (rstrip_chars [newline; carriage_return] line)) raw.
Proof. done. Qed.

Lemma validate_file_path_spec (w : world) (p : str) :
  validate_file_path w p = true
  <-> p <> [] /\ is_Some (files w !! p) /\ p ∉ unreadable w.
Proof.
  unfold validate_file_path, access_read, path_exists, path_isfile.
  rewrite !andb_true_iff, orb_true_iff, !bool_decide_eq_true.
  destruct p; simpl; split; intros; destruct_and?; repeat split; auto;
    congruence.
Qed.

(** What [load_from_file] returns, for the proofs about saving. *)
Lemma load_from_file_entries (w : world) (path : str) (d : translation_data) :
  (validate_file_path w path = false -> load_from_file w path d = (false, d))
  /\ (validate_file_path w path = true ->
      exists d',
        load_from_file w path d = (true, d')
        /\ file_path d' = Some path
        /\ get_line_count d' = count_lines_in_file w path
        /\ (forall i,
              lines d' !! i
              = (fun line =>
                   fresh_line i (rstrip_chars [newline; carriage_return] line))
                  <$> read_file_lines w path !! i)
        /\ Forall (fun l => single_line (original l)) (lines d')).
Proof.
  unfold load_from_file. split; [by intros ->|]. intros Hv. rewrite Hv.
  cbn [negb]. eexists. split; [done|]. cbn [file_path lines].
  split; [done|].
  pose proof Hv as Hv'.
  apply validate_file_path_spec in Hv' as (Hne & [content Hc] & Hr).
  assert (Hread : read_file_lines w path = readlines content).
  { unfold read_file_lines, path_exists. rewrite Hc.
    rewrite bool_decide_eq_true_2 by done. cbn [orb negb].
    by rewrite bool_decide_eq_false_2. }
  split.
  { unfold get_line_count, count_lines_in_file, loaded_lines, path_exists,
      open_read. cbn [lines]. rewrite length_imap, Hread, Hc.
    rewrite bool_decide_eq_true_2 by done. cbn [orb negb].
    by rewrite bool_decide_eq_false_2. }
  split.
  { intros i. rewrite loaded_lines_spec, list_lookup_imap.
    by destruct (read_file_lines w path !! i). }
  rewrite loaded_lines_spec, Hread. apply Forall_lookup.
  intros i l. rewrite list_lookup_imap.
  destruct (readlines content !! i) as [line|] eqn:E; [|done].
  intros [= <-]. cbn [original fresh_line]. apply rstrip_line_single.
  pose proof (lines_ok_each _ (readlines_ok content)) as Hall.
  rewrite Forall_lookup in Hall. by apply (Hall i).
Qed.

(** [load_from_file] refuses a path that is not a readable file and then
    leaves the data as they were.  Otherwise there is one entry for each
    line of the file, numbered from 1, holding the line without its line
    end, not translated, pending and not skipped; the text of an entry
    holds no newline and ends in no line end. *)
Theorem load_from_file_lines (w : world) (path : str) (d : translation_data) :
  (validate_file_path w path = false -> load_from_file w path d = (false, d))
  /\ (validate_file_path w path = true ->
      exists d',
        load_from_file w path d = (true, d')
        /\ file_path d' = Some path
        /\ get_line_count d' = count_lines_in_file w path
        /\ (forall i,
              lines d' !! i
              = (fun line =>
                   fresh_line i (rstrip_chars [newline; carriage_return] line))
                  <$> read_file_lines w path !! i)
        /\ Forall (fun l => single_line (original l)) (lines d')).
Proof. exact (load_from_file_entries w path d). Qed.

(** ** What the operations of TranslationData keep (translation_manager.py) *)

Lemma valid_index_spec (d : translation_data) (line_index : Z) (k : nat) :
  valid_index d line_index = Some k
  <-> 0 <= line_index < Z.of_nat (length (lines d))
      /\ k = Z.to_nat line_index.
Proof.
  unfold valid_index.
  destruct (0 <=? line_index) eqn:E1; destruct (line_index <? _) eqn:E2;
    cbn [andb]; try apply Z.leb_le in E1; try apply Z.leb_gt in E1;
    try apply Z.ltb_lt in E2; try apply Z.ltb_ge in E2;
    split; try (intros [= <-]); try (intros [? ->]); try done; try lia.
Qed.

Lemma load_from_file_lines_witness :
  let w := one_file (py "doc.txt") (numbered_lines 3) in
  exists d,
    load_from_file w (py "doc.txt") translation_data_init = (true, d)
    /\ get_line_count d = 3
    /\ Forall (fun l => single_line (original l)) (lines d).
Proof.
  intros w.
  destruct (load_from_file_lines w (py "doc.txt") translation_data_init)
    as [_ H].
  destruct H as (d & Hd & _ & Hcount & _ & Hsingle); [by vm_compute|].
  exists d. split; [done|]. split; [|done]. rewrite Hcount. by vm_compute.
Defined.

Lemma valid_index_none (d : translation_data) (line_index : Z) :
  valid_index d line_index = None
  <-> ~ (0 <= line_index < Z.of_nat (length (lines d))).
Proof.
  destruct (valid_index d line_index) as [k|] eqn:E.
  - apply valid_index_spec in E as [H _]. split; [done|]. by intros [].
  - split; [|done]. intros _ H.
    assert (valid_index d line_index = Some (Z.to_nat line_index)) as H'
      by by apply valid_index_spec.
    congruence.
Qed.

(** An invariant of the entries, by position: it holds of the entries
    [load_from_file] makes and the two updates keep it. *)
Lemma run_ops_invariant (P : nat -> translation_line -> Prop) :
  (forall i line, terminated line \/ unterminated line ->
     P i (fresh_line i (rstrip_chars [newline; carriage_return] line))) ->
  (forall i l t, P i l ->
     P i (TranslationLine (line_number l) (original l) t
            (truthy (strip t))
            (if truthy (strip t) then completed else pending)
            (skip_translation l))) ->
  (forall i l, P i l ->
     P i (TranslationLine (line_number l) (original l) (translated l)
            (is_translated l)
            (if negb (skip_translation l) then skipped
             else if is_translated l then completed else pending)
            (negb (skip_translation l)))) ->
  forall w ops i l, lines (run_ops w ops) !! i = Some l -> P i l.
Proof.
  intros Hload Htr Htog w ops. unfold run_ops.
  assert (H0 : forall i l, lines translation_data_init !! i = Some l -> P i l)
    by done.
  revert H0. generalize translation_data_init.
  induction ops as [|o ops IH]; intros d Hd; [exact Hd|].
  cbn [foldl]. apply IH. clear IH. intros i l.
  destruct o as [path|k t|k]; cbn [run_op].
  - unfold load_from_file.
    destruct (validate_file_path w path) eqn:Hv; cbn [negb snd];
      [|apply Hd].
    cbn [lines]. rewrite loaded_lines_spec, list_lookup_imap.
    destruct (read_file_lines w path !! i) as [line|] eqn:E; [|done].
    intros [= <-]. apply Hload.
    apply validate_file_path_spec in Hv as (_ & [content Hc] & Hr).
    assert (Hread : read_file_lines w path = readlines content).
    { unfold read_file_lines, path_exists. rewrite Hc.
      rewrite bool_decide_eq_true_2 by done. cbn [orb negb].
      by rewrite bool_decide_eq_false_2. }
    rewrite Hread in E.
    pose proof (lines_ok_each _ (readlines_ok content)) as Hall.
    rewrite Forall_lookup in Hall. by apply (Hall i).
  - unfold translate_line.
    destruct (valid_index d k) as [j|]; cbn [snd lines]; [|apply Hd].
    rewrite list_lookup_alter. case_decide as Hj; [|apply Hd]. subst j.
    destruct (lines d !! i) as [l0|] eqn:E; [|done].
    intros [= <-]. apply Htr. by apply Hd.
  - unfold toggle_skip_translation.
    destruct (valid_index d k) as [j|]; cbn [snd lines]; [|apply Hd].
    rewrite list_lookup_alter. case_decide as Hj; [|apply Hd]. subst j.
    destruct (lines d !! i) as [l0|] eqn:E; [|done].
    intros [= <-]. apply Htog. by apply Hd.
Qed.

(** After any sequence of [load_from_file], [translate_line] and
    [toggle_skip_translation] the entries are numbered 1, 2, ... in order,
    the original text of an entry is a single line, and its status is
    sound: it is the status of the two flags, unless the entry is skipped
    and was given a translation since; then it is completed or pending.
    The second case does occur. *)
Theorem translation_data_invariant (w : world) (ops : list data_op) :
  (forall i l, lines (run_ops w ops) !! i = Some l ->
     line_number l = Z.of_nat i + 1
     /\ single_line (original l)
     /\ status_sound l
     /\ (status l = skipped -> skip_translation l = true)
     /\ (skip_translation l = false -> status l = status_of_flags l))
  /\ exists w' ops' l,
       l ∈ lines (run_ops w' ops')
       /\ skip_translation l = true /\ status l = completed.
Proof.
  split.
  - apply (run_ops_invariant
             (fun i l => line_number l = Z.of_nat i + 1
                         /\ single_line (original l)
                         /\ status_sound l
                         /\ (status l = skipped -> skip_translation l = true)
                         /\ (skip_translation l = false ->
                             status l = status_of_flags l))).
    + intros i line Hl. cbn. split; [done|].
      split; [by apply rstrip_line_single|].
      split; [by left|]. done.
    + intros i l t (Hn & Hs & Hst & Hsk & Hfl). cbn.
      split; [done|]. split; [done|].
      unfold status_sound, status_of_flags. cbn.
      destruct (skip_translation l), (truthy (strip t)); cbn;
        repeat split; auto; try done.
    + intros i l (Hn & Hs & Hst & Hsk & Hfl). cbn.
      split; [done|]. split; [done|].
      unfold status_sound, status_of_flags. cbn.
      destruct (skip_translation l), (is_translated l); cbn;
        repeat split; auto; try done.
  - exists (one_file (py "doc.txt") (py "Hello")),
      [OpLoad (py "doc.txt"); OpToggleSkip 0; OpTranslate 0 (py "x")].
    eexists. split; [|split].
    + vm_compute. apply list_elem_of_here.
    + done.
    + done.
Qed.

Lemma translation_data_invariant_witness :
  let d := run_ops (one_file (py "doc.txt") (numbered_lines 3))
             [OpLoad (py "doc.txt"); OpToggleSkip 1;
              OpTranslate 1 (py "x")] in
  exists l,
    lines d !! 1%nat = Some l /\ line_number l = 2 /\ status_sound l
    /\ status l <> status_of_flags l.
Proof.
  intros d.
  destruct (translation_data_invariant
              (one_file (py "doc.txt") (numbered_lines 3))
              [OpLoad (py "doc.txt"); OpToggleSkip 1;
               OpTranslate 1 (py "x")]) as [H _].
  destruct (lines d !! 1%nat) as [l|] eqn:E; [|by vm_compute in E].
  exists l. destruct (H 1%nat l E) as (Hn & _ & Hs & _).
  split; [done|]. split; [done|]. split; [done|].
  vm_compute in E. injection E as <-. by vm_compute.
Defined.

(** ** Skipping, translating and counting (translation_manager.py) *)

(** Toggling the skip flag of an entry twice gives back its flag and its
    texts; its status becomes the status of its flags, so an entry whose
    status was that already is exactly as before.  An index outside
    [0 .. len - 1] is refused and nothing changes. *)
Theorem toggle_skip_translation_twice (line_index : Z) (d : translation_data) :
  (0 <= line_index < get_line_count d ->
   let once := toggle_skip_translation line_index d in
   let twice := toggle_skip_translation line_index once.2 in
   once.1 = true /\ twice.1 = true
   /\ twice.2 = TranslationData
                  (alter with_status_of_flags (Z.to_nat line_index) (lines d))
                  (file_path d)
   /\ (forall l, lines d !! Z.to_nat line_index = Some l ->
                 status l = status_of_flags l -> twice.2 = d))
  /\ (~ (0 <= line_index < get_line_count d) ->
      toggle_skip_translation line_index d = (false, d)).
Proof.
  unfold get_line_count. split.
  - intros Hi. cbv zeta. unfold toggle_skip_translation.
    assert (valid_index d line_index = Some (Z.to_nat line_index)) as ->
      by by apply valid_index_spec.
    cbn [fst snd].
    match goal with
    | |- context [valid_index ?d' line_index] =>
        assert (valid_index d' line_index = Some (Z.to_nat line_index)) as ->
    end.
    { apply valid_index_spec. cbn [lines]. by rewrite length_alter. }
    cbn [fst snd lines file_path]. split; [done|]. split; [done|].
    rewrite list_alter_alter_eq.
    match goal with
    | |- context [alter ?g (Z.to_nat line_index) (lines d)] =>
        assert (Hext : alter g (Z.to_nat line_index) (lines d)
                       = alter with_status_of_flags (Z.to_nat line_index)
                           (lines d))
    end.
    { apply list_alter_ext; [|done]. intros l _. cbn.
      unfold with_status_of_flags, status_of_flags.
      by destruct l as [n o t [] st []]. }
    split; [by rewrite Hext|]. intros l Hl Hst. rewrite Hext.
    destruct d as [ls fp]. cbn [lines file_path] in *. f_equal.
    apply list_eq. intros j. rewrite list_lookup_alter.
    case_decide as Hj; [|done]. subst j. rewrite Hl. cbn.
    unfold with_status_of_flags. rewrite <- Hst. by destruct l.
  - intros Hi. unfold toggle_skip_translation.
    by rewrite (proj2 (valid_index_none d line_index)).
Qed.

Lemma toggle_skip_translation_twice_witness :
  let d := (load_from_file (one_file (py "doc.txt") (py "Hello"))
              (py "doc.txt") translation_data_init).2 in
  (toggle_skip_translation 0 (toggle_skip_translation 0 d).2).2 = d.
Proof.
  intros d.
  destruct (toggle_skip_translation_twice 0 d) as [H _].
  destruct H as (_ & _ & _ & H); [by vm_compute|].
  by apply (H (fresh_line 0 (py "Hello"))).
Defined.




Lemma elem_of_lines_to_translate (d : translation_data) (j : Z) :
  j ∈ get_lines_to_translate d
  <-> 0 <= j /\ exists l, lines d !! Z.to_nat j = Some l
                          /\ to_translate l = true.
Proof.
  unfold get_lines_to_translate. rewrite list_elem_of_fmap. split.
  - intros ([i l] & -> & Hin). apply list_elem_of_filter in Hin as [Hp Hin].
    apply elem_of_lookup_imap in Hin as (i' & l' & [= -> ->] & Hl).
    cbn [fst snd] in *. split; [lia|]. exists l'.
    rewrite Nat2Z.id. split; [done|]. by apply Is_true_true.
  - intros (Hj & l & Hl & Hp). exists (Z.to_nat j, l). cbn [fst].
    split; [lia|]. apply list_elem_of_filter. cbn [snd].
    split; [by apply Is_true_true|].
    apply elem_of_lookup_imap. by exists (Z.to_nat j), l.
Qed.



Lemma length_filter_alter {A} (P : A -> Prop) `{!forall x, Decision (P x)}
    (f : A -> A) (l : list A) (i : nat) (x : A) :
  l !! i = Some x ->
  (length (filter P (alter f i l)) + (if decide (P x) then 1 else 0)
   = length (filter P l) + (if decide (P (f x)) then 1 else 0))%nat.
Proof.
  revert i. induction l as [|y l IH]; intros i Hi; [done|].
  destruct i as [|i]; cbn in Hi.
  - injection Hi as ->. cbn [alter list_alter]. rewrite !filter_cons.
    destruct (decide (P x)), (decide (P (f x))); cbn [length]; lia.
  - cbn [alter list_alter]. rewrite !filter_cons.
    specialize (IH i Hi). change (list_alter f i l) with (alter f i l).
    destruct (decide (P y)); cbn [length]; lia.
Qed.

(** A line that has been given a translation that is not blank is no
    longer among the lines to translate, and the other lines are there as
    before; the number of translated lines grows by one when the line was
    not translated before, and the number of skipped lines stays.  An index
    outside [0 .. len - 1] is refused and nothing changes. *)
Theorem translate_line_done (line_index : Z) (translated_text : str)
    (d : translation_data) :
  (0 <= line_index < get_line_count d ->
   strip translated_text <> [] ->
   exists l d',
     lines d !! Z.to_nat line_index = Some l
     /\ translate_line line_index translated_text d = (true, d')
     /\ (line_index ∉ get_lines_to_translate d')
     /\ (forall j, j <> line_index ->
           j ∈ get_lines_to_translate d' <-> j ∈ get_lines_to_translate d)
     /\ get_line_count d' = get_line_count d
     /\ get_skipped_count d' = get_skipped_count d
     /\ get_translated_count d'
        = get_translated_count d + (if is_translated l then 0 else 1))
  /\ (~ (0 <= line_index < get_line_count d) ->
      translate_line line_index translated_text d = (false, d)).
Proof.
  unfold get_line_count. split.
  2:{ intros Hi. unfold translate_line.
      by rewrite (proj2 (valid_index_none d line_index)). }
  intros Hi Ht. unfold translate_line.
  assert (valid_index d line_index = Some (Z.to_nat line_index)) as ->
    by by apply valid_index_spec.
  destruct (lines d !! Z.to_nat line_index) as [l|] eqn:Hl.
  2:{ apply lookup_ge_None in Hl. lia. }
  apply truthy_nonempty in Ht. rewrite Ht.
  exists l. eexists. split; [done|]. split; [done|].
  set (f := fun l0 => TranslationLine (line_number l0) (original l0)
                        translated_text true completed (skip_translation l0)).
  split.
  { rewrite elem_of_lines_to_translate. cbn [lines].
    intros (_ & l' & Hl' & Hp). rewrite list_lookup_alter_eq, Hl in Hl'.
    injection Hl' as <-. unfold to_translate in Hp. cbn in Hp.
    by rewrite andb_false_r in Hp. }
  split.
  { intros j Hj. rewrite !elem_of_lines_to_translate. cbn [lines].
    destruct (decide (0 <= j)) as [Hj0|]; [|split; intros []; lia].
    rewrite list_lookup_alter_ne by lia. done. }
  cbn [lines]. split; [by rewrite length_alter|].
  unfold get_skipped_count, get_translated_count. cbn [lines].
  pose proof (length_filter_alter (fun l => skip_translation l) f
                _ _ _ Hl) as Hs.
  pose proof (length_filter_alter (fun l => is_translated l) f
                _ _ _ Hl) as Htr.
  cbn in Hs, Htr.
  split.
  - destruct (decide (skip_translation l)); lia.
  - destruct (is_translated l); cbn in Htr;
      repeat (destruct (decide _) in Htr; try done); lia.
Qed.

Lemma translate_line_done_witness :
  let d := (load_from_file (one_file (py "doc.txt") (py "Hello"))
              (py "doc.txt") translation_data_init).2 in
  get_lines_to_translate d = [0]
  /\ exists d', translate_line 0 (py "x") d = (true, d')
                /\ (0 ∉ get_lines_to_translate d')
                /\ get_translated_count d' = get_translated_count d + 1.
Proof.
  intros d. split; [by vm_compute|].
  destruct (translate_line_done 0 (py "x") d) as [H _].
  destruct H as (l & d' & Hl & Htr & Hout & _ & _ & _ & Hcount);
    [by vm_compute|by vm_compute|].
  exists d'. split; [done|]. split; [done|].
  rewrite Hcount. vm_compute in Hl. by injection Hl as <-.
Defined.

(** ** Saving the translation (translation_manager.py) *)

Lemma rfind_char_present (c : ascii) (s : str) :
  c ∈ s -> is_Some (rfind_char c s).
Proof.
  induction s as [|x s IH]; [by intros ?%elem_of_nil|].
  intros [Heq|Hin]%elem_of_cons; simpl.
  - destruct (rfind_char c s); [done|]. by rewrite bool_decide_eq_true_2.
  - destruct (IH Hin) as [i ->]. done.
Qed.

Lemma os_path_dirname_empty (p : str) :
  os_path_dirname p = [] <-> slash ∉ p.
Proof.
  unfold os_path_dirname. split.
  - intros H Hin. apply rfind_char_present in Hin as [i Hi].
    rewrite Hi in H. destruct i as [|i]; [done|].
    apply rfind_char_lt in Hi. destruct p; [simpl in Hi; lia|done].
  - intros H. by rewrite rfind_char_absent.
Qed.

(** Whatever becomes of the backup, the file itself and the permissions
    stay as they are. *)
Lemma create_backup_file_keeps (timestamp : str) (s : io_state)
    (file_path : str) :
  let s' := (create_backup_file timestamp s file_path).2 in
  files (disk s') !! file_path = files (disk s) !! file_path
  /\ unreadable (disk s') = unreadable (disk s).
Proof.
  unfold create_backup_file.
  destruct (validate_file_path (disk s) file_path); cbn [negb]; [|done].
  unfold shutil_copy2.
  set (copy := if path_isdir (disk s) _ then _ else _).
  case_bool_decide as Hsame; [done|].
  destruct (open_read (disk s) file_path) as [content|]; [|done].
  destruct (open_write s copy) as [s1|] eqn:E1; [|done].
  apply open_write_inv in E1 as (Hf1 & _ & Hu1 & _).
  destruct (write_text s1 copy content) as [s2|] eqn:E2; cbn [snd].
  - apply write_text_inv in E2 as (Hf2 & _ & Hu2).
    rewrite Hf2, Hf1, !lookup_insert_ne by done. split; congruence.
  - rewrite Hf1, lookup_insert_ne by done. done.
Qed.

Lemma terminated_lines_ok (texts : list str) :
  Forall (fun t => newline ∉ t) texts ->
  lines_ok ((fun t => t ++ [newline]) <$> texts).
Proof.
  induction 1 as [|t texts Ht _ IH]; [constructor|].
  rewrite fmap_cons. apply lines_ok_cons; [|done]. by exists t.
Qed.

Lemma rstrip_chars_clean (chars : list ascii) (t : str) :
  Forall (fun c => c ∉ chars) t -> rstrip_chars chars t = t.
Proof.
  intros H. unfold rstrip_chars.
  destruct (reverse t) as [|c r] eqn:E.
  { apply (f_equal reverse) in E. by rewrite reverse_involutive in E. }
  cbn [drop_while]. rewrite bool_decide_eq_false_2.
  - by rewrite <- E, reverse_involutive.
  - rewrite Forall_forall in H. apply H. rewrite <- elem_of_reverse, E.
    by left.
Qed.

Lemma plain_line_single (t : str) : plain_line t -> single_line t.
Proof.
  intros [Hn Hc]. split; [done|]. apply rstrip_chars_clean.
  apply Forall_forall. intros c Hin Hc'.
  apply elem_of_cons in Hc' as [->|Hc']; [done|].
  apply elem_of_cons in Hc' as [->|Hc']; [done|].
  by apply elem_of_nil in Hc'.
Qed.

(** What a successful [save_to_file] leaves, for the proofs about
    loading again. *)
Lemma save_to_file_result (timestamp : str) (s s' : io_state)
    (path : option str) (d : translation_data) :
  save_to_file timestamp s path d = (true, s') ->
  exists target_file,
    save_target path d = Some target_file
    /\ slash ∈ target_file
    /\ files (disk s') !! target_file
       = Some (concat (output_line <$> lines d))
    /\ ((target_file ∉ unreadable (disk s)) ->
        Forall (fun l => plain_line (saved_text l)) (lines d) ->
        forall d0,
          load_from_file (disk s') target_file d0
          = (true, TranslationData
                     (imap (fun i l => fresh_line i (saved_text l)) (lines d))
                     (Some target_file))).
Proof.
  unfold save_to_file.
  destruct (save_target path d) as [target|]; [|done].
  destruct (truthy target) eqn:Hne; cbn [negb]; [|done].
  set (s1 := if bool_decide _ then _ else s). intros Hw.
  exists target. split; [done|].
  apply write_file_lines_inv in Hw as (Hf & Hu & _ & Hdir & _).
  split.
  { destruct (decide (slash ∈ target)) as [|Hno]; [done|].
    by apply os_path_dirname_empty in Hno. }
  assert (Hlook : files (disk s') !! target
                  = Some (concat (output_line <$> lines d))).
  { by rewrite Hf, lookup_insert_eq. }
  split; [done|]. intros Hr Hall d0.
  assert (Hu1 : unreadable (disk s1) = unreadable (disk s)).
  { subst s1. case_bool_decide; [|done].
    apply create_backup_file_keeps. }
  unfold load_from_file.
  assert (validate_file_path (disk s') target = true) as ->.
  { apply validate_file_path_spec. split; [by destruct target|].
    split; [by rewrite Hlook|]. congruence. }
  cbn [negb]. f_equal. f_equal.
  assert (Hread : read_file_lines (disk s') target
                  = output_line <$> lines d).
  { unfold read_file_lines, path_exists. rewrite Hlook.
    rewrite bool_decide_eq_true_2 by done. cbn [orb negb].
    rewrite bool_decide_eq_false_2 by congruence.
    replace (output_line <$> lines d)
      with ((fun t => t ++ [newline]) <$> (saved_text <$> lines d))
      by (by rewrite <- list_fmap_compose).
    apply readlines_of_lines, terminated_lines_ok.
    apply Forall_fmap. eapply Forall_impl; [exact Hall|].
    by intros l [Hl _]. }
  rewrite Hread, loaded_lines_spec. apply list_eq. intros i.
  rewrite !list_lookup_imap, list_lookup_fmap.
  destruct (lines d !! i) as [l|] eqn:E; [|done]. cbn. f_equal. f_equal.
  rewrite Forall_lookup in Hall.
  unfold output_line. rewrite rstrip_chars_snoc by set_solver.
  by apply plain_line_single, (Hall i l E).
Qed.

(** When [save_to_file] returns [True] the file it went to holds one line
    for each entry: the translation where the entry has one, the original
    text otherwise; the path has a directory part.  If these texts hold no
    line end of either kind and the file may be read, loading it gives one
    fresh entry for each of these texts. *)
Theorem save_to_file_written (timestamp : str) (s s' : io_state)
    (path : option str) (d : translation_data) :
  save_to_file timestamp s path d = (true, s') ->
  exists target_file,
    save_target path d = Some target_file
    /\ slash ∈ target_file
    /\ files (disk s') !! target_file
       = Some (concat (output_line <$> lines d))
    /\ ((target_file ∉ unreadable (disk s)) ->
        Forall (fun l => plain_line (saved_text l)) (lines d) ->
        forall d0,
          load_from_file (disk s') target_file d0
          = (true, TranslationData
                     (imap (fun i l => fresh_line i (saved_text l)) (lines d))
                     (Some target_file))).
Proof. exact (save_to_file_result timestamp s s' path d). Qed.

Lemma save_to_file_written_witness :
  let s := IO (one_file (py "in/doc.txt") (py "Hello")) None in
  let d := (translate_line 0 (py "Hi")
              (load_from_file (disk s) (py "in/doc.txt")
                 translation_data_init).2).2 in
  exists s',
    save_to_file (py "20240101_120000") s (Some (py "out/doc.txt")) d
    = (true, s')
    /\ files (disk s') !! py "out/doc.txt" = Some (py "Hi" ++ [newline]).
Proof.
  intros s d. eexists. split; [by vm_compute|].
  destruct (save_to_file_written (py "20240101_120000") s _
              (Some (py "out/doc.txt")) d eq_refl)
    as (t & Ht & _ & Hf & _).
  injection Ht as <-. exact Hf.
Defined.

(** Loading a file, saving the entries as they are and loading what was
    saved gives the same entries, for a file whose text holds no carriage
    return. *)
Theorem load_save_load (timestamp : str) (s s' : io_state)
    (input_file : str) (path : option str) (d0 d : translation_data) :
  load_from_file (disk s) input_file d0 = (true, d) ->
  Forall (fun l => carriage_return ∉ original l) (lines d) ->
  save_to_file timestamp s path d = (true, s') ->
  forall target_file,
    save_target path d = Some target_file ->
    target_file ∉ unreadable (disk s) ->
    load_from_file (disk s') target_file d
    = (true, TranslationData (lines d) (Some target_file)).
Proof.
  intros Hload Hcr Hsave target Htarget Hr.
  destruct (save_to_file_result _ _ _ _ _ Hsave) as (t & Ht & _ & _ & Hback).
  rewrite Htarget in Ht. injection Ht as <-.
  destruct (load_from_file_entries (disk s) input_file d0) as [Hno Hyes].
  destruct (validate_file_path (disk s) input_file) eqn:Hv.
  2:{ rewrite Hno in Hload by done. done. }
  destruct (Hyes eq_refl) as (d' & Hd' & _ & _ & Hlines & Hsingle).
  rewrite Hload in Hd'. injection Hd' as <-.
  assert (Hsaved : forall i l, lines d !! i = Some l ->
                               l = fresh_line i (saved_text l)).
  { intros i l Hl. rewrite Hlines in Hl.
    destruct (read_file_lines (disk s) input_file !! i); [|done].
    by injection Hl as <-. }
  rewrite Hback; [|done|].
  - f_equal. f_equal. apply list_eq. intros i. rewrite list_lookup_imap.
    destruct (lines d !! i) as [l|] eqn:E; [|done]. cbn.
    by rewrite <- (Hsaved i l E).
  - apply Forall_lookup. intros i l Hl.
    rewrite Forall_lookup in Hsingle, Hcr.
    destruct (Hsingle i l Hl) as [H1 _]. pose proof (Hcr i l Hl) as H2.
    rewrite (Hsaved i l Hl) in H1, H2 |- *. by split.
Qed.

Lemma load_save_load_witness :
  let s := IO (one_file (py "in/doc.txt") (numbered_lines 3)) None in
  let d := (load_from_file (disk s) (py "in/doc.txt")
              translation_data_init).2 in
  let s' := (save_to_file (py "20240101_120000") s (Some (py "out/doc.txt"))
               d).2 in
  load_from_file (disk s') (py "out/doc.txt") d
  = (true, TranslationData (lines d) (Some (py "out/doc.txt"))).
Proof.
  intros s d s'.
  apply (load_save_load (py "20240101_120000") s s' (py "in/doc.txt")
           (Some (py "out/doc.txt")) translation_data_init d).
  - by vm_compute.
  - apply (bool_decide_unpack _). by vm_compute.
  - by vm_compute.
  - done.
  - apply not_elem_of_empty.
Defined.

(** Data that came from a path without a directory part cannot be saved
    back: [save_to_file()] returns [False] and the file is as it was; what
    it leaves behind is the backup it made first. *)
Theorem save_to_file_bare_name (timestamp : str) (s : io_state)
    (p : str) (d : translation_data) :
  file_path d = Some p -> slash ∉ p ->
  let s' := (create_backup_file timestamp s p).2 in
  save_to_file timestamp s None d = (false, s')
  /\ files (disk s') !! p = files (disk s) !! p
  /\ (validate_file_path (disk s) p = true -> budget s = None ->
      let backup := p ++ py ".backup_" ++ timestamp in
      path_exists (disk s) backup = false ->
      files (disk s') !! backup = files (disk s) !! p).
Proof.
  intros Hp Hbare s'. unfold save_to_file, save_target. rewrite Hp.
  destruct (truthy p) eqn:Hne; cbn [negb].
  - rewrite bool_decide_eq_true_2 by done. fold s'.
    rewrite write_file_lines_no_directory by done.
    split; [done|]. split; [apply create_backup_file_keeps|].
    cbv zeta. intros Hv Hb Hfree. subst s'. unfold create_backup_file.
    rewrite Hv. cbn [negb]. unfold shutil_copy2.
    set (backup := p ++ py ".backup_" ++ timestamp) in *.
    apply orb_false_iff in Hfree as [Hnf Hnd].
    unfold path_isdir. rewrite Hnd.
    apply validate_file_path_spec in Hv as (_ & [content Hc] & Hr).
    rewrite bool_decide_eq_false_2.
    2:{ intros Heq. apply (f_equal length) in Heq.
        subst backup. rewrite !length_app in Heq. simpl in Heq. lia. }
    unfold open_read. rewrite bool_decide_eq_false_2 by done. rewrite Hc.
    destruct s as [[f dd u] b]. cbn [budget disk files dirs unreadable] in *.
    subst b. rewrite open_write_free.
    2:{ by apply bool_decide_eq_false in Hnd. }
    rewrite write_text_free. cbn [snd disk files].
    by rewrite lookup_insert_eq, lookup_insert_eq.
  - destruct p; [|done].
    split; [|split].
    + unfold s', create_backup_file. done.
    + done.
    + intros Hv. by apply validate_file_path_spec in Hv as (? & _).
Qed.

Lemma save_to_file_bare_name_witness :
  let s := IO (one_file (py "doc.txt") (py "Hello")) None in
  let d := (translate_line 0 (py "Hi")
              (load_from_file (disk s) (py "doc.txt")
                 translation_data_init).2).2 in
  let result := save_to_file (py "20240101_120000") s None d in
  result.1 = false
  /\ files (disk result.2) !! py "doc.txt" = Some (py "Hello")
  /\ files (disk result.2) !! py "doc.txt.backup_20240101_120000"
     = Some (py "Hello").
Proof.
  intros s d result.
  destruct (save_to_file_bare_name (py "20240101_120000") s (py "doc.txt") d)
    as (Hres & Hsame & Hbackup).
  - done.
  - apply (bool_decide_unpack _). by vm_compute.
  - subst result. rewrite Hres. cbn [fst snd]. split; [done|].
    split; [by rewrite Hsame|].
    etrans; [|exact (eq_refl : files (disk s) !! py "doc.txt"
                               = Some (py "Hello"))].
    apply Hbackup; by vm_compute.
Defined.

(** ** The last engine of the chain (translation_manager.py) *)





(** ** The two ways to translate after a separator *)

(** The engines other than Gemini cut the text themselves, and cut it as
    [TextProtector] does for Gemini: the text sent to the backend is the
    one [handle_separator_prefix_translation] selects, and an answer that
    is taken is joined to the prefix as
    [restore_separator_prefix_translation] joins it. *)
Theorem separator_paths_agree (call : backend)
    (text source_lang target_lang separator : str) :
  contains separator text = true ->
  let prepared := handle_separator_prefix_translation text separator in
  let result :=
    try_plain call text source_lang target_lang true separator in
  (prepared.2 = false -> result = (Returns text, []))
  /\ (prepared.2 = true ->
      result.2 = [prepared.1]
      /\ match call prepared.1 source_lang target_lang with
         | Raises => result.1 = Raises
         | Returns translated =>
             result.1
             = Returns (if truthy translated
                           && negb (str_eqb translated prepared.1)
                        then restore_separator_prefix_translation text
                               translated separator
                        else text)
         end).
Proof.
  unfold contains, handle_separator_prefix_translation, try_plain,
    restore_separator_prefix_translation.
  destruct (find_from separator text 0) as [i|]; [|done]. intros _.
  cbv zeta.
  destruct (truthy (strip (drop (i + length separator) text))) eqn:E;
    cbn [negb fst snd].
  - split; [done|]. intros _.
    destruct (call _ source_lang target_lang) as [|translated];
      cbn [fst snd]; [done|].
    destruct (truthy translated && _); [|done].
    by destruct (negb (endswith (py " ") _)).
  - split; [done|]. done.
Qed.

Lemma separator_paths_agree_witness :
  try_plain simple_translate (py "name: Hello") (py "en") (py "th") true
    (py ":")
  = (Returns (restore_separator_prefix_translation (py "name: Hello")
                (py "สวัสดี") (py ":")), [py "Hello"]).
Proof.
  destruct (separator_paths_agree simple_translate (py "name: Hello")
              (py "en") (py "th") (py ":")) as [_ H]; [by vm_compute|].
  destruct H as [H1 H2]; [by vm_compute|].
  destruct (try_plain _ _ _ _ _ _) as [r sent]. cbn [fst snd] in *.
  rewrite H1. vm_compute in H2. rewrite H2. by vm_compute.
Defined.

(** ** Splitting: the number of lines asked for and the folder *)

Lemma split_loop_one_line (output_prefix output_dir : str)
    (lines_per_file : Z) (todo : list str) (st : loop_state) (s : io_state) :
  lines_per_file <= 1 -> current_lines st = 0%nat ->
  split_loop output_prefix output_dir lines_per_file todo st s
  = split_loop output_prefix output_dir 1 todo st s.
Proof.
  intros HL. revert st s. induction todo as [|line todo IH]; intros st s Hc;
    [done|].
  cbn [split_loop]. rewrite Hc. cbn [Nat.eqb].
  destruct (open_write s _) as [s1|]; [|done]. cbn [outfile current_lines].
  destruct (write_text s1 _ line) as [s2|]; [|done].
  cbn [file_number output_files].
  assert ((Z.of_nat 1 >=? lines_per_file) = true) as ->
    by (rewrite Z.geb_leb; apply Z.leb_le; lia).
  assert ((Z.of_nat 1 >=? 1) = true) as -> by done.
  by apply IH.
Qed.

(** [split_text_file] does not refuse a number of lines below 1: with zero
    or a negative number every line gets a part of its own, as with 1. *)
Theorem split_nonpositive_lines (timestamp : str) (s : io_state)
    (input_file : str) (lines_per_file : Z) (output_prefix : option str)
    (create_folder : bool) :
  lines_per_file <= 1 ->
  split_text_file timestamp s input_file lines_per_file output_prefix
    create_folder
  = split_text_file timestamp s input_file 1 output_prefix create_folder.
Proof.
  intros HL. unfold split_text_file.
  destruct (path_exists (disk s) input_file); cbn [negb]; [|done].
  destruct (if create_folder then _ else _) as [w1|]; [|done].
  destruct (open_read w1 input_file) as [content|]; [|done].
  by rewrite split_loop_one_line.
Qed.

Lemma split_nonpositive_lines_witness :
  let s := IO (one_file (py "doc.txt") (numbered_lines 3)) None in
  (split_text_file (py "20240101_120000") s (py "doc.txt") (-5) None
     false).1
  = Return (SplitOk [py "doc_part_001.txt"; py "doc_part_002.txt";
                     py "doc_part_003.txt"] None).
Proof.
  intros s. rewrite (split_nonpositive_lines _ s _ (-5)) by lia.
  by vm_compute.
Defined.

(** Besides [FileNotFoundError] for an input that does not exist,
    [split_text_file] raises [FileExistsError]: exactly when the input
    exists, a folder is asked for and a regular file has the name of the
    folder.  Whenever it raises, the file system is as it was. *)
Theorem split_raises (timestamp : str) (s : io_state) (input_file : str)
    (lines_per_file : Z) (output_prefix : option str) (create_folder : bool) :
  let run :=
    split_text_file timestamp s input_file lines_per_file output_prefix
      create_folder in
  let prefix := default (path_stem input_file) output_prefix in
  let folder := split_folder input_file prefix timestamp in
  (run.1 = Raise FileExistsError
   <-> path_exists (disk s) input_file = true
       /\ create_folder = true
       /\ path_isdir (disk s) folder = false
       /\ path_isfile (disk s) folder = true)
  /\ (forall e, run.1 = Raise e -> run.2 = s).
Proof.
  intros run prefix folder. subst run. unfold split_text_file.
  fold prefix. fold folder.
  destruct (path_exists (disk s) input_file); cbn [negb fst snd].
  2:{ split; [|done]. split; [done|]. by intros [? _]. }
  destruct create_folder.
  - unfold mkdir_exist_ok.
    destruct (path_isdir (disk s) folder) eqn:Hd.
    + destruct (open_read (disk s) input_file) as [content|].
      * destruct (split_loop _ _ _ _ _ _) as [[st|] s2]; cbn [fst snd];
          (split; [|done]); (split; [done|]); by intros (_ & _ & ? & _).
      * cbn [fst snd]. split; [|done]. split; [done|].
        by intros (_ & _ & ? & _).
    + destruct (path_isfile (disk s) folder) eqn:Hf.
      * cbn [fst snd]. split; [|done]. done.
      * destruct (open_read _ input_file) as [content|].
        -- destruct (split_loop _ _ _ _ _ _) as [[st|] s2]; cbn [fst snd];
             (split; [|done]); (split; [done|]); by intros (_ & _ & _ & ?).
        -- cbn [fst snd]. split; [|done]. split; [done|].
           by intros (_ & _ & _ & ?).
  - destruct (open_read (disk s) input_file) as [content|].
    + destruct (split_loop _ _ _ _ _ _) as [[st|] s2]; cbn [fst snd];
        (split; [|done]); (split; [done|]); by intros (_ & ? & _).
    + cbn [fst snd]. split; [|done]. split; [done|]. by intros (_ & ? & _).
Qed.

Lemma split_raises_witness :
  let s := IO (World {[ py "doc.txt" := numbered_lines 5;
                        py "doc_split_20240101_120000" := py "x" ]} ∅ ∅)
             None in
  split_text_file (py "20240101_120000") s (py "doc.txt") 2 None true
  = (Raise FileExistsError, s).
Proof.
  intros s.
  destruct (split_raises (py "20240101_120000") s (py "doc.txt") 2 None true)
    as [Hiff Hsame].
  destruct (split_text_file _ s _ 2 None true) as [r s'] eqn:E.
  cbn [fst snd] in *. f_equal.
  - apply Hiff. by vm_compute.
  - apply (Hsame FileExistsError). apply Hiff. by vm_compute.
Defined.

(** ** Merging: what the output holds *)



(** ** Joining a translation to its prefix (ai_translator.py) *)

Lemma space_prefix_none (spaces : list str) (s : str) :
  space_prefix spaces s = None
  <-> match s with
      | [] => True
      | c :: _ => ascii_space c = false
                  /\ forall w, w ∈ spaces -> startswith w s = false
      end.
Proof.
  unfold space_prefix. destruct s as [|c s]; [done|].
  destruct (ascii_space c); [split; [done|by intros []]|].
  destruct (List.find _ spaces) as [w|] eqn:E; simpl.
  - split; [done|]. intros [_ H]. apply List.find_some in E as [Hin Hw].
    apply list_elem_of_In in Hin. rewrite H in Hw by done. done.
  - split; [|done]. intros _. split; [done|]. intros w Hw.
    apply list_elem_of_In in Hw. by apply (List.find_none _ _ E) in Hw.
Qed.

Lemma lstrip_fixed_inv (s : str) :
  lstrip s = s -> space_prefix unicode_spaces s = None.
Proof. intros H. rewrite <- H. apply lstrip_done. Qed.

Lemma rstrip_fixed_inv (s : str) :
  rstrip s = s ->
  space_prefix (reverse <$> unicode_spaces) (reverse s) = None.
Proof. intros H. rewrite <- H. apply rstrip_done. Qed.

(** The bytes of the white space characters beyond ASCII. *)
Lemma unicode_spaces_high :
  Forall (Forall (fun b => 128 <= nat_of_ascii b)%nat) unicode_spaces.
Proof. apply (bool_decide_unpack _). by vm_compute. Qed.

Lemma unicode_spaces_continue :
  Forall (fun w => Forall (fun b => 128 <= nat_of_ascii b < 192)%nat
                     (removelast w))
    (reverse <$> unicode_spaces).
Proof. apply (bool_decide_unpack _). by vm_compute. Qed.

(** White space does not appear at the front of a text when an ASCII
    character is put behind a piece of its front. *)
Lemma space_prefix_front (text q z : str) (b : ascii) :
  q <> [] -> q `prefix_of` text ->
  space_prefix unicode_spaces text = None ->
  (nat_of_ascii b < 128)%nat ->
  space_prefix unicode_spaces (q ++ b :: z) = None.
Proof.
  intros Hq [r ->] Htext Hb. destruct q as [|c q]; [done|].
  apply space_prefix_none in Htext as [Hc Hall]. apply space_prefix_none.
  split; [done|]. intros w Hw.
  destruct (startswith w ((c :: q) ++ b :: z)) eqn:E; [|done]. exfalso.
  apply startswith_prefix in E as [t Ht].
  symmetry in Ht. apply app_eq_app in Ht as [l [[Hl1 Hl2]|[Hl1 Hl2]]].
  2:{ specialize (Hall w Hw).
      assert (startswith w ((c :: q) ++ r) = true); [|congruence].
      apply startswith_prefix. rewrite Hl1, <- app_assoc.
      by apply prefix_app_r. }
  - destruct l as [|b' l].
    + specialize (Hall w Hw).
      assert (startswith w ((c :: q) ++ r) = true); [|congruence].
      apply startswith_prefix. rewrite Hl1, app_nil_r. by apply prefix_app_r.
    + injection Hl2 as <- _.
      pose proof unicode_spaces_high as Hhigh.
      rewrite Forall_forall in Hhigh. specialize (Hhigh w Hw).
      rewrite Forall_forall in Hhigh.
      assert (128 <= nat_of_ascii b)%nat; [|lia].
      apply Hhigh. rewrite Hl1. apply elem_of_app. right. by left.
Qed.

(** White space does not appear at the end of a text when it is put behind
    another, if it starts at a character. *)
Lemma space_prefix_back (y tr : str) :
  tr <> [] -> starts_character tr ->
  space_prefix (reverse <$> unicode_spaces) (reverse tr) = None ->
  space_prefix (reverse <$> unicode_spaces) (reverse (y ++ tr)) = None.
Proof.
  intros Hne Hstart Htr. rewrite reverse_app.
  destruct (reverse tr) as [|c r] eqn:Hr.
  { apply (f_equal reverse) in Hr. rewrite reverse_involutive in Hr. done. }
  apply space_prefix_none in Htr as [Hc Hall]. apply space_prefix_none.
  cbn [app]. split; [done|]. intros w Hw.
  destruct (startswith w (c :: r ++ reverse y)) eqn:E; [|done]. exfalso.
  apply startswith_prefix in E as [t Ht].
  change (c :: r ++ reverse y) with ((c :: r) ++ reverse y) in Ht.
  symmetry in Ht. apply app_eq_app in Ht as [l [[Hl1 Hl2]|[Hl1 Hl2]]].
  2:{ specialize (Hall w Hw).
      assert (startswith w (c :: r) = true); [|congruence].
      apply startswith_prefix. rewrite Hl1. by apply prefix_app_r. }
  - destruct l as [|b' l].
    + specialize (Hall w Hw).
      assert (startswith w (c :: r) = true); [|congruence].
      apply startswith_prefix. by rewrite Hl1, app_nil_r.
    + pose proof unicode_spaces_continue as Hcont.
      rewrite Forall_forall in Hcont. specialize (Hcont w Hw).
      rewrite Hl1, removelast_app in Hcont by done.
      apply Forall_app in Hcont as [Hcont _].
      rewrite <- Hr in Hcont.
      destruct tr as [|x tr]; [done|]. rewrite reverse_cons in Hcont.
      apply Forall_app in Hcont as [_ Hx].
      apply (proj1 (Forall_singleton _ _)) in Hx.
      unfold starts_character in Hstart. cbv beta in Hx. lia.
Qed.

Lemma find_from_found (sub s : str) (i : nat) :
  find_from sub s 0 = Some i ->
  (i <= length s)%nat /\ startswith sub (drop i s) = true.
Proof.
  revert i. induction s as [|c s IH]; intros i; cbn [find_from].
  - destruct (startswith sub []) eqn:E; [|done]. by intros [= <-].
  - destruct (startswith sub (c :: s)) eqn:E.
    { intros [= <-]. split; [cbn [length]; lia|done]. }
    rewrite find_from_shift.
    destruct (find_from sub s 0) as [k|]; [|done]. intros [= <-].
    destruct (IH k eq_refl) as [Hk Hs]. cbn [length drop Nat.add].
    split; [lia|done].
Qed.

Lemma endswith_space (p : str) :
  endswith (py " ") p = true -> exists q, p = q ++ [" "%char].
Proof.
  unfold endswith. intros H. apply startswith_prefix in H as [r Hr].
  exists (reverse r). apply (f_equal reverse) in Hr.
  rewrite reverse_involutive in Hr. rewrite Hr, reverse_app. done.
Qed.

(** For a text that has no white space in front and a translation that is
    not empty, has no white space at its end and starts at a character,
    [restore_separator_prefix_translation] returns the prefix up to the
    separator as it is in the text, one blank if the prefix does not end in
    one, and the translation. *)
Theorem restore_separator_prefix_verbatim
    (original_text translated_suffix separator : str) (separator_index : nat) :
  find_from separator original_text 0 = Some separator_index ->
  separator <> [] ->
  lstrip original_text = original_text ->
  translated_suffix <> [] ->
  rstrip translated_suffix = translated_suffix ->
  starts_character translated_suffix ->
  let prefix :=
    take (separator_index + length separator) original_text in
  restore_separator_prefix_translation original_text translated_suffix
    separator
  = prefix ++ (if endswith (py " ") prefix then [] else py " ")
    ++ translated_suffix.
Proof.
  intros Hfind Hsep Hl Hne Hr Hstart prefix.
  unfold restore_separator_prefix_translation. rewrite Hfind. fold prefix.
  apply lstrip_fixed_inv in Hl. apply rstrip_fixed_inv in Hr.
  destruct (find_from_found _ _ _ Hfind) as [Hi Hs].
  assert (Hpre : prefix `prefix_of` original_text) by apply prefix_take.
  assert (Hpne : prefix <> []).
  { intros Hnil. apply (f_equal length) in Hnil. subst prefix.
    rewrite length_take in Hnil. cbn [length] in Hnil.
    apply startswith_prefix, prefix_length in Hs.
    rewrite length_drop in Hs. destruct separator; [done|].
    cbn [length] in *. lia. }
  destruct (endswith (py " ") prefix) eqn:E; cbn [negb app].
  - apply endswith_space in E as [q Hq].
    assert (Hqne : q <> []).
    { intros ->. cbn [app] in Hq. rewrite Hq in Hpre.
      destruct Hpre as [r Hr']. rewrite Hr' in Hl. done. }
    rewrite Hq, <- app_assoc. cbn [app].
    apply strip_fixed.
    + apply (space_prefix_front original_text); [done| |done|apply Nat.ltb_lt; by vm_compute].
      etrans; [|exact Hpre]. rewrite Hq. by apply prefix_app_r.
    + replace (q ++ " "%char :: translated_suffix)
        with ((q ++ [" "%char]) ++ translated_suffix)
        by by rewrite <- app_assoc.
      by apply space_prefix_back.
  - apply strip_fixed.
    + apply (space_prefix_front original_text); [done..|apply Nat.ltb_lt; by vm_compute].
    + replace (prefix ++ py " " ++ translated_suffix)
        with ((prefix ++ py " ") ++ translated_suffix)
        by by rewrite <- app_assoc.
      by apply space_prefix_back.
Qed.

Lemma restore_separator_prefix_verbatim_witness :
  restore_separator_prefix_translation (py "name: Hello") (py "สวัสดี")
    (py ":")
  = py "name: สวัสดี".
Proof.
  refine (restore_separator_prefix_verbatim (py "name: Hello") (py "สวัสดี")
            (py ":") 4 _ _ _ _ _ _).
  - by vm_compute.
  - done.
  - by vm_compute.
  - done.
  - by vm_compute.
  - vm_compute. right. lia.
Defined.

(** ** The answer of the model, cleaned (ai_translator.py) *)

Lemma split_go_pieces (sep : ascii) (cur s : str) :
  sep ∉ cur -> Forall (fun piece => sep ∉ piece) (split_go sep cur s).
Proof.
  revert cur. induction s as [|c s IH]; intros cur Hcur; cbn [split_go].
  - constructor; [|constructor]. by rewrite elem_of_reverse.
  - case_bool_decide as Hc.
    + constructor; [by rewrite elem_of_reverse|].
      apply IH, not_elem_of_nil.
    + apply IH. rewrite not_elem_of_cons. split; [congruence|done].
Qed.

Lemma split_go_last (sep : ascii) (cur a : str) :
  sep ∉ a -> split_go sep cur a = [reverse cur ++ a].
Proof.
  revert cur. induction a as [|c a IH]; intros cur Ha; cbn [split_go].
  - by rewrite app_nil_r.
  - apply not_elem_of_cons in Ha as [Hc Ha].
    rewrite bool_decide_eq_false_2 by congruence.
    rewrite IH by done. by rewrite reverse_cons, <- app_assoc.
Qed.

Lemma split_go_piece (sep : ascii) (cur a rest : str) :
  sep ∉ a ->
  split_go sep cur (a ++ sep :: rest)
  = (reverse cur ++ a) :: split_go sep [] rest.
Proof.
  revert cur. induction a as [|c a IH]; intros cur Ha; cbn [split_go app].
  - rewrite bool_decide_eq_true_2 by done. by rewrite app_nil_r.
  - apply not_elem_of_cons in Ha as [Hc Ha].
    rewrite bool_decide_eq_false_2 by congruence.
    rewrite IH by done. by rewrite reverse_cons, <- app_assoc.
Qed.

Lemma py_split_join (sep : ascii) (pieces : list str) :
  pieces <> [] -> Forall (fun piece => sep ∉ piece) pieces ->
  py_split sep (py_join [sep] pieces) = pieces.
Proof.
  unfold py_split. intros Hne Hall.
  induction Hall as [|piece pieces Hp Hall IH]; [done|].
  destruct pieces as [|piece' pieces].
  - cbn [py_join]. by rewrite split_go_last.
  - cbn [py_join app]. cbn [py_join] in IH.
    rewrite split_go_piece by done. cbn [reverse app]. f_equal.
    by apply IH.
Qed.

(** [_clean_translation_result] takes the code-fence markers out of the
    answer, strips it and keeps the lines that are not blank and not an
    annotation, each stripped.  When a line is kept, the lines of what it
    returns are the lines kept: none is empty, has white space at an end or
    is an annotation.  When no line is kept it returns the stripped answer
    as a whole, annotations included. *)
Theorem clean_translation_result_lines (result : str) :
  result <> [] ->
  let cleaned := clean_translation_result result in
  (kept_lines result = [] -> cleaned = without_fences result)
  /\ (kept_lines result <> [] ->
      py_split newline cleaned = kept_lines result
      /\ Forall (fun line => line <> [] /\ strip line = line
                             /\ is_annotation line = false)
           (py_split newline cleaned)).
Proof.
  intros Hne cleaned. subst cleaned. unfold clean_translation_result.
  destruct result as [|c result]; [done|]. cbn [truthy negb].
  fold (without_fences (c :: result)). fold (kept_lines (c :: result)).
  assert (Hkept : Forall (fun line => line <> [] /\ strip line = line
                                      /\ is_annotation line = false
                                      /\ newline ∉ line)
                    (kept_lines (c :: result))).
  { unfold kept_lines. apply Forall_forall. intros line Hin.
    apply list_elem_of_filter in Hin as [Hp Hin].
    apply Is_true_true, andb_true_iff in Hp as [Ha Ht].
    apply negb_true_iff in Ha. apply truthy_nonempty in Ht.
    apply list_elem_of_fmap in Hin as (piece & -> & Hpiece).
    split; [done|]. split; [apply strip_idemp|]. split; [done|].
    intros Hn. apply strip_sublist in Hn.
    pose proof (split_go_pieces newline [] (without_fences (c :: result))
                  (not_elem_of_nil _)) as Hall.
    rewrite Forall_forall in Hall. by apply (Hall piece). }
  destruct (kept_lines (c :: result)) as [|l ls] eqn:E.
  { split; [done|]. by intros []. }
  split; [done|]. intros _.
  assert (Hsplit : py_split newline (py_join [newline] (l :: ls)) = l :: ls).
  { apply py_split_join; [done|]. eapply Forall_impl; [exact Hkept|].
    by intros line (_ & _ & _ & ?). }
  rewrite Hsplit. split; [done|]. eapply Forall_impl; [exact Hkept|].
  intros line (? & ? & ? & _). done.
Qed.

Lemma clean_translation_result_lines_witness :
  let answer := py "```text
(note)
 hi there 
```" in
  clean_translation_result answer = py "hi there"
  /\ py_split newline (clean_translation_result answer) = kept_lines answer.
Proof.
  intros answer. split; [by vm_compute|].
  destruct (clean_translation_result_lines answer) as [_ H]; [done|].
  apply H. by vm_compute.
Defined.

(** ** A text that is protected as a whole (ai_translator.py) *)

(** A byte that is no white space and part of none: stripping stops at
    it. *)
Lemma lstrip_go_stops (spaces : list str) (x : ascii) (fuel : nat)
    (a b : str) :
  ascii_space x = false -> (forall w, w ∈ spaces -> x ∉ w) ->
  exists a', lstrip_go spaces fuel (a ++ x :: b) = a' ++ x :: b.
Proof.
  intros Hx Hw. revert a. induction fuel as [|fuel IH]; intros a.
  { by exists a. }
  cbn [lstrip_go].
  destruct (space_prefix spaces (a ++ x :: b)) as [n|] eqn:E;
    [|by exists a].
  assert (Hn : (n <= length a)%nat).
  { unfold space_prefix in E. destruct a as [|c a]; cbn [app] in E.
    - rewrite Hx in E.
      destruct (List.find _ spaces) as [w|] eqn:F; [|done].
      apply List.find_some in F as [Hin Hs]. apply list_elem_of_In in Hin.
      apply startswith_prefix in Hs as [t Ht].
      destruct w as [|y w]; [injection E as <-; simpl; lia|].
      injection Ht as -> _. exfalso. apply (Hw _ Hin). by left.
    - destruct (ascii_space c); [injection E as <-; simpl; lia|].
      destruct (List.find _ spaces) as [w|] eqn:F; [|done].
      injection E as <-.
      apply List.find_some in F as [Hin Hs]. apply list_elem_of_In in Hin.
      apply startswith_prefix in Hs as [t Ht].
      change (c :: a ++ x :: b) with ((c :: a) ++ x :: b) in Ht.
      destruct (decide (length w <= length (c :: a))%nat) as [|Hgt]; [done|].
      exfalso. apply (Hw _ Hin).
      apply (f_equal (fun l => l !! length (c :: a))) in Ht.
      rewrite list_lookup_middle in Ht by done.
      rewrite lookup_app_l in Ht by lia.
      symmetry in Ht. by apply list_elem_of_lookup_2 in Ht. }
  rewrite drop_app_le by done. apply IH.
Qed.

Lemma strip_keeps (x : ascii) (a m b : str) :
  ascii_space x = false ->
  (forall w, w ∈ unicode_spaces -> x ∉ w) ->
  exists a' b', strip (a ++ x :: m ++ x :: b) = a' ++ x :: m ++ x :: b'.
Proof.
  intros Hx Hw. unfold strip, lstrip.
  destruct (lstrip_go_stops unicode_spaces x
              (length (a ++ x :: m ++ x :: b)) a (m ++ x :: b) Hx Hw)
    as [a' ->].
  unfold rstrip.
  replace (reverse (a' ++ x :: m ++ x :: b))
    with (reverse b ++ x :: reverse (a' ++ x :: m)).
  2:{ change (a' ++ x :: m ++ x :: b) with (a' ++ (x :: m) ++ (x :: b)).
      rewrite app_assoc, (reverse_app (a' ++ x :: m) (x :: b)).
      rewrite reverse_cons, <- app_assoc. done. }
  assert (Hw' : forall w, w ∈ reverse <$> unicode_spaces -> x ∉ w).
  { intros w Hin Hxw. apply list_elem_of_fmap in Hin as (w0 & -> & Hin).
    rewrite elem_of_reverse in Hxw. by apply (Hw w0). }
  destruct (lstrip_go_stops (reverse <$> unicode_spaces) x
              (length (a' ++ x :: m ++ x :: b)) (reverse b)
              (reverse (a' ++ x :: m)) Hx Hw') as [b' ->].
  exists a', (reverse b').
  rewrite reverse_app, reverse_cons, reverse_involutive.
  by rewrite <- !app_assoc.
Qed.

Lemma entries_values (tp : text_protector) (c : nat) (items : list piece)
    (v : str) :
  v ∈ (entries tp c items).*2 ->
  exists a b, source items = a ++ v ++ b.
Proof.
  revert c. induction items as [|[ch|m] items IH]; intros c; cbn.
  - by intros ?%elem_of_nil.
  - intros Hv. destruct (IH c Hv) as (a & b & ->). by exists (ch :: a), b.
  - intros [->|Hv]%elem_of_cons.
    + by exists [], (source items).
    + destruct (IH (S c) Hv) as (a & b & ->). exists (m ++ a), b.
      by rewrite <- app_assoc.
Qed.

Lemma rendered_first_token (tp : text_protector) (c : nat)
    (items : list piece) :
  entries tp c items <> [] ->
  exists a j b, rendered tp c items = a ++ token tp j ++ b.
Proof.
  revert c. induction items as [|[ch|m] items IH]; intros c; cbn; [done| |].
  - intros H. destruct (IH c H) as (a & j & b & ->). by exists (ch :: a), j, b.
  - intros _. by exists [], (S c), (rendered tp (S c) items).
Qed.

(** The second byte of the sign of the tokens is no white space and part
    of none. *)
Lemma sign_is_hard :
  ascii_space (ascii_of_nat 167) = false
  /\ forall w, w ∈ unicode_spaces -> ascii_of_nat 167 ∉ w.
Proof.
  split; [done|]. intros w Hw.
  assert (Hall : Forall (fun w : str => ascii_of_nat 167 ∉ w) unicode_spaces).
  { apply (bool_decide_unpack _). by vm_compute. }
  rewrite Forall_forall in Hall. by apply Hall.
Qed.

(** What one pattern protects in a text without the word of the tokens:
    the protected text is not blank unless the text is, and stripped it is
    none of the texts taken out. *)
Lemma protected_text_not_a_value (tp : text_protector) (order : list str)
    (text : str) :
  standard_tokens tp ->
  order = [] \/ (exists name, order = [name]) ->
  contains token_body text = false ->
  strip text <> [] ->
  let '(protected, placeholders) := protect_text tp order text in
  strip protected <> [] /\ strip protected ∉ placeholders.*2.
Proof.
  intros Hstd Horder Hfree Hblank. unfold protect_text, protect_run.
  assert (Hsame : strip text <> [] /\ strip text ∉ ([] : list (str * str)).*2).
  { split; [done|]. apply not_elem_of_nil. }
  destruct (negb (truthy text) || bool_decide (enabled_patterns tp = ∅));
    [exact Hsame|].
  destruct Horder as [->|[name ->]]; [exact Hsame|].
  cbn [foldl]. unfold protect_step. cbn [fst snd].
  destruct (dict_get (patterns tp) name) as [r|]; [|exact Hsame].
  unfold re_sub.
  destruct (sub_go_pieces tp protect_flags r (2 * length text + 2) false None
              text (ProtectState [] 0) eq_refl) as (items & Hsrc & ->).
  cbn [placeholders placeholder_counter app].
  destruct (entries tp 0 items) as [|e es] eqn:He.
  { rewrite (entries_nil_rendered tp) by done. by rewrite Hsrc. }
  rewrite <- He.
  destruct (rendered_first_token tp 0 items) as (a & j & b & Hr);
    [by rewrite He|].
  rewrite Hr, (token_cons tp Hstd). unfold section_sign.
  change (py "§") with [sign_byte; ascii_of_nat 167].
  replace (a ++ (sign_byte :: ascii_of_nat 167 :: "P"%char :: py "ROTECTED_"
                 ++ str_of_nat j ++ [sign_byte; ascii_of_nat 167]) ++ b)
    with ((a ++ [sign_byte]) ++ ascii_of_nat 167
          :: (token_body ++ str_of_nat j ++ [sign_byte])
          ++ ascii_of_nat 167 :: b).
  2:{ rewrite <- !app_assoc. cbn [app]. rewrite <- !app_assoc. done. }
  destruct sign_is_hard as [Hx Hw].
  destruct (strip_keeps (ascii_of_nat 167) (a ++ [sign_byte])
              (token_body ++ str_of_nat j ++ [sign_byte]) b Hx Hw)
    as (a' & b' & ->).
  split; [intros Hnil; symmetry in Hnil; by apply app_cons_not_nil in Hnil|].
  intros Hin. apply entries_values in Hin as (a0 & b0 & Hv).
  rewrite Hsrc in Hv. rewrite Hv in Hfree.
  apply contains_false_app_r, contains_false_app_l in Hfree.
  assert (contains token_body
            (a' ++ ascii_of_nat 167
             :: (token_body ++ str_of_nat j ++ [sign_byte])
             ++ ascii_of_nat 167 :: b') = true); [|congruence].
  apply contains_true.
  exists (a' ++ [ascii_of_nat 167]),
    ((token_body ++ str_of_nat j ++ [sign_byte]) ++ ascii_of_nat 167 :: b').
  split; [by rewrite <- (app_assoc a')|].
  rewrite <- app_assoc. apply startswith_app.
Qed.

(** [translate_text] means to return at once a text that is protected as a
    whole, and tests for it whether the protected text is one of the texts
    taken out; but the protected text holds a placeholder and these do not.
    So, with one pattern at work and a text without the word of the
    placeholders: whatever is protected, the model is asked, once, with the
    protected text. *)
Theorem protected_text_is_sent (g : gemini_translator)
    (text custom_separator : str) :
  client_ready g = true ->
  standard_tokens (text_protector_of g) ->
  iteration_order (text_protector_of g) (pattern_order g) ->
  (size (enabled_patterns (text_protector_of g)) <= 1)%nat ->
  contains (py "PROTECTED_") text = false ->
  strip text <> [] ->
  (translate_text g text true false custom_separator).2
  = [build_user_message
       (protect_text (text_protector_of g) (pattern_order g) text).1].
Proof.
  intros Hready Hstd Horder Hsmall Hfree Hblank.
  pose proof (protected_text_not_a_value (text_protector_of g)
                (pattern_order g) text Hstd
                (iteration_order_small _ _ Horder Hsmall) Hfree Hblank) as Hp.
  unfold translate_text. rewrite Hready. cbn [negb].
  destruct text as [|c text]; [done|]. cbn [truthy negb orb].
  destruct (strip (c :: text)) eqn:Es; [done|]. cbn [truthy negb andb].
  destruct (protect_text _ _ (c :: text)) as [protected placeholders].
  destruct Hp as [Hne Hnot]. cbn [fst].
  destruct (strip protected) eqn:Ep; [done|]. cbn [truthy negb orb].
  rewrite bool_decide_eq_false_2 by done.
  by destruct (generate_content g _).
Qed.

Lemma protected_text_is_sent_witness :
  let g := GeminiTranslator true (fun message => ApiText message)
             (set_enabled_patterns [py "curly_braces"]
                (text_protector_init [])) [py "curly_braces"] in
  (translate_text g (py "{name}") true false (py ":")).2
  = [build_user_message (py "§PROTECTED_1§")].
Proof.
  intros g.
  rewrite (protected_text_is_sent g (py "{name}") (py ":")).
  - by vm_compute.
  - done.
  - done.
  - unfold iteration_order.
    assert (elements (enabled_patterns (text_protector_of g))
            = [py "curly_braces"]) as -> by by vm_compute.
    done.
  - by vm_compute.
  - by vm_compute.
  - by vm_compute.
Defined.

(** ** The pages of the translation tab (translation_manager.py) *)

Lemma update_grid_display_shows (d : translation_data) (v : page_view) :
  lines d <> [] -> 0 < lines_per_page v -> 1 <= current_page v ->
  shows_a_page d (update_grid_display d v).
Proof.
  intros Hne Hsize Hcur. unfold update_grid_display, shows_a_page.
  destruct (lines d) as [|l ls] eqn:E; [done|]. rewrite <- E in *.
  assert (Hlen : 0 < Z.of_nat (length (lines d))) by (rewrite E; simpl; lia).
  pose proof (total_pages_ceiling (Z.of_nat (length (lines d)))
                (lines_per_page v) ltac:(lia) Hsize) as Hceil.
  set (total := (calculate_pagination _ _).1) in *.
  assert (Htotal : 1 <= total) by nia.
  set (current := if (current_page v >? total) && (total >? 0) then total
                  else current_page v).
  assert (Hin : 1 <= current <= total).
  { subst current. destruct (current_page v >? total) eqn:E1;
      destruct (total >? 0) eqn:E2; cbn [andb]; lia. }
  cbn [lines_per_page total_pages current_page tree].
  split; [done|]. split; [done|]. split; [done|]. split; [done|].
  rewrite get_page_items_window by lia. intros Hnil.
  apply (f_equal length) in Hnil.
  rewrite length_take, length_drop in Hnil. cbn [length] in Hnil. nia.
Qed.

Lemma run_page_op_shows (d : translation_data) (v : page_view) (o : page_op) :
  lines d <> [] ->
  match o with SetPageSize size => 0 < size | _ => True end ->
  shows_a_page d v -> shows_a_page d (run_page_op d v o).
Proof.
  intros Hne Ho Hv. pose proof Hv as (Hsize & Htotal & Hcur & _).
  destruct o as [| | | |entry|size]; cbn [run_page_op].
  - apply update_grid_display_shows; [done..|]. cbn. lia.
  - unfold goto_last_page. destruct (total_pages v >? 0); [|done].
    apply update_grid_display_shows; [done..|]. cbn. lia.
  - unfold goto_prev_page. destruct (current_page v >? 1) eqn:E; [|done].
    apply update_grid_display_shows; [done..|]. cbn. lia.
  - unfold goto_next_page. destruct (current_page v <? _); [|done].
    apply update_grid_display_shows; [done..|]. cbn. lia.
  - unfold jump_to_page. destruct entry as [page|]; [|done].
    destruct (1 <=? page) eqn:E; cbn [andb]; [|done].
    destruct (page <=? total_pages v); [|done].
    apply update_grid_display_shows; [done..|]. cbn. lia.
  - unfold set_page_size. apply update_grid_display_shows; [done|done|].
    cbn. lia.
Qed.

(** Once [update_grid_display] has shown the first page of data that are
    not empty, the buttons of the page bar, in any order and with any page
    typed in, keep the tab on a page that exists: the page number is
    between 1 and the number of pages, that number is the one
    [calculate_pagination] gives for the page size, and the rows shown are
    those of [get_page_items] for the page, at least one. *)
Theorem page_navigation (d : translation_data) (v0 : page_view)
    (ops : list page_op) :
  lines d <> [] ->
  0 < lines_per_page v0 -> 1 <= current_page v0 ->
  positive_sizes ops ->
  shows_a_page d (foldl (run_page_op d) (update_grid_display d v0) ops).
Proof.
  intros Hne Hsize Hcur Hops.
  pose proof (update_grid_display_shows d v0 Hne Hsize Hcur) as Hv.
  revert Hv. generalize (update_grid_display d v0).
  induction Hops as [|o ops Ho Hops IH]; intros v Hv; [done|].
  cbn [foldl]. apply IH. by apply run_page_op_shows.
Qed.

Lemma page_navigation_witness :
  let d := (load_from_file (one_file (py "doc.txt") (numbered_lines 25))
              (py "doc.txt") translation_data_init).2 in
  let v := foldl (run_page_op d) (update_grid_display d page_view_init)
             [GotoLast; SetPageSize 50; GotoNext; JumpTo (Some 7)] in
  (current_page v, total_pages v) = (1, 1) /\ length (tree v) = 25%nat
  /\ shows_a_page d v.
Proof.
  intros d v. split; [by vm_compute|]. split; [by vm_compute|].
  apply page_navigation.
  - by vm_compute.
  - done.
  - done.
  - repeat constructor.
Defined.

(** ** Translating a list of lines (ai_translator.py) *)




(** ** The lines of the current page (translation_manager.py) *)

Lemma py_index_nat {A} (l : list A) (i : nat) :
  py_index l (Z.of_nat i) = l !! i.
Proof.
  unfold py_index.
  assert ((0 <=? Z.of_nat i) = true) as -> by (apply Z.leb_le; lia).
  by rewrite Nat2Z.id.
Qed.

Lemma py_range_seq (a m : nat) :
  py_range (Z.of_nat a) (Z.of_nat a + Z.of_nat m) = Z.of_nat <$> seq a m.
Proof.
  unfold py_range. replace (Z.of_nat a + Z.of_nat m - Z.of_nat a)
    with (Z.of_nat m) by lia.
  rewrite Nat2Z.id.
  replace (seq a m) with (Nat.add a <$> seq 0 m)
    by (rewrite fmap_add_seq; f_equal; lia).
  rewrite <- list_fmap_compose.
  apply list_fmap_ext. intros _ j _. cbn. lia.
Qed.

(** On a page that exists, the bounds of the page are those of the rows
    shown. *)
Lemma page_bounds_shown (d : translation_data) (v : page_view) :
  shows_a_page d v ->
  exists a m : nat,
    page_bounds d v = (Z.of_nat a, Z.of_nat a + Z.of_nat m)
    /\ (0 < m)%nat /\ (a + m <= length (lines d))%nat
    /\ tree v = take m (drop a (lines d)).
Proof.
  intros (Hsize & Htotal & Hcur & Htree & Hne).
  assert (Hlen : 0 < Z.of_nat (length (lines d))).
  { destruct (lines d); [|simpl; lia].
    rewrite Htree in Hne. unfold get_page_items, py_slice in Hne.
    destruct (_ || _); [done|]. by rewrite drop_nil, take_nil in Hne. }
  pose proof (total_pages_ceiling (Z.of_nat (length (lines d)))
                (lines_per_page v) ltac:(lia) Hsize) as Hceil.
  rewrite <- Htotal in Hceil.
  set (start := (current_page v - 1) * lines_per_page v).
  assert (Hstart : 0 <= start < Z.of_nat (length (lines d))) by (subst start; nia).
  exists (Z.to_nat start),
    (Z.to_nat (Z.min (start + lines_per_page v)
                 (Z.of_nat (length (lines d))) - start)).
  split; [|split; [lia|split; [lia|]]].
  - unfold page_bounds. fold start. f_equal; lia.
  - rewrite Htree, get_page_items_window by lia.
    replace (Z.to_nat (current_page v - 1) * Z.to_nat (lines_per_page v))%nat
      with (Z.to_nat start) by (subst start; nia).
    destruct (decide (start + lines_per_page v
                      <= Z.of_nat (length (lines d)))).
    + f_equal. lia.
    + rewrite !take_ge; [done|rewrite length_drop; lia..].
Qed.

Lemma lines_to_translate_from_cons (first : nat) (l : translation_line)
    (ls : list translation_line) :
  lines_to_translate_from first (l :: ls)
  = (if to_translate l then [Z.of_nat first] else [])
    ++ lines_to_translate_from (S first) ls.
Proof.
  unfold lines_to_translate_from. rewrite imap_cons, filter_cons.
  cbn [snd]. rewrite Nat.add_0_r.
  assert (imap ((fun i l0 => ((first + i)%nat, l0)) ∘ S) ls
          = imap (fun i l0 => ((S first + i)%nat, l0)) ls) as ->.
  { apply imap_ext. intros i x _. cbn. f_equal. lia. }
  destruct (to_translate l) eqn:E; destruct (decide _) as [H|H]; done.
Qed.

Lemma lines_to_translate_from_app (first : nat)
    (ls1 ls2 : list translation_line) :
  lines_to_translate_from first (ls1 ++ ls2)
  = lines_to_translate_from first ls1
    ++ lines_to_translate_from (first + length ls1) ls2.
Proof.
  revert first. induction ls1 as [|l ls1 IH]; intros first.
  { cbn [app length]. by rewrite Nat.add_0_r. }
  rewrite <- app_comm_cons, !lines_to_translate_from_cons, IH.
  rewrite <- app_assoc. cbn [length]. do 3 f_equal. lia.
Qed.

Lemma lines_to_translate_from_bounds (first : nat)
    (ls : list translation_line) (i : Z) :
  i ∈ lines_to_translate_from first ls ->
  Z.of_nat first <= i < Z.of_nat first + Z.of_nat (length ls).
Proof.
  unfold lines_to_translate_from. rewrite list_elem_of_fmap.
  intros ([j l] & -> & Hin). apply list_elem_of_filter in Hin as [_ Hin].
  apply elem_of_lookup_imap in Hin as (k & l' & [= -> ->] & Hl).
  apply lookup_lt_Some in Hl. cbn [fst]. lia.
Qed.

Lemma get_lines_to_translate_from (d : translation_data) :
  get_lines_to_translate d = lines_to_translate_from 0 (lines d).
Proof. done. Qed.

Lemma filter_all {A} (P : A -> Prop) `{!forall x, Decision (P x)}
    (l : list A) :
  (forall x, x ∈ l -> P x) -> filter P l = l.
Proof.
  induction l as [|x l IH]; intros Hall; [done|].
  rewrite filter_cons_True by (apply Hall; by left).
  rewrite IH; [done|]. intros y Hy. apply Hall. by right.
Qed.

Lemma filter_none {A} (P : A -> Prop) `{!forall x, Decision (P x)}
    (l : list A) :
  (forall x, x ∈ l -> ~ P x) -> filter P l = [].
Proof.
  induction l as [|x l IH]; intros Hall; [done|].
  rewrite filter_cons_False by (apply Hall; by left).
  apply IH. intros y Hy. apply Hall. by right.
Qed.

Lemma page_selection_loop_spec (ls : list translation_line) (m a : nat)
    (acc : list Z) (skipped_lines : Z) :
  (a + m <= length ls)%nat ->
  exists skipped_lines',
    page_selection_loop ls (Z.of_nat <$> seq a m) acc skipped_lines
    = Some (acc ++ lines_to_translate_from a (take m (drop a ls)),
            skipped_lines').
Proof.
  revert a acc skipped_lines.
  induction m as [|m IH]; intros a acc sk Hlen.
  { exists sk. cbn. by rewrite app_nil_r. }
  cbn [seq fmap list_fmap page_selection_loop]. rewrite py_index_nat.
  destruct (ls !! a) as [l|] eqn:El.
  2:{ apply lookup_ge_None in El. lia. }
  rewrite (drop_S _ _ _ El). cbn [take].
  rewrite lines_to_translate_from_cons. unfold to_translate at 1.
  destruct (skip_translation l); cbn [negb andb app].
  - apply IH. lia.
  - destruct (negb (is_translated l) && truthy (strip (original l))).
    + destruct (IH (S a) (acc ++ [Z.of_nat a]) sk ltac:(lia)) as [sk' ->].
      exists sk'. by rewrite <- app_assoc.
    + apply IH. lia.
Qed.

(** On a page that exists, [translate_current_page] hands to the batch the
    lines of [get_lines_to_translate] that are on the page, in the same
    order, when there is one and the question is answered with yes: page by
    page it translates what [translate_all_file] translates at once. *)
Theorem translate_current_page_lines (d : translation_data) (v : page_view)
    (confirmed : bool) :
  shows_a_page d v ->
  let on_this_page :=
    filter (fun i => on_page d v i) (get_lines_to_translate d) in
  translate_current_page d v confirmed
  = match on_this_page with
    | [] => NoBatch
    | _ :: _ => if confirmed then Batch on_this_page else NoBatch
    end
  /\ (get_lines_to_translate d <> [] ->
      translate_all_file d true = Batch (get_lines_to_translate d)).
Proof.
  intros Hv on_this_page.
  destruct (page_bounds_shown d v Hv) as (a & m & Hb & Hm & Hlen & Htree).
  assert (Hsel : on_this_page
                 = lines_to_translate_from a (take m (drop a (lines d)))).
  { subst on_this_page. rewrite get_lines_to_translate_from.
    rewrite <- (take_drop a (lines d)) at 1.
    rewrite <- (take_drop m (drop a (lines d))) at 1.
    rewrite !lines_to_translate_from_app, !filter_app.
    cbn [Nat.add]. rewrite length_take, Nat.min_l by lia.
    rewrite (filter_none _ (lines_to_translate_from 0 _)).
    2:{ intros i Hi Hp. apply lines_to_translate_from_bounds in Hi.
        rewrite length_take in Hi. unfold on_page in Hp. rewrite Hb in Hp.
        cbn [fst snd] in Hp. apply Is_true_true, andb_true_iff in Hp. lia. }
    rewrite (filter_all _ (lines_to_translate_from a _)).
    2:{ intros i Hi. apply lines_to_translate_from_bounds in Hi.
        rewrite length_take, length_drop in Hi. unfold on_page.
        rewrite Hb. cbn [fst snd]. apply Is_true_true, andb_true_iff. lia. }
    rewrite filter_none; [by rewrite app_nil_r|].
    intros i Hi Hp. apply lines_to_translate_from_bounds in Hi.
    rewrite length_take, length_drop in Hi. unfold on_page in Hp.
    rewrite Hb in Hp. cbn [fst snd] in Hp.
    apply Is_true_true, andb_true_iff in Hp. lia. }
  split.
  - unfold translate_current_page.
    destruct (lines d) as [|l0 ls0] eqn:E; [simpl in Hlen; lia|].
    rewrite <- E in *. rewrite Hb, py_range_seq.
    destruct (page_selection_loop_spec (lines d) m a [] 0 Hlen) as [sk ->].
    cbn [app]. by rewrite <- Hsel.
  - intros Hne. unfold translate_all_file.
    destruct (lines d) as [|l0 ls0] eqn:E; [by rewrite get_lines_to_translate_from, E in Hne|].
    by destruct (get_lines_to_translate d).
Qed.

Lemma translate_current_page_lines_witness :
  let d := (translate_line 11 (py "x")
              (load_from_file (one_file (py "doc.txt") (numbered_lines 25))
                 (py "doc.txt") translation_data_init).2).2 in
  let v := goto_next_page d (update_grid_display d page_view_init) in
  translate_current_page d v true = Batch [10; 12; 13; 14; 15; 16; 17; 18; 19].
Proof.
  intros d v.
  destruct (translate_current_page_lines d v true) as [H _].
  - change (shows_a_page d (run_page_op d
                              (update_grid_display d page_view_init)
                              GotoNext)).
    apply run_page_op_shows; [by vm_compute|done|].
    apply update_grid_display_shows; [by vm_compute|done|done].
  - rewrite H. by vm_compute.
Defined.

(** ** Skipping the lines of the current page (translation_manager.py) *)

Lemma with_skip_toggled (target : bool) (l : translation_line) :
  skip_translation l <> target ->
  TranslationLine (line_number l) (original l) (translated l)
    (is_translated l)
    (if negb (skip_translation l) then skipped
     else if is_translated l then completed else pending)
    (negb (skip_translation l))
  = with_skip target l.
Proof.
  intros H. unfold with_skip. rewrite bool_decide_eq_false_2 by done.
  by destruct (skip_translation l), target.
Qed.

Lemma with_skip_same (target : bool) (l : translation_line) :
  skip_translation l = target -> with_skip target l = l.
Proof. intros H. unfold with_skip. by rewrite bool_decide_eq_true_2. Qed.

Lemma with_skip_flag (target : bool) (l : translation_line) :
  skip_translation (with_skip target l) = target.
Proof. unfold with_skip. by case_bool_decide. Qed.

Lemma set_skip_loop_spec (target : bool) (m a : nat) (d : translation_data)
    (changed_count : Z) :
  (a + m <= length (lines d))%nat ->
  exists d',
    set_skip_loop target (Z.of_nat <$> seq a m) d changed_count
    = (Some (changed_count
             + Z.of_nat (length (filter (fun l => skip_translation l <> target)
                                   (take m (drop a (lines d)))))), d')
    /\ file_path d' = file_path d
    /\ forall i,
         lines d' !! i
         = (fun l => if bool_decide (a <= i < a + m)%nat
                     then with_skip target l else l) <$> lines d !! i.
Proof.
  revert a d changed_count.
  induction m as [|m IH]; intros a d c Hlen.
  { exists d. cbn [seq fmap list_fmap set_skip_loop take filter length].
    rewrite Z.add_0_r. split; [done|]. split; [done|]. intros i.
    rewrite bool_decide_eq_false_2 by lia. by destruct (lines d !! i). }
  cbn [seq fmap list_fmap set_skip_loop]. rewrite py_index_nat.
  destruct (lines d !! a) as [l|] eqn:El.
  2:{ apply lookup_ge_None in El. lia. }
  rewrite (drop_S _ _ _ El). cbn [take]. rewrite filter_cons.
  case_bool_decide as Hl.
  - destruct (IH (S a) d c ltac:(lia)) as (d' & -> & Hfp & Hlines).
    exists d'. rewrite decide_False by (intros H; by apply H).
    split; [done|]. split; [done|]. intros i. rewrite Hlines.
    destruct (decide (i = a)) as [->|].
    + rewrite El. cbn. rewrite bool_decide_eq_false_2 by lia.
      rewrite bool_decide_eq_true_2 by lia. by rewrite with_skip_same.
    + destruct (lines d !! i); [|done]. cbn. f_equal.
      by rewrite (bool_decide_ext (S a <= i < S a + m)%nat
                    (a <= i < a + S m)%nat) by lia.
  - unfold toggle_skip_translation at 1.
    assert (valid_index d (Z.of_nat a) = Some a) as ->.
    { apply valid_index_spec. split; [|lia].
      apply lookup_lt_Some in El. lia. }
    cbn [snd].
    match goal with
    | |- context [set_skip_loop _ _ ?d1 _] =>
        destruct (IH (S a) d1 (c + 1) ltac:(cbn [lines]; rewrite length_alter; lia))
          as (d' & -> & Hfp & Hlines)
    end.
    exists d'. cbn [lines file_path] in *. rewrite decide_True by done.
    rewrite drop_alter. rewrite (decide_False (P := (S a <= a)%nat)) by lia.
    cbn [length].
    split; [f_equal; f_equal; lia|]. split; [done|]. intros i.
    rewrite Hlines. rewrite list_lookup_alter.
    destruct (decide (a = i)) as [<-|].
    + rewrite El. cbn. rewrite bool_decide_eq_false_2 by lia.
      rewrite bool_decide_eq_true_2 by lia. by rewrite (with_skip_toggled target).
    + destruct (lines d !! i); [|done]. cbn. f_equal.
      by rewrite (bool_decide_ext (S a <= i < S a + m)%nat
                    (a <= i < a + S m)%nat) by lia.
Qed.

Lemma translation_data_eq (d d' : translation_data) :
  file_path d' = file_path d -> (forall i, lines d' !! i = lines d !! i) ->
  d' = d.
Proof.
  destruct d, d'. cbn. intros -> H. f_equal. by apply list_eq.
Qed.

Lemma set_skip_current_page_run (target : bool) (d : translation_data)
    (v : page_view) (a m : nat) :
  shows_a_page d v ->
  page_bounds d v = (Z.of_nat a, Z.of_nat a + Z.of_nat m) ->
  (a + m <= length (lines d))%nat ->
  tree v = take m (drop a (lines d)) ->
  exists d' v',
    set_skip_current_page target d v
    = (Some (Z.of_nat (length (filter (fun l => skip_translation l <> target)
                                 (tree v)))), d', v')
    /\ file_path d' = file_path d
    /\ (forall i,
          lines d' !! i
          = (fun l => if bool_decide (a <= i < a + m)%nat
                      then with_skip target l else l) <$> lines d !! i)
    /\ shows_a_page d' v'
    /\ page_bounds d' v' = page_bounds d v
    /\ tree v' = with_skip target <$> tree v.
Proof.
  intros Hv Hb Hlen Htree. unfold set_skip_current_page.
  destruct (lines d) as [|l0 ls0] eqn:E.
  { destruct Hv as (_ & _ & _ & Ht & Hne). rewrite Htree in Hne.
    by rewrite drop_nil, take_nil in Hne. }
  rewrite <- E in *. rewrite Hb, py_range_seq.
  destruct (set_skip_loop_spec target m a d 0 Hlen)
    as (d' & -> & Hfp & Hlines).
  rewrite <- Htree. rewrite !Z.add_0_l.
  assert (Hlen' : length (lines d') = length (lines d)).
  { apply Nat.le_antisymm.
    - destruct (decide (length (lines d') <= length (lines d))%nat); [done|].
      pose proof (Hlines (length (lines d))) as H.
      rewrite (lookup_ge_None_2 (lines d)) in H by lia.
      apply lookup_ge_None in H. lia.
    - destruct (decide (length (lines d) <= length (lines d'))%nat); [done|].
      pose proof (Hlines (length (lines d'))) as H.
      rewrite (lookup_ge_None_2 (lines d')) in H by lia.
      destruct (lines d !! length (lines d')) eqn:E'; [done|].
      apply lookup_ge_None in E'. lia. }
  assert (Hpage : take m (drop a (lines d')) = with_skip target <$> tree v).
  { rewrite Htree. apply list_eq. intros j.
    rewrite list_lookup_fmap, !lookup_take, !lookup_drop.
    destruct (decide (j < m)%nat); [|done].
    rewrite Hlines. rewrite bool_decide_eq_true_2 by lia. done. }
  pose proof Hv as (Hsize & Htotal & Hcur & Ht & Hne).
  set (count := Z.of_nat (length (filter _ (tree v)))).
  destruct (count >? 0) eqn:Hc.
  - exists d', (update_grid_display d' v).
    split; [done|]. split; [done|]. split; [done|].
    assert (Hd' : lines d' <> []).
    { intros Hnil. rewrite Hnil in Hlen'. rewrite E in Hlen'. done. }
    pose proof (update_grid_display_shows d' v Hd' Hsize ltac:(lia)) as Hv'.
    assert (Hsame : update_grid_display d' v
                    = PageView (lines_per_page v) (current_page v)
                        (total_pages v)
                        (get_page_items (lines d') (current_page v)
                           (lines_per_page v))).
    { unfold update_grid_display. destruct (lines d') eqn:E'; [done|].
      rewrite Hlen', <- Htotal.
      assert ((current_page v >? total_pages v) = false) as -> by lia.
      done. }
    split; [done|]. rewrite Hsame. split.
    + unfold page_bounds. cbn [current_page lines_per_page]. by rewrite Hlen'.
    + cbn [tree]. rewrite <- Hpage.
      rewrite get_page_items_window by lia.
      rewrite Ht, get_page_items_window in Htree by lia.
      assert (Hb' := Hb). unfold page_bounds in Hb'.
      injection Hb' as Hb1 Hb2.
      replace (Z.to_nat (current_page v - 1) * Z.to_nat (lines_per_page v))%nat
        with a by nia.
      destruct (decide (Z.of_nat a + lines_per_page v
                        <= Z.of_nat (length (lines d)))).
      * f_equal. lia.
      * rewrite !take_ge; [done|rewrite length_drop; lia..].
  - assert (Hall : Forall (fun l => skip_translation l = target) (tree v)).
    { apply Forall_forall. intros l Hl.
      destruct (decide (skip_translation l = target)) as [|Hn]; [done|].
      exfalso. assert (l ∈ filter (fun l => skip_translation l <> target)
                               (tree v)) as Hin
        by by apply list_elem_of_filter.
      destruct (filter _ (tree v)); [by apply elem_of_nil in Hin|].
      subst count. rewrite length_cons, Z.gtb_ltb in Hc. apply Z.ltb_ge in Hc. lia. }
    assert (Hfix : with_skip target <$> tree v = tree v).
    { rewrite <- (list_fmap_id (tree v)) at 2. apply list_fmap_ext.
      intros j l Hl. rewrite Forall_lookup in Hall.
      by apply with_skip_same, (Hall j). }
    assert (d' = d) as ->.
    { apply translation_data_eq; [done|]. intros i. rewrite Hlines.
      destruct (lines d !! i) as [l|] eqn:Ei; [|done]. cbn. f_equal.
      case_bool_decide as Hi; [|done]. apply with_skip_same.
      rewrite Forall_lookup in Hall. apply (Hall (i - a)%nat).
      rewrite Htree, lookup_take, lookup_drop.
      rewrite decide_True by lia.
      by replace (a + (i - a))%nat with i by lia. }
    exists d, v. split; [done|]. split; [done|]. split; [done|].
    split; [done|]. split; [done|]. by rewrite Hfix.
Qed.

(** On a page that exists, [skip_current_page] sets the skip flag of every
    line of the page that lacks it and gives the line the status skipped;
    [unskip_current_page] clears the flag of every line of the page that
    has it and gives the line the status of its translation.  Lines that
    had the flag asked for and lines of other pages are as before.  The
    number counted is the number of rows shown that changed; the page
    shown afterwards is the same page with the new flags, and asking again
    changes nothing. *)
Theorem set_skip_current_page_spec (target : bool) (d : translation_data)
    (v : page_view) :
  shows_a_page d v ->
  exists d' v',
    set_skip_current_page target d v
    = (Some (Z.of_nat (length (filter (fun l => skip_translation l <> target)
                                 (tree v)))), d', v')
    /\ (forall i,
          lines d' !! i
          = (fun l => if on_page d v (Z.of_nat i) then with_skip target l
                      else l) <$> lines d !! i)
    /\ shows_a_page d' v'
    /\ tree v' = with_skip target <$> tree v
    /\ Forall (fun l => skip_translation l = target) (tree v')
    /\ set_skip_current_page target d' v' = (Some 0, d', v').
Proof.
  intros Hv.
  destruct (page_bounds_shown d v Hv) as (a & m & Hb & Hm & Hlen & Htree).
  destruct (set_skip_current_page_run target d v a m Hv Hb Hlen Htree)
    as (d' & v' & Hrun & Hfp & Hlines & Hv' & Hb' & Htree').
  exists d', v'. split; [done|]. split.
  { intros i. rewrite Hlines. destruct (lines d !! i); [|done]. cbn.
    f_equal. unfold on_page. rewrite Hb. cbn [fst snd].
    case_bool_decide as Hi.
    - assert ((Z.of_nat a <=? Z.of_nat i) = true) as ->
        by (apply Z.leb_le; lia).
      assert ((Z.of_nat i <? Z.of_nat a + Z.of_nat m) = true) as ->
        by (apply Z.ltb_lt; lia).
      done.
    - destruct (Z.of_nat a <=? Z.of_nat i) eqn:E1; [|done].
      destruct (Z.of_nat i <? Z.of_nat a + Z.of_nat m) eqn:E2; [|done].
      apply Z.leb_le in E1. apply Z.ltb_lt in E2. lia. }
  split; [done|]. split; [done|].
  assert (Hall : Forall (fun l => skip_translation l = target) (tree v')).
  { rewrite Htree'. apply Forall_fmap, Forall_forall. intros l _.
    apply with_skip_flag. }
  split; [done|].
  assert (Hlen' : (a + m <= length (lines d'))%nat).
  { destruct (decide (a + m <= length (lines d'))%nat); [done|].
    pose proof (Hlines (a + m - 1)%nat) as H.
    rewrite (lookup_ge_None_2 (lines d')) in H by lia.
    destruct (lines d !! (a + m - 1)%nat) eqn:E'; [done|].
    apply lookup_ge_None in E'. lia. }
  assert (Htree'' : tree v' = take m (drop a (lines d'))).
  { rewrite Htree', Htree. apply list_eq. intros j.
    rewrite list_lookup_fmap, !lookup_take, !lookup_drop.
    destruct (decide (j < m)%nat); [|done].
    rewrite Hlines. rewrite bool_decide_eq_true_2 by lia. done. }
  destruct (set_skip_current_page_run target d' v' a m Hv'
              ltac:(by rewrite Hb') Hlen' Htree'')
    as (d2 & v2 & Hrun2 & Hfp2 & Hlines2 & _ & _ & Htree2).
  assert (Hcount : filter (fun l => skip_translation l <> target) (tree v')
                   = []).
  { apply filter_none. intros l Hl. rewrite Forall_forall in Hall.
    intros Hn. by apply Hn, Hall. }
  rewrite Hcount in Hrun2. cbn [length Z.of_nat] in Hrun2.
  assert (d2 = d') as ->.
  { apply translation_data_eq; [done|]. intros i. rewrite Hlines2.
    destruct (lines d' !! i) as [l|] eqn:Ei; [|done]. cbn. f_equal.
    case_bool_decide as Hi; [|done]. apply with_skip_same.
    rewrite Forall_lookup in Hall. apply (Hall (i - a)%nat).
    rewrite Htree'', lookup_take, lookup_drop.
    rewrite decide_True by lia.
    by replace (a + (i - a))%nat with i by lia. }
  rewrite Hrun2. f_equal.
  unfold set_skip_current_page in Hrun2.
  destruct (lines d') eqn:E'; [by injection Hrun2|].
  destruct (page_bounds _ v') as [s0 e0].
  destruct (set_skip_loop _ _ _ _) as [[c|] d3]; [|done].
  injection Hrun2 as -> -> Hv2. by rewrite <- Hv2.
Qed.

Lemma set_skip_current_page_spec_witness :
  let d := (load_from_file (one_file (py "doc.txt") (numbered_lines 25))
              (py "doc.txt") translation_data_init).2 in
  let v := goto_last_page d (update_grid_display d page_view_init) in
  exists d' v',
    skip_current_page d v = (Some 5, d', v')
    /\ get_skipped_count d' = 5
    /\ get_lines_to_translate d' = py_range 0 20.
Proof.
  intros d v.
  destruct (set_skip_current_page_spec true d v) as (d' & v' & Hrun & _).
  - change (shows_a_page d (run_page_op d
                              (update_grid_display d page_view_init)
                              GotoLast)).
    apply run_page_op_shows; [by vm_compute|done|].
    apply update_grid_display_shows; [by vm_compute|done|done].
  - exists d', v'. unfold skip_current_page. rewrite Hrun.
    revert Hrun. vm_compute. intros [= <- <-]. done.
Defined.

(** ** The definitions on small inputs *)

(** [strip], [replace] and the three-digit format. *)
Example strip_example : strip (py "  a b	 ") = py "a b".
Proof. reflexivity. Qed.

Example replace_example :
  py_replace (py "ab") (py "X") (py "cababdab") = py "cXXdX".
Proof. reflexivity. Qed.

Example format_03d_example :
  format_03d 7 = py "007" /\ format_03d 1000 = py "1000".
Proof. split; reflexivity. Qed.

(** Five items in pages of two. *)
Example pagination_example :
  get_page_items [1;2;3;4;5] 3 2 = [5]
  /\ calculate_pagination 5 2 = (3, [1;2;3]).
Proof. split; reflexivity. Qed.

(** The default protector on a text with a variable and a counter. *)
Example protect_text_example :
  protect_text default_protector [py "curly_braces"; py "square_brackets"]
    (py "Hello {name}, you have [5] items")
  = (py "Hello §PROTECTED_1§, you have §PROTECTED_2§ items",
     [(py "§PROTECTED_1§", py "{name}"); (py "§PROTECTED_2§", py "[5]")]).
Proof. vm_compute. reflexivity. Qed.

(** A file of five lines split by two and merged again. *)
Example split_merge_example :
  let s0 := IO (one_file (py "doc.txt") (numbered_lines 5)) None in
  let '(r, s1) :=
    split_text_file (py "20240101_120000") s0 (py "doc.txt") 2 None true in
  r = Return (SplitOk [py "doc_split_20240101_120000/doc_part_001.txt";
                       py "doc_split_20240101_120000/doc_part_002.txt";
                       py "doc_split_20240101_120000/doc_part_003.txt"]
                (Some (py "doc_split_20240101_120000")))
  /\ files (disk s1) !! py "doc_split_20240101_120000/doc_part_003.txt"
     = Some (py "5
")
  /\ let '(r2, s2) :=
       merge_text_files star_glob s1 (py "doc_part_*.txt") None
         (Some (py "doc_split_20240101_120000")) in
     r2 = Return (Some (py "doc_merged.txt"))
     /\ files (disk s2) !! py "doc_merged.txt" = Some (numbered_lines 5).
Proof. vm_compute. repeat split; reflexivity. Qed.

(** The engine without any translation library: the built-in word list
    answers, after the three libraries were tried. *)
Example translate_offline_example :
  translate offline (py "Hello World") (py "en") (py "th") true (py ":")
  = (py "สวัสดี โลก",
     [py "Hello World"; py "Hello World"; py "Hello World"; py "Hello World"]).
Proof. vm_compute. reflexivity. Qed.

(** A model's answer with a code fence and a note is cleaned. *)
Example clean_translation_result_example :
  clean_translation_result (py "```text
(note)
 hi there 
```") = py "hi there".
Proof. vm_compute. reflexivity. Qed.
